(** * s3cli: request signing and chunked transfer, verified against the source

    A shallow embedding of [s3cli.py]: the Signature Version 4 signer
    ([sign_request_v4]), the transfer planner ([upload_file],
    [download_file], the chunk arithmetic) and the multipart-upload and
    ranged-download orchestrators, sequential and parallel.

    Modelling conventions.
    - A Python [str] is a Rocq [string]: the sequence of its UTF-8 bytes.
      Splitting on ASCII separators, byte-wise comparison, slicing and
      percent-encoding agree with Python on that representation for ASCII
      text; [str.lower] is modelled on the ASCII letters.
    - Python [bytes] are [list byte]; [str.encode('utf-8')] is
      [list_byte_of_string].
    - Python [int] is [Z]; [//] on a positive divisor is [Z.div].
    - [hashlib.sha256] and [hmac.new(..., hashlib.sha256)] are embedded as
      executable functions (FIPS 180-4, RFC 2104) so that signatures can be
      evaluated on concrete requests. *)

From Stdlib Require Import ZArith String Ascii List Lia Bool.
From Stdlib Require Import Init.Byte DecimalString.
From stdpp Require Import base list gmap strings sorting.
Import ListNotations.

(** ** hashlib.sha256 *)

Module Sha256.
Local Open Scope Z_scope.

Definition mask32 : Z := 2 ^ 32 - 1.
Definition add32 (x y : Z) : Z := Z.land (x + y) mask32.
Definition rotr (n x : Z) : Z :=
  Z.lor (Z.shiftr x n) (Z.land (Z.shiftl x (32 - n)) mask32).
Definition not32 (x : Z) : Z := Z.lxor x mask32.

Definition Ch (x y z : Z) : Z := Z.lxor (Z.land x y) (Z.land (not32 x) z).
Definition Maj (x y z : Z) : Z :=
  Z.lxor (Z.lxor (Z.land x y) (Z.land x z)) (Z.land y z).
Definition big_sigma0 (x : Z) : Z :=
  Z.lxor (Z.lxor (rotr 2 x) (rotr 13 x)) (rotr 22 x).
Definition big_sigma1 (x : Z) : Z :=
  Z.lxor (Z.lxor (rotr 6 x) (rotr 11 x)) (rotr 25 x).
Definition small_sigma0 (x : Z) : Z :=
  Z.lxor (Z.lxor (rotr 7 x) (rotr 18 x)) (Z.shiftr x 3).
Definition small_sigma1 (x : Z) : Z :=
  Z.lxor (Z.lxor (rotr 17 x) (rotr 19 x)) (Z.shiftr x 10).

(** The round constants are the leading 32 fractional bits of the cube
    roots of the first 64 primes, the initial state those of the square
    roots of the first 8; both tables are computed rather than typed in. *)
Definition is_prime (n : nat) : bool :=
  forallb (fun d => negb (Nat.eqb (n mod d) 0)) (seq 2 (n - 2)).
Definition primes64 : list Z :=
  Eval vm_compute in map Z.of_nat (filter is_prime (seq 2 310)).

Definition icbrt (n : Z) : Z :=
  fold_left (fun r i => let r' := r + 2 ^ Z.of_nat i in
                        if r' * r' * r' <=? n then r' else r)
            (rev (seq 0 40)) 0.

Definition K : list Z :=
  Eval vm_compute in map (fun p => Z.land (icbrt (p * 2 ^ 96)) mask32) primes64.
Definition H0 : list Z :=
  Eval vm_compute in
    map (fun p => Z.land (Z.sqrt (p * 2 ^ 64)) mask32) (firstn 8 primes64).

Definition byte_to_Z (b : byte) : Z := Z.of_N (Byte.to_N b).
Definition Z_to_byte (z : Z) : byte :=
  byte_of_ascii (ascii_of_N (Z.to_N (Z.land z 255))).

(** Big-endian encoding of [z] on [n] bytes. *)
Fixpoint be_bytes (n : nat) (z : Z) : list Z :=
  match n with
  | O => []
  | S n' => Z.land (Z.shiftr z (8 * Z.of_nat n')) 255 :: be_bytes n' z
  end.

Definition be_word (bs : list Z) : Z :=
  fold_left (fun acc b => Z.lor (Z.shiftl acc 8) b) bs 0.

(** Cut a list in consecutive groups of [n] elements. *)
Fixpoint groups_fuel {A} (fuel n : nat) (l : list A) : list (list A) :=
  match fuel, l with
  | O, _ | _, [] => []
  | S fuel', _ => firstn n l :: groups_fuel fuel' n (skipn n l)
  end.
Definition groups {A} (n : nat) (l : list A) : list (list A) :=
  groups_fuel (length l) n l.

Definition pad (msg : list Z) : list Z :=
  let len := Z.of_nat (length msg) in
  msg ++ [128] ++ repeat 0 (Z.to_nat ((55 - len) mod 64)) ++ be_bytes 8 (8 * len).

(** Message schedule, most recent word first. *)
Definition schedule_step (rw : list Z) : list Z :=
  add32 (add32 (add32 (small_sigma1 (nth 1 rw 0)) (nth 6 rw 0))
               (small_sigma0 (nth 14 rw 0))) (nth 15 rw 0) :: rw.
Definition schedule (block : list Z) : list Z :=
  rev (Nat.iter 48 schedule_step (rev block)).

Record state := State { sa : Z; sb : Z; sc : Z; sd : Z; se : Z; sf : Z; sg : Z; sh : Z }.

Definition round (s : state) (kw : Z * Z) : state :=
  let t1 := add32 (add32 (add32 (add32 (sh s) (big_sigma1 (se s)))
                                (Ch (se s) (sf s) (sg s))) kw.1) kw.2 in
  let t2 := add32 (big_sigma0 (sa s)) (Maj (sa s) (sb s) (sc s)) in
  State (add32 t1 t2) (sa s) (sb s) (sc s) (add32 (sd s) t1) (se s) (sf s) (sg s).

Definition compress (s : state) (block : list Z) : state :=
  let r := fold_left round (combine K (schedule block)) s in
  State (add32 (sa s) (sa r)) (add32 (sb s) (sb r)) (add32 (sc s) (sc r))
        (add32 (sd s) (sd r)) (add32 (se s) (se r)) (add32 (sf s) (sf r))
        (add32 (sg s) (sg r)) (add32 (sh s) (sh r)).

Definition init : state :=
  State (nth 0 H0 0) (nth 1 H0 0) (nth 2 H0 0) (nth 3 H0 0)
        (nth 4 H0 0) (nth 5 H0 0) (nth 6 H0 0) (nth 7 H0 0).

Definition state_words (s : state) : list Z :=
  [sa s; sb s; sc s; sd s; se s; sf s; sg s; sh s].

(** [hashlib.sha256(data).digest()] *)
Definition sha256 (data : list byte) : list byte :=
  let words := map be_word (groups 4 (pad (map byte_to_Z data))) in
  let final := fold_left compress (groups 16 words) init in
  map Z_to_byte (concat (map (be_bytes 4) (state_words final))).
End Sha256.


(** [bytes.hex()] / [hexdigest()]: two lowercase hexadecimal digits per byte. *)
Definition hex_digit (digits : string) (n : Z) : ascii :=
  default "0"%char (String.get (Z.to_nat n) digits).
Definition hex_byte (digits : string) (n : Z) : string :=
  String (hex_digit digits (Z.shiftr n 4)) (String (hex_digit digits (Z.land n 15)) "").
Definition hexlify (bs : list byte) : string :=
  String.concat "" (map (fun b => hex_byte "0123456789abcdef" (Sha256.byte_to_Z b)) bs).
Definition sha256 : list byte -> list byte := Sha256.sha256.
Definition sha256_hexdigest (data : list byte) : string := hexlify (sha256 data).

(** ** hmac.new(key, msg, hashlib.sha256) *)

Module Hmac.
Definition block_size : nat := 64.
Definition xor_with (c : Z) (bs : list byte) : list byte :=
  map (fun b => Sha256.Z_to_byte (Z.lxor (Sha256.byte_to_Z b) c)) bs.
Definition digest (key msg : list byte) : list byte :=
  let key := if (block_size <? length key)%nat then sha256 key else key in
  let key := key ++ repeat x00 (block_size - length key) in
  sha256 (xor_with 92 key ++ sha256 (xor_with 54 key ++ msg)).
Definition hexdigest (key msg : list byte) : string := hexlify (digest key msg).
End Hmac.

(** ** Python string operations used by the signer *)

Definition encode_utf8 (s : string) : list byte := list_byte_of_string s.

(** [s.split(sep)] for a one-character separator: never empty. *)
Fixpoint split (sep : ascii) (s : string) : list string :=
  match s with
  | EmptyString => [EmptyString]
  | String c s' =>
      if Ascii.eqb c sep then EmptyString :: split sep s'
      else match split sep s' with
           | [] => [String c EmptyString]
           | w :: ws => String c w :: ws
           end
  end.

(** [sep in s] and [s.split(sep, 1)] at once: [None] when [sep] does not
    occur, otherwise the text before and after its first occurrence. *)
Fixpoint split_once (sep : ascii) (s : string) : option (string * string) :=
  match s with
  | EmptyString => None
  | String c s' =>
      if Ascii.eqb c sep then Some (EmptyString, s')
      else match split_once sep s' with
           | Some (a, b) => Some (String c a, b)
           | None => None
           end
  end.

Definition map_chars (f : ascii -> string) (s : string) : string :=
  String.concat "" (map f (list_ascii_of_string s)).

Definition between (lo hi c : ascii) : bool :=
  (N_of_ascii lo <=? N_of_ascii c)%N && (N_of_ascii c <=? N_of_ascii hi)%N.

(** [str.lower()] on ASCII letters. *)
Definition lower_char (c : ascii) : ascii :=
  if between "A" "Z" c then ascii_of_N (N_of_ascii c + 32) else c.
Definition lower (s : string) : string :=
  string_of_list_ascii (map lower_char (list_ascii_of_string s)).

(** [urllib.parse.quote(s, safe='')]: letters, digits and [_.-~] are kept,
    every other byte becomes [%XX] with uppercase hexadecimal digits. *)
Definition always_safe (c : ascii) : bool :=
  between "a" "z" c || between "A" "Z" c || between "0" "9" c
  || Ascii.eqb c "_" || Ascii.eqb c "." || Ascii.eqb c "-" || Ascii.eqb c "~".
Definition quote_char (c : ascii) : string :=
  if always_safe c then String c EmptyString
  else String "%" (hex_byte "0123456789ABCDEF" (Z.of_N (N_of_ascii c))).
Definition quote (s : string) : string := map_chars quote_char s.

(** [str(n)] for an integer. *)
Definition str_of_Z (n : Z) : string := DecimalString.NilZero.string_of_int (Z.to_int n).

(** [sorted(d.keys())] for a dictionary with string keys. *)
Definition sorted_keys (d : gmap string string) : list string :=
  merge_sort String.le (map fst (map_to_list d)).


Definition nl : string := String "010"%char EmptyString.

(** ** sign_request_v4 (s3cli.py, lines 32-124) *)

(** The two components of [urlparse(url)] that the signer reads. *)
Record ParseResult := { path : string; query : string }.

(** The [data] argument: [None], a [bytes] object or a [str]. *)
Inductive Data :=
| DataNone
| DataBytes (b : list byte)
| DataStr (s : string).

(** A Python dictionary with string keys and values, as the list of its
    items in insertion order. *)
Abbreviation items := (list (string * string)).

(** The loop of lines 43-50; [if parsed_url.query:] skips the empty string. *)
Definition query_params (query : string) : gmap string string :=
  if String.eqb query "" then ∅
  else foldl (fun d param =>
                match split_once "=" param with
                | Some (key, value) => <[key := value]> d
                | None => <[param := ""]> d
                end) ∅ (split "&" query).

(** Lines 52-55. *)
Definition canonical_query_string (query : string) : string :=
  let query_params := query_params query in
  String.concat "&"
    (map (fun k => quote k +:+ "=" +:+ quote (query_params !!! k))
         (sorted_keys query_params)).

(** Line 62: [{k.lower(): v for k, v in headers.items()}]. *)
Definition normalized_headers (headers : items) : gmap string string :=
  foldl (fun d kv => <[lower kv.1 := kv.2]> d) ∅ headers.

(** Lines 66-67: the loop appending [key:value\n] for each sorted key. *)
Definition canonical_headers (headers : gmap string string) : string :=
  foldl (fun acc key => acc +:+ key +:+ ":" +:+ (headers !!! key) +:+ nl)
        "" (sorted_keys headers).

(** Line 68. *)
Definition signed_headers (headers : gmap string string) : string :=
  String.concat ";" (sorted_keys headers).

(** Lines 71-76. *)
Definition payload_hash (data : Data) : string :=
  match data with
  | DataNone => sha256_hexdigest []
  | DataBytes b => sha256_hexdigest b
  | DataStr s => sha256_hexdigest (encode_utf8 s)
  end.

Section Signer.
(** [urllib.parse.urlparse] is a library function; the signer is verified
    for whatever decomposition it returns. *)
Context (urlparse : string -> ParseResult).

(** Step 1 of the source, lines 35-86. *)
Definition canonical_request (method url : string) (headers : items)
    (data : Data) : string :=
  let parsed_url := urlparse url in
  let path := if String.eqb (path parsed_url) "" then "/" else path parsed_url in
  let canonical_query_string := canonical_query_string (query parsed_url) in
  let headers := normalized_headers headers in
  method +:+ nl +:+
  path +:+ nl +:+
  canonical_query_string +:+ nl +:+
  canonical_headers headers +:+ nl +:+
  signed_headers headers +:+ nl +:+
  payload_hash data.

(** The whole function. [None] stands for the [KeyError] that
    [headers['x-amz-date']] raises when no header has that lowercased
    name. *)
Definition sign_request_v4 (method url region service : string)
    (headers : items) (data : Data) (access_key secret_key : string)
    : option string :=
  let canonical_request := canonical_request method url headers data in
  let headers := normalized_headers headers in
  let signed_headers := signed_headers headers in
  let algorithm := "AWS4-HMAC-SHA256" in
  match headers !! "x-amz-date" with
  | None => None
  | Some amz_date =>
      let credential_scope :=
        substring 0 8 amz_date +:+ "/" +:+ region +:+ "/" +:+ service +:+ "/aws4_request" in
      let string_to_sign :=
        algorithm +:+ nl +:+
        amz_date +:+ nl +:+
        credential_scope +:+ nl +:+
        sha256_hexdigest (encode_utf8 canonical_request) in
      let k_date :=
        Hmac.digest (encode_utf8 ("AWS4" +:+ secret_key))
                    (encode_utf8 (substring 0 8 amz_date)) in
      let k_region := Hmac.digest k_date (encode_utf8 region) in
      let k_service := Hmac.digest k_region (encode_utf8 service) in
      let k_signing := Hmac.digest k_service (encode_utf8 "aws4_request") in
      let signature := Hmac.hexdigest k_signing (encode_utf8 string_to_sign) in
      Some (algorithm +:+ " " +:+
            "Credential=" +:+ access_key +:+ "/" +:+ credential_scope +:+ ", " +:+
            "SignedHeaders=" +:+ signed_headers +:+ ", " +:+
            "Signature=" +:+ signature)
  end.
End Signer.

(** What [urlparse] returns on the URLs [make_s3_request] builds
    ([scheme://host/path?query]): the path starts at the first [/] after the
    authority and stops at [?]; the query is what follows. Used to evaluate
    the signer on concrete requests. *)
Definition urlparse_http (url : string) : ParseResult :=
  let rest := match split_once ":" url with
              | Some (_, r) => substring 2 (String.length r) r
              | None => url
              end in
  let '(loc, q) := match split_once "?" rest with
                   | Some (l, q) => (l, q)
                   | None => (rest, EmptyString)
                   end in
  match split_once "/" loc with
  | Some (_, p) => {| path := "/" +:+ p; query := q |}
  | None => {| path := EmptyString; query := q |}
  end.

(** ** Transfer planner *)

Local Open Scope Z_scope.

(** The attributes of the argparse namespace the planner reads; [None] is an
    attribute the namespace does not have ([hasattr] is false). *)
Record Args := {
  chunk_size : option Z;
  force_multipart : option bool;
  force_single : option bool;
  force_chunked : option bool
}.

(** [hasattr(args, name) and args.name] *)
Definition flag (f : option bool) : bool := default false f.

(** Lines 270 and 417. *)
Definition chunk_size_bytes (args : Args) : Z :=
  match chunk_size args with
  | Some n => n * 1024 * 1024
  | None => 5 * 1024 * 1024
  end.

(** [upload_file], lines 269-279: the final value of [use_multipart]. *)
Definition use_multipart (args : Args) (file_size : Z) : bool :=
  let chunk_size := chunk_size_bytes args in
  let use_multipart := chunk_size <? file_size in
  let use_multipart := if flag (force_multipart args) then true else use_multipart in
  let use_multipart := if flag (force_single args) then false else use_multipart in
  use_multipart.

(** [download_file], lines 416-426: the final value of [use_chunked]. *)
Definition use_chunked (args : Args) (file_size : Z) : bool :=
  let chunk_size := chunk_size_bytes args in
  let use_chunked := chunk_size <? file_size in
  let use_chunked := if flag (force_chunked args) then true else use_chunked in
  let use_chunked := if flag (force_single args) then false else use_chunked in
  use_chunked.

(** Lines 900 and 995: [(file_size + chunk_size - 1) // chunk_size]. Python
    raises [ZeroDivisionError] when [chunk_size] is 0; the callers below
    test for it before they use the quotient. *)
Definition chunk_count (file_size chunk_size : Z) : Z :=
  (file_size + chunk_size - 1) / chunk_size.

(** Lines 978-979 of [download_chunk]: the inclusive byte range of a chunk. *)
Definition chunk_range (file_size chunk_size chunk_index : Z) : Z * Z :=
  let start_byte := chunk_index * chunk_size in
  let end_byte := Z.min (start_byte + chunk_size - 1) (file_size - 1) in
  (start_byte, end_byte).

(** [range(lo, hi)] *)
Definition range (lo hi : Z) : list Z :=
  map (fun i => lo + Z.of_nat i) (seq 0 (Z.to_nat (hi - lo))).

(** ** Signed transport and local files *)

(** One invocation of [make_s3_request]: the arguments the orchestrators
    vary. An absent [params] or [headers] dictionary is the empty list. *)
Record Call := {
  method : string;
  bucket : string;
  key : string;
  params : items;
  data : Data;
  headers : items
}.

(** What the orchestrators read from a [requests] response: the status, the
    body, the text of the [UploadId] element of an initiate response and the
    [ETag] header of a part response. The service is taken to send the last
    two with every 200 answer, as the S3 protocol prescribes. *)
Record Response := {
  status_code : Z;
  content : list byte;
  UploadId : string;
  ETag : string
}.

(** The final report of an upload (the message printed last). *)
Inductive UploadReport :=
| InitiateFailed
| PartFailed
| UploadSucceeded
| CompleteFailed.

(** An element of [part_info]. *)
Record Part := { PartNumber : Z; PartETag : string }.

(** The order of [part_info.sort(key=lambda x: x['PartNumber'])]. *)
Definition part_le (a b : Part) : Prop := PartNumber a <= PartNumber b.
#[global] Instance part_le_dec : RelDecision part_le.
Proof. intros a b. unfold part_le. apply _. Defined.

(** The three lines building [completion_xml] (385-388 and 948-951). *)
Definition completion_xml (part_info : list Part) : string :=
  foldl (fun xml part =>
           xml +:+ "<Part><PartNumber>" +:+ str_of_Z (PartNumber part) +:+
           "</PartNumber><ETag>" +:+ PartETag part +:+ "</ETag></Part>")
        "<CompleteMultipartUpload>" part_info
  +:+ "</CompleteMultipartUpload>".

(** [f.seek(pos); f.read(n)] on a file opened with [rb]: at most [n]
    bytes, all remaining bytes when [n] is -1; [None] stands for the
    [ValueError] that a read length below -1 raises. *)
Definition file_read (n : Z) (pos : nat) (file : list byte)
    : option (list byte) :=
  if n <? -1 then None
  else if n <? 0 then Some (drop pos file)
  else Some (take (Z.to_nat n) (drop pos file)).

(** [f.seek(pos); f.write(data)] on a file opened with [r+b]. *)
Definition file_pwrite (pos : nat) (data file : list byte) : list byte :=
  take pos file ++ repeat x00 (pos - length file) ++ data
  ++ drop (pos + length data) file.

(** [status_code not in (200, 206)] *)
Definition range_status_ok (status : Z) : bool :=
  (status =? 200) || (status =? 206).

Definition range_header (start_byte end_byte : Z) : items :=
  [("Range", "bytes=" +:+ str_of_Z start_byte +:+ "-" +:+ str_of_Z end_byte)].

Section Orchestrators.
(** The remote service answers each call and may change state doing so. *)
Context {World : Type} (service : Call -> World -> Response * World).

(** The state the orchestrators run in: the service, the calls made so far
    with their answers (oldest first), and the destination file of a
    download ([None] while it does not exist). *)
Record State := {
  world : World;
  trace : list (Call * Response);
  local_file : option (list byte)
}.

(** One round trip, recorded in the trace. Signing and URL assembly are
    the same for every call and are embedded in [sign_request_v4]. *)
Definition make_s3_request (method bucket key : string) (params : items)
    (data : Data) (headers : items) (st : State) : Response * State :=
  let call := Build_Call method bucket key params data headers in
  let '(response, w) := service call (world st) in
  (response, {| world := w; trace := trace st ++ [(call, response)];
                local_file := local_file st |}).

Definition set_local_file (file : option (list byte)) (st : State) : State :=
  {| world := world st; trace := trace st; local_file := file |}.

(** Lines 385-400 and 948-963: build the document and submit it. *)
Definition complete_upload (bucket key upload_id : string)
    (part_info : list Part) (st : State) : UploadReport * State :=
  let '(response, st) :=
    make_s3_request "POST" bucket key [("uploadId", upload_id)]
      (DataStr (completion_xml part_info))
      [("Content-Type", "application/xml")] st in
  if status_code response =? 200 then (UploadSucceeded, st)
  else (CompleteFailed, st).

(** *** upload_file_multipart (lines 324-400) *)

(** The [while True] loop of lines 351-382; [pos] is the position of the
    open file. The result is [None] when the loop gives no result (the fuel
    runs out, or [f.read] raises), otherwise the part list ([None] after an
    abort) and the state. *)
Fixpoint upload_parts (fuel : nat) (file : list byte)
    (bucket key : string) (chunk_size : Z) (upload_id : string)
    (pos : nat) (part_number : Z) (part_info : list Part) (st : State)
    : option (option (list Part) * State) :=
  match fuel with
  | O => None
  | S fuel' =>
      match file_read chunk_size pos file with
      | None => None
      | Some data =>
          match data with
          | [] => Some (Some part_info, st)
          | _ :: _ =>
              let '(response, st) :=
                make_s3_request "PUT" bucket key
                  [("partNumber", str_of_Z part_number); ("uploadId", upload_id)]
                  (DataBytes data)
                  [("Content-Length", str_of_Z (Z.of_nat (length data)))] st in
              if negb (status_code response =? 200) then
                let '(_, st) :=
                  make_s3_request "DELETE" bucket key [("uploadId", upload_id)]
                    DataNone [] st in
                Some (None, st)
              else
                upload_parts fuel' file bucket key chunk_size upload_id
                  (pos + length data)%nat (part_number + 1)
                  (part_info ++ [Build_Part part_number (ETag response)]) st
          end
      end
  end.

Definition upload_file_multipart (fuel : nat) (file : list byte)
    (bucket key : string) (chunk_size : Z) (st : State)
    : option (UploadReport * State) :=
  let '(response, st) :=
    make_s3_request "POST" bucket key [("uploads", "")] DataNone [] st in
  if negb (status_code response =? 200) then Some (InitiateFailed, st)
  else
    let upload_id := UploadId response in
    match upload_parts fuel file bucket key chunk_size upload_id 0%nat 1 [] st with
    | None => None
    | Some (None, st) => Some (PartFailed, st)
    | Some (Some part_info, st) =>
        Some (complete_upload bucket key upload_id part_info st)
    end.

(** *** upload_file_parallel (lines 878-963) *)

(** The worker [upload_part] (lines 903-928). [None]: [f.seek] raises on
    a negative position, or [f.read] on a length below -1; the inner option
    is the worker's return value. *)
Definition upload_part (file : list byte) (bucket key : string)
    (chunk_size : Z) (upload_id : string) (part_number : Z) (st : State)
    : option (option Part * State) :=
  let start_pos := (part_number - 1) * chunk_size in
  if start_pos <? 0 then None
  else
    match file_read chunk_size (Z.to_nat start_pos) file with
    | None => None
    | Some data =>
        let '(response, st) :=
          make_s3_request "PUT" bucket key
            [("partNumber", str_of_Z part_number); ("uploadId", upload_id)]
            (DataBytes data)
            [("Content-Length", str_of_Z (Z.of_nat (length data)))] st in
        if negb (status_code response =? 200) then Some (None, st)
        else Some (Some (Build_Part part_number (ETag response)), st)
    end.

(** Leaving the [with ThreadPoolExecutor] block waits for the workers
    still pending; their results, exceptions included, are dropped. *)
Definition finish_parts (file : list byte) (bucket key : string)
    (chunk_size : Z) (upload_id : string) (pending : list Z) (st : State)
    : State :=
  foldl (fun st part_num =>
           match upload_part file bucket key chunk_size upload_id part_num st with
           | Some (_, st') => st'
           | None => st
           end) st pending.

(** The loop over [as_completed] (lines 934-942). [completed] lists the
    part numbers in the order their futures complete; the calls of the
    concurrent workers are recorded in that order. *)
Fixpoint collect_parts (file : list byte) (bucket key : string)
    (chunk_size : Z) (upload_id : string) (completed : list Z)
    (part_info : list Part) (st : State)
    : option (option (list Part) * State) :=
  match completed with
  | [] => Some (Some part_info, st)
  | part_num :: pending =>
      match upload_part file bucket key chunk_size upload_id part_num st with
      | None => None
      | Some (None, st) =>
          let '(_, st) :=
            make_s3_request "DELETE" bucket key [("uploadId", upload_id)]
              DataNone [] st in
          Some (None, finish_parts file bucket key chunk_size upload_id pending st)
      | Some (Some part_result, st) =>
          collect_parts file bucket key chunk_size upload_id pending
            (part_info ++ [part_result]) st
      end
  end.

(** [part_info.sort(key=lambda x: x['PartNumber'])] *)
Definition sort_parts (part_info : list Part) : list Part :=
  merge_sort part_le part_info.

(** [completion_order] is the order in which [as_completed] yields the
    futures of parts [range(1, chunk_count + 1)]. [None]: the function
    raises ([ZeroDivisionError] for a zero chunk size, a worker's error). *)
Definition upload_file_parallel (file : list byte) (bucket key : string)
    (chunk_size : Z) (completion_order : list Z) (st : State)
    : option (UploadReport * State) :=
  let '(response, st) :=
    make_s3_request "POST" bucket key [("uploads", "")] DataNone [] st in
  if negb (status_code response =? 200) then Some (InitiateFailed, st)
  else
    let upload_id := UploadId response in
    if chunk_size =? 0 then None
    else
      match collect_parts file bucket key chunk_size upload_id
              completion_order [] st with
      | None => None
      | Some (None, st) => Some (PartFailed, st)
      | Some (Some part_info, st) =>
          Some (complete_upload bucket key upload_id (sort_parts part_info) st)
      end.

(** *** download_file_chunked (lines 450-487) *)

(** [output_file.write(data)] on the file opened with [wb]. *)
Definition append_local_file (data : list byte) (st : State) : State :=
  set_local_file (Some (default [] (local_file st) ++ data)) st.

(** The [while start_byte < file_size] loop. [None]: out of fuel. The
    boolean is [true] for the success message, [false] for the error
    message and early return. *)
Fixpoint download_chunks (fuel : nat) (bucket key : string)
    (file_size chunk_size start_byte : Z) (st : State)
    : option (bool * State) :=
  if start_byte <? file_size then
    match fuel with
    | O => None
    | S fuel' =>
        let end_byte := Z.min (start_byte + chunk_size - 1) (file_size - 1) in
        let '(response, st) :=
          make_s3_request "GET" bucket key [] DataNone
            (range_header start_byte end_byte) st in
        if negb (range_status_ok (status_code response)) then Some (false, st)
        else
          download_chunks fuel' bucket key file_size chunk_size (end_byte + 1)
            (append_local_file (content response) st)
    end
  else Some (true, st).

Definition download_file_chunked (fuel : nat) (bucket key : string)
    (file_size chunk_size : Z) (st : State) : option (bool * State) :=
  download_chunks fuel bucket key file_size chunk_size 0
    (set_local_file (Some []) st).

(** *** download_file_parallel (lines 965-1017) *)

(** The worker [download_chunk] (lines 977-992). *)
Definition download_chunk (bucket key : string)
    (file_size chunk_size chunk_index : Z) (st : State)
    : option (Z * list byte) * State :=
  let '(start_byte, end_byte) := chunk_range file_size chunk_size chunk_index in
  let '(response, st) :=
    make_s3_request "GET" bucket key [] DataNone
      (range_header start_byte end_byte) st in
  if negb (range_status_ok (status_code response)) then (None, st)
  else (Some (start_byte, content response), st).

Definition finish_chunks (bucket key : string) (file_size chunk_size : Z)
    (pending : list Z) (st : State) : State :=
  foldl (fun st i => (download_chunk bucket key file_size chunk_size i st).2)
        st pending.

(** The loop over [as_completed] (lines 1001-1014). [None]: [f.seek]
    raises on a negative offset. *)
Fixpoint write_chunks (bucket key : string) (file_size chunk_size : Z)
    (completed : list Z) (st : State) : option (bool * State) :=
  match completed with
  | [] => Some (true, st)
  | chunk_index :: pending =>
      let '(result, st) :=
        download_chunk bucket key file_size chunk_size chunk_index st in
      match result with
      | None => Some (false, finish_chunks bucket key file_size chunk_size pending st)
      | Some (start_byte, data) =>
          if start_byte <? 0 then None
          else
            write_chunks bucket key file_size chunk_size pending
              (set_local_file
                 (Some (file_pwrite (Z.to_nat start_byte) data
                          (default [] (local_file st)))) st)
      end
  end.

(** [completion_order] is the order in which [as_completed] yields the
    futures of chunks [range(chunk_count)]. [None]: the function raises
    (negative size in [truncate], zero chunk size, negative seek). *)
Definition download_file_parallel (bucket key : string)
    (file_size chunk_size : Z) (completion_order : list Z) (st : State)
    : option (bool * State) :=
  if file_size <? 0 then None
  else
    let st := set_local_file (Some (repeat x00 (Z.to_nat file_size))) st in
    if chunk_size =? 0 then None
    else write_chunks bucket key file_size chunk_size completion_order st.
End Orchestrators.

Arguments State : clear implicits.

(** ** A scripted service, to run the orchestrators on concrete inputs

    The state of the service is the list of the status codes it will answer
    with, in order (200 once the list is used up). A part's [ETag] names the
    part; the body of an answer repeats the requested [Range]. *)
Definition lookup_item (k : string) (d : items) : string :=
  default "" (snd <$> List.find (fun kv => String.eqb kv.1 k) d).

Definition scripted (call : Call) (statuses : list Z) : Response * list Z :=
  ({| status_code := hd 200 statuses;
      content := encode_utf8 (lookup_item "Range" (headers call));
      UploadId := "upload-1";
      ETag := "etag-" +:+ lookup_item "partNumber" (params call) |},
   tl statuses).

Definition initial (statuses : list Z) : State (list Z) :=
  {| world := statuses; trace := []; local_file := None |}.

(** The calls of a trace that use a given method and a given query key. *)
Definition is_call (m k : string) (c : Call) : bool :=
  String.eqb (method c) m && existsb (fun kv => String.eqb kv.1 k) (params c).
Definition count_calls (m k : string) (tr : list (Call * Response)) : nat :=
  length (filter (fun cr => is_call m k cr.1) tr).

(** ** Vocabulary of the statements *)

(** The key and value a query token stands for (lines 46-50). *)
Definition param_pair (param : string) : string * string :=
  match split_once "=" param with
  | Some kv => kv
  | None => (param, "")
  end.

(** The value of the last item of [d] whose key is [k]. *)
Definition last_value (k : string) (d : items) : option string :=
  snd <$> List.find (fun kv => String.eqb kv.1 k) (rev d).

(** Strict byte-wise order on strings. *)
Definition str_lt (a b : string) : Prop := String.ltb a b = true.

Definition is_2xx (status : Z) : bool := (200 <=? status) && (status <? 300).


(** A range fetch whose answer is refused. *)
Definition fetch_refused (cr : Call * Response) : Prop :=
  range_status_ok (status_code cr.2) = false.

(** A part upload whose answer is not in the 2xx class. *)
Definition part_not_2xx (cr : Call * Response) : Prop :=
  is_call "PUT" "partNumber" cr.1 = true /\ is_2xx (status_code cr.2) = false.

(** The calls of the multipart protocol, as the orchestrators issue them. *)
Definition initiate_call (bucket key : string) : Call :=
  Build_Call "POST" bucket key [("uploads", "")] DataNone [].
Definition abort_call (bucket key upload_id : string) : Call :=
  Build_Call "DELETE" bucket key [("uploadId", upload_id)] DataNone [].
Definition complete_call (bucket key upload_id : string) (part_info : list Part) : Call :=
  Build_Call "POST" bucket key [("uploadId", upload_id)]
    (DataStr (completion_xml part_info)) [("Content-Type", "application/xml")].

(** A part upload answered with 200, and any part upload. *)
Definition put_ok (cr : Call * Response) : Prop :=
  method cr.1 = "PUT" /\ status_code cr.2 = 200.
Definition put_any (cr : Call * Response) : Prop := method cr.1 = "PUT".

(** A range fetch that is accepted. *)
Definition fetch_ok (cr : Call * Response) : Prop :=
  range_status_ok (status_code cr.2) = true.

(** The call that fetches chunk [i]. *)
Definition range_call (bucket key : string) (file_size chunk_size i : Z) : Call :=
  Build_Call "GET" bucket key [] DataNone
    (range_header (chunk_range file_size chunk_size i).1
                  (chunk_range file_size chunk_size i).2).

(** The courses a multipart upload can take, read off its new trace: the
    initiate call is refused; or parts are uploaded until one is refused,
    the session is aborted and the workers still running finish; or every
    part is accepted and the document listing [parts] is submitted. *)
Inductive upload_shape (bucket key : string)
    : UploadReport -> list (Call * Response) -> Prop :=
| shape_initiate_failed r0 :
    status_code r0 <> 200 ->
    upload_shape bucket key InitiateFailed [(initiate_call bucket key, r0)]
| shape_aborted r0 good bad del rest :
    status_code r0 = 200 ->
    Forall put_ok good ->
    is_call "PUT" "partNumber" bad.1 = true ->
    status_code bad.2 <> 200 ->
    Forall put_any rest ->
    upload_shape bucket key PartFailed
      ((initiate_call bucket key, r0) :: good
       ++ [bad; (abort_call bucket key (UploadId r0), del)] ++ rest)
| shape_completed r0 puts parts r2 :
    status_code r0 = 200 ->
    Forall put_ok puts ->
    length puts = length parts ->
    map PartNumber parts = range 1 (1 + Z.of_nat (length parts)) ->
    upload_shape bucket key
      (if status_code r2 =? 200 then UploadSucceeded else CompleteFailed)
      ((initiate_call bucket key, r0) :: puts
       ++ [(complete_call bucket key (UploadId r0) parts, r2)]).

(** One [<Part>] element of the completion document. *)
Definition part_xml (part : Part) : string :=
  "<Part><PartNumber>" +:+ str_of_Z (PartNumber part) +:+
  "</PartNumber><ETag>" +:+ PartETag part +:+ "</ETag></Part>".

(** Every call but the completion call is answered with 200. *)
Definition parts_succeed (new : list (Call * Response)) : Prop :=
  Forall (fun cr => is_call "POST" "uploadId" cr.1 = false -> status_code cr.2 = 200) new.

(** A ten-byte file, for the concrete runs. *)
Definition ten_bytes : list byte := encode_utf8 "0123456789".

(** The namespaces of [upload --force-multipart --force-single] and of
    [download --force-chunked --force-single], with the default chunk size
    of the parser. *)
Definition upload_both_flags : Args :=
  {| chunk_size := Some 5; force_multipart := Some true;
     force_single := Some true; force_chunked := None |}.
Definition download_both_flags : Args :=
  {| chunk_size := Some 5; force_multipart := None;
     force_single := Some true; force_chunked := Some true |}.

(** The dictionary obtained by assigning the items of a list in order, a
    later item replacing an earlier one with the same key. *)
Definition dict_of_items (l : items) : gmap string string :=
  foldl (fun d kv => <[kv.1 := kv.2]> d) ∅ l.

(** The headers with their names lowercased, in the order given. *)
Definition header_pairs (headers : items) : items :=
  map (fun kv => (lower kv.1, kv.2)) headers.

(** The key and value of every token of a query string, in order; the empty
    query string has none. *)
Definition query_pairs (query : string) : items :=
  if String.eqb query "" then [] else map param_pair (split "&" query).

(** The [get-vanilla] request of the AWS Signature Version 4 test suite. *)
Definition vanilla_headers : items :=
  [("Host", "example.amazonaws.com"); ("X-Amz-Date", "20150830T123600Z")].
Definition vanilla_secret : string := "wJalrXUtnFEMI/K7MDENG+bPxRfiCYEXAMPLEKEY".

(** ** Vocabulary of the further properties *)

(** The bytes of part [p]: what is read at offset [(p - 1) * chunk_size]
    (nothing when the read raises). *)
Definition part_bytes (file : list byte) (chunk_size p : Z) : list byte :=
  default [] (file_read chunk_size (Z.to_nat ((p - 1) * chunk_size)) file).

(** The call that uploads part [p] (lines 357-371 and 904-921). *)
Definition part_call (file : list byte) (bucket key : string) (chunk_size : Z)
    (upload_id : string) (p : Z) : Call :=
  Build_Call "PUT" bucket key
    [("partNumber", str_of_Z p); ("uploadId", upload_id)]
    (DataBytes (part_bytes file chunk_size p))
    [("Content-Length", str_of_Z (Z.of_nat (length (part_bytes file chunk_size p))))].

(** The part uploads of a trace, oldest first. *)
Definition part_uploads (tr : list (Call * Response)) : list (Call * Response) :=
  List.filter (fun cr => is_call "PUT" "partNumber" cr.1) tr.

(** The entry of [part_info] recorded for part [p] once its upload is
    answered (lines 380-381 and 927-928). *)
Definition recorded (p : Z) (cr : Call * Response) : Part :=
  Build_Part p (ETag cr.2).

(** The bytes [start_byte .. end_byte] (both included) of an object. *)
Definition object_range (object : list byte) (start_byte end_byte : Z) : list byte :=
  take (Z.to_nat (end_byte - start_byte + 1)) (drop (Z.to_nat start_byte) object).

(** The bodies of the accepted range fetches of a trace, in order. *)
Definition accepted_bodies (tr : list (Call * Response)) : list (list byte) :=
  map (fun cr => content cr.2)
      (List.filter (fun cr => range_status_ok (status_code cr.2)) tr).

(** A service that holds [object] under the given key: whatever its state,
    it accepts the range request of each chunk and answers with the bytes of
    that range. *)
Definition serves {World : Type} (service : Call -> World -> Response * World)
    (object : list byte) (bucket key : string) (chunk_size : Z) : Prop :=
  forall i w,
    0 <= i < chunk_count (Z.of_nat (length object)) chunk_size ->
    let call := range_call bucket key (Z.of_nat (length object)) chunk_size i in
    range_status_ok (status_code (service call w).1) = true
    /\ content (service call w).1
       = object_range object
           (chunk_range (Z.of_nat (length object)) chunk_size i).1
           (chunk_range (Z.of_nat (length object)) chunk_size i).2.

(** A service that answers a range request with the requested bytes of ten
    bytes it holds, and 206. *)
Definition range_server (call : Call) (w : unit) : Response * unit :=
  ({| status_code := 206;
      content :=
        match lookup_item "Range" (headers call) with
        | "bytes=0-3" => encode_utf8 "0123"
        | "bytes=4-7" => encode_utf8 "4567"
        | "bytes=8-9" => encode_utf8 "89"
        | _ => []
        end;
      UploadId := ""; ETag := "" |}, w).

(** ** make_s3_request: the request it prepares (s3cli.py, lines 126-184) *)

(** [s.endswith(suffix)] *)
Definition endswith (s suffix : string) : bool :=
  (String.length suffix <=? String.length s)%nat
  && String.eqb (substring (String.length s - String.length suffix)
                   (String.length suffix) s) suffix.

(** [d[k] = v] on a dictionary kept as its items in insertion order: the
    value of a key already there is replaced in place, a new key goes
    last. *)
Fixpoint dict_set (k v : string) (d : items) : items :=
  match d with
  | [] => [(k, v)]
  | kv :: d' => if String.eqb kv.1 k then (kv.1, v) :: d' else kv :: dict_set k v d'
  end.

(** [profile.get(k, fallback)] *)
Definition profile_get (profile : gmap string string) (k fallback : string) : string :=
  default fallback (profile !! k).

(** Line 141: each [/]-separated part of the key is percent-encoded. *)
Definition encoded_key (key : string) : string :=
  String.concat "/" (map quote (split "/" key)).

(** Line 148. *)
Definition query_string (params : items) : string :=
  String.concat "&" (map (fun kv => kv.1 +:+ "=" +:+ kv.2) params).

(** Lines 128 and 134-149. An absent bucket or key is the empty string,
    which [if bucket:] and [if key:] treat alike. *)
Definition request_url (profile : gmap string string) (bucket key : string)
    (params : items) : string :=
  let endpoint_url :=
    profile_get profile "endpoint_url"
      ("https://s3." +:+ profile_get profile "region" "us-east-1" +:+ ".amazonaws.com") in
  let url :=
    if negb (String.eqb bucket "") then
      let endpoint_url :=
        if endswith endpoint_url "/"
        then substring 0 (String.length endpoint_url - 1) endpoint_url
        else endpoint_url in
      let url := endpoint_url +:+ "/" +:+ bucket in
      if negb (String.eqb key "") then url +:+ "/" +:+ encoded_key key else url
    else endpoint_url in
  match params with
  | [] => url
  | _ :: _ => url +:+ "?" +:+ query_string params
  end.

Section Transport.
(** [urlparse] and the [netloc] of its result are library functions; the
    clock reading [amz_date] is an input. *)
Context (urlparse : string -> ParseResult) (netloc : string -> string).

(** Lines 128-184: the URL and the headers handed to [requests.request].
    [None] stands for a [KeyError], of the profile or of the signer. *)
Definition signed_request (profile : gmap string string) (amz_date : string)
    (call : Call) : option (string * items) :=
  let region := profile_get profile "region" "us-east-1" in
  let url := request_url profile (bucket call) (key call) (params call) in
  let headers := dict_set "x-amz-date" amz_date (headers call) in
  let headers := dict_set "host" (netloc url) headers in
  let headers := dict_set "x-amz-content-sha256" (payload_hash (data call)) headers in
  match profile !! "aws_access_key_id" with
  | None => None
  | Some access_key =>
      match profile !! "aws_secret_access_key" with
      | None => None
      | Some secret_key =>
          match sign_request_v4 urlparse (method call) url region "s3" headers
                  (data call) access_key secret_key with
          | None => None
          | Some auth_header =>
              Some (url, dict_set "Authorization" auth_header headers)
          end
      end
  end.
End Transport.

(** A string without the character [c]. *)
Definition free_of (c : ascii) (s : string) : Prop := c ∉ list_ascii_of_string s.

(** What a key's character becomes in the URL. *)
Definition key_char (c : ascii) : string :=
  if Ascii.eqb c "/" then "/" else quote_char c.

(** A profile with credentials, and a part upload as [upload_file_multipart]
    issues it. *)
Definition example_profile : gmap string string :=
  <["aws_access_key_id" := "AKIDEXAMPLE"]>
  (<["aws_secret_access_key" := vanilla_secret]>
  (<["endpoint_url" := "https://s3.example.com/"]> ∅)).

Definition example_call : Call :=
  {| method := "PUT"; bucket := "bucket"; key := "dir/a b.txt";
     params := [("partNumber", "1"); ("uploadId", "x")];
     data := DataBytes ten_bytes;
     headers := [("Content-Length", "10")] |}.

Definition netloc_http (url : string) : string :=
  let rest := match split_once ":" url with
              | Some (_, r) => substring 2 (String.length r) r
              | None => url
              end in
  let loc := match split_once "?" rest with
             | Some (l, _) => l
             | None => rest
             end in
  match split_once "/" loc with
  | Some (h, _) => h
  | None => loc
  end.

(** ** The commands (s3cli.py, lines 256-322, 520-559 and 1176-1257) *)

(** Lines 300-310: the content type guessed from the file name. *)
Definition content_type (file_path : string) : string :=
  let name := lower file_path in
  if endswith name ".jpg" || endswith name ".jpeg" then "image/jpeg"
  else if endswith name ".png" then "image/png"
  else if endswith name ".txt" then "text/plain"
  else if endswith name ".html" then "text/html"
  else if endswith name ".pdf" then "application/pdf"
  else "application/octet-stream".

(** What [upload_file] reports last. *)
Inductive UploadOutcome :=
| FileNotFound
| SingleUpload (ok : bool)
| MultipartUpload (report : UploadReport).

(** Lines 505-507 and 525-527. *)
Definition folder_key (folder : string) : string :=
  if negb (endswith folder "/") then folder +:+ "/" else folder.

(** A [Contents] element of a listing: key, size and modification time. *)
Abbreviation entry := (string * string * string)%type.

(** [args.max_results and len(matches) >= args.max_results]; the option is
    [None] when the argument is not given. *)
Definition reached (max_results : option Z) (matches : list entry) : bool :=
  match max_results with
  | Some m => negb (m =? 0) && (m <=? Z.of_nat (length matches))
  | None => false
  end.

Section Commands.
Context {World : Type} (service : Call -> World -> Response * World).

(** The listings are XML documents, read with the library's parser: the
    [Contents] elements of a document, whether [IsTruncated] is there and
    says true, the [NextContinuationToken] element when there is one (with
    an empty text for an empty element). The match function of a search is
    a regular expression search or a case-blind substring test. *)
Context (contents : list byte -> list entry)
        (is_truncated : list byte -> bool)
        (next_continuation_token : list byte -> option string)
        (match_func : string -> bool).

(** *** upload_file_single (lines 289-322) and upload_file (lines 256-287) *)

(** The local file is [None] when it does not exist. *)
Definition upload_file_single (file : option (list byte))
    (file_path bucket key : string) (st : State World)
    : UploadOutcome * State World :=
  match file with
  | None => (FileNotFound, st)
  | Some file_content =>
      let headers :=
        [("Content-Type", content_type file_path);
         ("Content-Length", str_of_Z (Z.of_nat (length file_content)))] in
      let '(response, st) :=
        make_s3_request service "PUT" bucket key [] (DataBytes file_content)
          headers st in
      (SingleUpload (status_code response =? 200), st)
  end.

Definition upload_file (fuel : nat) (args : Args) (file : option (list byte))
    (file_path bucket key : string) (st : State World)
    : option (UploadOutcome * State World) :=
  match file with
  | None => Some (FileNotFound, st)
  | Some file_content =>
      let file_size := Z.of_nat (length file_content) in
      let chunk_size := chunk_size_bytes args in
      if use_multipart args file_size then
        match upload_file_multipart service fuel file_content bucket key
                chunk_size st with
        | None => None
        | Some (report, st) => Some (MultipartUpload report, st)
        end
      else Some (upload_file_single file file_path bucket key st)
  end.

(** *** delete_folder (lines 520-559) *)

(** The state is returned as it is after the listing failed or came back
    empty; otherwise after the last deletion. *)
Definition delete_folder (folder bucket : string) (st : State World)
    : State World :=
  let folder_key := folder_key folder in
  let '(response, st) :=
    make_s3_request service "GET" bucket "" [("prefix", folder_key)]
      DataNone [] st in
  if negb (status_code response =? 200) then st
  else
    let keys := map (fun e : entry => e.1.1) (contents (content response)) in
    match keys with
    | [] => st
    | _ :: _ =>
        foldl (fun st key =>
                 (make_s3_request service "DELETE" bucket key [] DataNone [] st).2)
              st keys
    end.

(** *** search_files_paginated (lines 1176-1257) *)

(** The loop over the [Contents] elements of a page (lines 1218-1229). *)
Fixpoint scan_page (max_results : option Z) (page : list entry)
    (matches : list entry) (total_scanned : Z) : list entry * Z :=
  match page with
  | [] => (matches, total_scanned)
  | e :: rest =>
      let total_scanned := total_scanned + 1 in
      if match_func e.1.1 then
        let matches := matches ++ [e] in
        if reached max_results matches then (matches, total_scanned)
        else scan_page max_results rest matches total_scanned
      else scan_page max_results rest matches total_scanned
  end.

(** The [while True] loop (lines 1202-1249). [None]: out of fuel; the
    inner [None]: the error message and early return; otherwise the matches
    and the number of keys scanned. An empty token is not sent
    ([if continuation_token:]), the parameters then keep the previous one. *)
Fixpoint search_pages (fuel : nat) (bucket : string) (max_results : option Z)
    (params : items) (continuation_token : string)
    (matches : list entry) (total_scanned : Z) (st : State World)
    : option (option (list entry * Z) * State World) :=
  match fuel with
  | O => None
  | S fuel' =>
      let params :=
        if negb (String.eqb continuation_token "")
        then dict_set "continuation-token" continuation_token params
        else params in
      let '(response, st) :=
        make_s3_request service "GET" bucket "" params DataNone [] st in
      if negb (status_code response =? 200) then Some (None, st)
      else
        let '(matches, total_scanned) :=
          scan_page max_results (contents (content response)) matches
            total_scanned in
        if reached max_results matches then Some (Some (matches, total_scanned), st)
        else if negb (is_truncated (content response))
        then Some (Some (matches, total_scanned), st)
        else
          match next_continuation_token (content response) with
          | None => Some (Some (matches, total_scanned), st)
          | Some token =>
              search_pages fuel' bucket max_results params token matches
                total_scanned st
          end
  end.

(** An absent prefix is the empty string. *)
Definition search_files_paginated (fuel : nat) (bucket prefix : string)
    (page_size : Z) (max_results : option Z) (st : State World)
    : option (option (list entry * Z) * State World) :=
  let params := [("max-keys", str_of_Z page_size)] in
  let params :=
    if negb (String.eqb prefix "") then dict_set "prefix" prefix params
    else params in
  search_pages fuel bucket max_results params "" [] 0 st.
End Commands.

(** ** Vocabulary of the commands' properties *)

(** The bodies of the [PUT] calls of a trace, oldest first. *)
Definition put_bodies (tr : list (Call * Response)) : list (list byte) :=
  omap (fun cr : Call * Response =>
          if String.eqb (method cr.1) "PUT" then
            match data cr.1 with
            | DataBytes b => Some b
            | _ => None
            end
          else None) tr.

Definition single_put (file_path bucket key : string) (file : list byte) : Call :=
  Build_Call "PUT" bucket key [] (DataBytes file)
    [("Content-Type", content_type file_path);
     ("Content-Length", str_of_Z (Z.of_nat (length file)))].

Definition listing_call (bucket : string) (params : items) : Call :=
  Build_Call "GET" bucket "" params DataNone [].

Definition delete_call (bucket key : string) : Call :=
  Build_Call "DELETE" bucket key [] DataNone [].

(** The first [max_results] entries when a limit is set. *)
Definition limit (max_results : option Z) (l : list entry) : list entry :=
  match max_results with
  | Some m => if m =? 0 then l else take (Z.to_nat m) l
  | None => l
  end.

(** The [Contents] elements of the listing pages answered in a trace. *)
Definition listed (contents : list byte -> list entry)
    (tr : list (Call * Response)) : list entry :=
  concat (map (fun cr : Call * Response => contents (content cr.2)) tr).

(** A service with a listing of two pages, each a two-byte document: the
    first byte tells the page, the second whether more follow. The keys are
    [a.txt], [b.log] (first page) and [c.txt] (second page). *)
Definition two_pages (call : Call) (w : unit) : Response * unit :=
  ({| status_code := 200;
      content :=
        match lookup_item "continuation-token" (params call) with
        | "t1" => encode_utf8 "2."
        | _ => encode_utf8 "1+"
        end;
      UploadId := ""; ETag := "" |}, w).

Definition two_pages_contents (doc : list byte) : list entry :=
  match doc with
  | "1"%byte :: _ => [("a.txt", "1", "d1"); ("b.log", "2", "d2")]
  | "2"%byte :: _ => [("c.txt", "3", "d3")]
  | _ => []
  end.

Definition two_pages_truncated (doc : list byte) : bool :=
  match doc with
  | [_; "+"%byte] => true
  | _ => false
  end.

Definition two_pages_token (doc : list byte) : option string :=
  match doc with
  | "1"%byte :: _ => Some "t1"
  | _ => None
  end.

Definition is_txt (key : string) : bool := endswith key ".txt".

(** ** download_file (s3cli.py, lines 402-448) *)

(** What [download_file] reports last. *)
Inductive DownloadOutcome :=
| HeadFailed
| SingleDownload (ok : bool)
| ChunkedDownload (ok : bool).

Section Downloads.
Context {World : Type} (service : Call -> World -> Response * World).

(** [int(head_response.headers.get('Content-Length', 0))], for a response
    whose header, when present, is a number. *)
Context (content_length : Response -> Z).

(** download_file_single (lines 436-448): the body replaces the file. *)
Definition download_file_single (bucket key : string) (st : State World)
    : bool * State World :=
  let '(response, st) :=
    make_s3_request service "GET" bucket key [] DataNone [] st in
  if status_code response =? 200
  then (true, set_local_file (Some (content response)) st)
  else (false, st).

Definition download_file (fuel : nat) (args : Args) (bucket key : string)
    (st : State World) : option (DownloadOutcome * State World) :=
  let '(head_response, st) :=
    make_s3_request service "HEAD" bucket key [] DataNone [] st in
  if negb (status_code head_response =? 200) then Some (HeadFailed, st)
  else
    let file_size := content_length head_response in
    let chunk_size := chunk_size_bytes args in
    if use_chunked args file_size then
      match download_file_chunked service fuel bucket key file_size chunk_size st with
      | None => None
      | Some (ok, st) => Some (ChunkedDownload ok, st)
      end
    else
      let '(ok, st) := download_file_single bucket key st in
      Some (SingleDownload ok, st).

(** parallel_download (lines 1035-1053). [None]: the function raises (the
    namespace has no chunk size, or [download_file_parallel] raises); the
    inner [None]: the [HEAD] request is refused. *)
Definition parallel_download (args : Args) (bucket key : string)
    (completion_order : list Z) (st : State World)
    : option (option bool * State World) :=
  match chunk_size args with
  | None => None
  | Some megabytes =>
      let chunk_size := megabytes * 1024 * 1024 in
      let '(head_response, st) :=
        make_s3_request service "HEAD" bucket key [] DataNone [] st in
      if negb (status_code head_response =? 200) then Some (None, st)
      else
        let file_size := content_length head_response in
        match download_file_parallel service bucket key file_size chunk_size
                completion_order st with
        | None => None
        | Some (ok, st) => Some (Some ok, st)
        end
  end.
End Downloads.

Definition head_call (bucket key : string) : Call :=
  Build_Call "HEAD" bucket key [] DataNone [].

Definition get_call (bucket key : string) : Call :=
  Build_Call "GET" bucket key [] DataNone [].

(** A service holding [object] under the key: it answers the [HEAD] request
    with the object's length, the plain [GET] with the object and the range
    request of each chunk with the bytes of that range. *)
Definition holds {World : Type} (service : Call -> World -> Response * World)
    (content_length : Response -> Z)
    (object : list byte) (bucket key : string) (chunk_size : Z) : Prop :=
  (forall w, status_code (service (head_call bucket key) w).1 = 200
             /\ content_length (service (head_call bucket key) w).1
                = Z.of_nat (length object))
  /\ (forall w, status_code (service (get_call bucket key) w).1 = 200
                /\ content (service (get_call bucket key) w).1 = object)
  /\ serves service object bucket key chunk_size.

(** No call of the trace carries a [Range] header. *)
Definition range_free (tr : list (Call * Response)) : Prop :=
  Forall (fun cr => "Range" ∉ map fst (headers cr.1)) tr.

(** A service holding a zero-byte object. *)
Definition empty_object_server (call : Call) (w : unit) : Response * unit :=
  ({| status_code := 200; content := []; UploadId := ""; ETag := "" |}, w).

(** A service holding ten bytes. *)
Definition ten_bytes_server (call : Call) (w : unit) : Response * unit :=
  ({| status_code := 200;
      content := object_range ten_bytes
                   match lookup_item "Range" (headers call) with
                   | "bytes=0-3" => 0
                   | "bytes=4-7" => 4
                   | "bytes=8-9" => 8
                   | _ => 0
                   end
                   match lookup_item "Range" (headers call) with
                   | "bytes=0-3" => 3
                   | "bytes=4-7" => 7
                   | _ => 9
                   end;
      UploadId := ""; ETag := "" |}, w).

(** * Proofs *)

(** ** Transfer planner *)

Section PlannerFacts.
Variables file_size chunk_size : Z.
Hypothesis chunk_pos : 0 < chunk_size.

Lemma chunk_count_bounds :
  (chunk_count file_size chunk_size - 1) * chunk_size < file_size
  <= chunk_count file_size chunk_size * chunk_size.
Proof.
  unfold chunk_count.
  pose proof (Z.div_mod (file_size + chunk_size - 1) chunk_size) as E.
  pose proof (Z.mod_pos_bound (file_size + chunk_size - 1) chunk_size) as B.
  nia.
Qed.

Lemma chunk_count_unique n :
  (n - 1) * chunk_size < file_size <= n * chunk_size ->
  chunk_count file_size chunk_size = n.
Proof. pose proof chunk_count_bounds. nia. Qed.

Lemma chunk_count_nonneg : 0 <= file_size -> 0 <= chunk_count file_size chunk_size.
Proof. pose proof chunk_count_bounds. nia. Qed.

Lemma chunk_count_pos_iff : 1 <= chunk_count file_size chunk_size <-> 0 < file_size.
Proof. pose proof chunk_count_bounds. nia. Qed.

Lemma chunk_range_eq i :
  chunk_range file_size chunk_size i
  = (i * chunk_size, Z.min ((i + 1) * chunk_size - 1) (file_size - 1)).
Proof. unfold chunk_range. f_equal. f_equal. lia. Qed.


Lemma chunk_next i :
  0 <= i -> i + 1 < chunk_count file_size chunk_size ->
  (chunk_range file_size chunk_size (i + 1)).1
  = (chunk_range file_size chunk_size i).2 + 1.
Proof. pose proof chunk_count_bounds. rewrite !chunk_range_eq. simpl. nia. Qed.

Lemma chunk_last :
  0 < file_size ->
  (chunk_range file_size chunk_size (chunk_count file_size chunk_size - 1)).2
  = file_size - 1.
Proof. pose proof chunk_count_bounds. rewrite chunk_range_eq. simpl. nia. Qed.




End PlannerFacts.

(** ** Ranges *)

Lemma range_empty lo hi : hi <= lo -> range lo hi = [].
Proof. intros. unfold range. by replace (Z.to_nat (hi - lo)) with 0%nat by lia. Qed.

Lemma range_cons lo hi : lo < hi -> range lo hi = lo :: range (lo + 1) hi.
Proof.
  intros. unfold range.
  replace (Z.to_nat (hi - lo)) with (S (Z.to_nat (hi - (lo + 1)))) by lia.
  simpl. rewrite Z.add_0_r. f_equal.
  rewrite <- seq_shift, map_map. apply map_ext. intros; lia.
Qed.

Lemma elem_of_range lo hi i : i ∈ range lo hi <-> lo <= i < hi.
Proof.
  unfold range. rewrite list_elem_of_In, in_map_iff. split.
  - intros (n & <- & Hn%in_seq). lia.
  - intros Hi. exists (Z.to_nat (i - lo)). rewrite in_seq. lia.
Qed.

Lemma length_range lo hi : length (range lo hi) = Z.to_nat (hi - lo).
Proof. unfold range. by rewrite length_map, length_seq. Qed.

Lemma range_sorted_lt lo hi : StronglySorted Z.lt (range lo hi).
Proof.
  remember (Z.to_nat (hi - lo)) as n eqn:Hn.
  revert lo Hn. induction n as [|n IH]; intros lo Hn.
  - rewrite range_empty by lia. constructor.
  - rewrite range_cons by lia. constructor; [apply IH; lia|].
    apply Forall_forall. intros i Hi%elem_of_range. lia.
Qed.

Lemma range_NoDup lo hi : NoDup (range lo hi).
Proof.
  pose proof (range_sorted_lt lo hi) as Hs.
  induction Hs as [|x l Hs IH Hx]; constructor; [|done].
  intros Hin. rewrite Forall_forall in Hx. specialize (Hx _ Hin). lia.
Qed.

(** ** Traces *)

Lemma count_calls_app m k (tr1 tr2 : list (Call * Response)) :
  count_calls m k (tr1 ++ tr2) = (count_calls m k tr1 + count_calls m k tr2)%nat.
Proof. unfold count_calls. by rewrite filter_app, length_app. Qed.

Lemma is_call_method m k c : is_call m k c = true -> method c = m.
Proof.
  unfold is_call. intros [H _]%andb_prop. by apply String.eqb_eq in H.
Qed.

Lemma count_calls_other m k (tr : list (Call * Response)) :
  Forall (fun cr => method cr.1 <> m) tr -> count_calls m k tr = 0%nat.
Proof.
  unfold count_calls. induction 1 as [|cr tr Hm _ IH]; [done|].
  rewrite filter_cons. destruct (decide _) as [Hc|]; [|done].
  apply Is_true_true, is_call_method in Hc. done.
Qed.

Section OrchestratorFacts.
Context {World : Type} (service : Call -> World -> Response * World).
Implicit Types st : State World.

Lemma make_s3_request_eq m b k p d h st :
  make_s3_request service m b k p d h st
  = ((service (Build_Call m b k p d h) (world st)).1,
     {| world := (service (Build_Call m b k p d h) (world st)).2;
        trace := trace st ++ [(Build_Call m b k p d h,
                               (service (Build_Call m b k p d h) (world st)).1)];
        local_file := local_file st |}).
Proof. unfold make_s3_request. by destruct (service _ _). Qed.
End OrchestratorFacts.

Section UploadFacts.
Context {World : Type} (service : Call -> World -> Response * World).
Implicit Types st : State World.
Variables (file : list byte) (bucket key : string) (chunk_size : Z)
          (upload_id : string).

Lemma file_read_Some (n : Z) pos :
  -1 <= n ->
  file_read n pos file
  = Some (if n <? 0 then drop pos file else take (Z.to_nat n) (drop pos file)).
Proof.
  intros Hn. unfold file_read.
  assert ((n <? -1) = false) as -> by (apply Z.ltb_ge; lia).
  by destruct (n <? 0).
Qed.

Lemma file_read_length_le (n : Z) pos data :
  file_read n pos file = Some data -> data <> [] -> (pos < length file)%nat.
Proof.
  unfold file_read. destruct (n <? -1); [done|]. intros Hread Hne.
  destruct (decide (pos < length file)%nat) as [|Hge]; [done|].
  exfalso. apply Hne.
  rewrite (drop_ge file pos) in Hread by lia. destruct (n <? 0).
  - by injection Hread as <-.
  - rewrite take_nil in Hread. by injection Hread as <-.
Qed.

(** The sequential loop returns for any fuel above the unread length; it
    answers with the parts in reading order, or stops at the first part
    that is not answered with 200, right after aborting. *)
Lemma upload_parts_spec fuel : forall pos part_number part_info st,
  -1 <= chunk_size ->
  (length file - pos < fuel)%nat ->
  exists res st' new,
    upload_parts service fuel file bucket key chunk_size upload_id
      pos part_number part_info st = Some (res, st')
    /\ trace st' = trace st ++ new
    /\ local_file st' = local_file st
    /\ match res with
       | Some parts =>
           Forall put_ok new
           /\ exists added,
               parts = part_info ++ added
               /\ length new = length added
               /\ map PartNumber added
                  = range part_number (part_number + Z.of_nat (length added))
       | None =>
           exists good bad del,
             new = good ++ [bad; (abort_call bucket key upload_id, del)]
             /\ Forall put_ok good
             /\ is_call "PUT" "partNumber" bad.1 = true
             /\ status_code bad.2 <> 200
       end.
Proof.
  induction fuel as [|fuel IH]; intros pos part_number part_info st HC Hfuel; [lia|].
  simpl. destruct (file_read chunk_size pos file) as [[|b data]|] eqn:Hread.
  3:{ by rewrite file_read_Some in Hread. }
  - exists (Some part_info), st, []. rewrite app_nil_r. repeat split; [constructor|].
    exists []. rewrite app_nil_r. split; [done|]. split; [done|]. simpl.
    by rewrite range_empty by lia.
  - pose proof (file_read_length_le _ _ _ Hread ltac:(done)) as Hpos.
    rewrite make_s3_request_eq. cbv zeta.
    set (call := Build_Call "PUT" _ _ _ _ _).
    set (r := (service call (world st)).1).
    destruct (status_code r =? 200) eqn:Hstatus; simpl.
    + apply Z.eqb_eq in Hstatus.
      edestruct (IH (pos + S (length data))%nat (part_number + 1)
                   (part_info ++ [Build_Part part_number (ETag r)]))
        as (res & st' & new & -> & Htrace & Hfile & Hres).
      { done. }
      { simpl. lia. }
      exists res, st', ((call, r) :: new). split; [done|].
      simpl in Htrace. rewrite Htrace, <- app_assoc. split; [done|].
      split; [done|]. destruct res as [parts|].
      * destruct Hres as (Hok & added & -> & Hlen & Hnum). split.
        { constructor; [done|exact Hok]. }
        exists (Build_Part part_number (ETag r) :: added).
        rewrite <- app_assoc. split; [done|].
        split; [simpl; by rewrite Hlen|].
        rewrite (range_cons part_number) by (simpl length; lia).
        simpl. rewrite Hnum. do 2 f_equal. lia.
      * destruct Hres as (good & bad & del & -> & Hgood & Hbad).
        exists ((call, r) :: good), bad, del. split; [done|].
        split; [by constructor|done].
    + apply Z.eqb_neq in Hstatus.
      rewrite make_s3_request_eq. cbv zeta. simpl.
      eexists None, _, _. split; [done|]. simpl. rewrite <- app_assoc.
      split; [done|]. split; [done|].
      eexists [], (call, r), _. simpl. split; [done|]. split; [constructor|].
      split; [done|done].
Qed.
End UploadFacts.

(** ** Sorting the collected parts *)

#[local] Instance part_le_total : Total part_le.
Proof. intros a b. unfold part_le. lia. Qed.

Lemma range_sorted_le lo hi : Sorted Z.le (range lo hi).
Proof.
  apply StronglySorted_Sorted.
  induction (range_sorted_lt lo hi) as [|x l _ IH Hx]; constructor; [done|].
  eapply Forall_impl; [exact Hx|]. intros; lia.
Qed.

Lemma sort_parts_numbers parts lo hi :
  map PartNumber parts ≡ₚ range lo hi ->
  map PartNumber (sort_parts parts) = range lo hi.
Proof.
  intros Hperm. apply (Sorted_unique Z.le).
  - apply (Sorted_fmap PartNumber part_le); [done|].
    apply Sorted_merge_sort. apply _.
  - apply range_sorted_le.
  - rewrite <- Hperm. apply fmap_Permutation, merge_sort_Permutation.
Qed.

Lemma length_sort_parts parts : length (sort_parts parts) = length parts.
Proof. unfold sort_parts. by rewrite merge_sort_Permutation. Qed.

Section ParallelUploadFacts.
Context {World : Type} (service : Call -> World -> Response * World).
Implicit Types st : State World.
Variables (file : list byte) (bucket key : string) (chunk_size : Z)
          (upload_id : string).

(** A worker makes one PUT call, unless it raises before. *)
Lemma upload_part_cases part_number st :
  upload_part service file bucket key chunk_size upload_id part_number st = None
  \/ exists call st',
      is_call "PUT" "partNumber" call = true
      /\ trace st' = trace st ++ [(call, (service call (world st)).1)]
      /\ local_file st' = local_file st
      /\ upload_part service file bucket key chunk_size upload_id part_number st
         = Some (if status_code (service call (world st)).1 =? 200
                 then Some (Build_Part part_number (ETag (service call (world st)).1))
                 else None, st').
Proof.
  unfold upload_part. destruct (_ <? 0); [by left|].
  destruct (file_read _ _ _) as [data|]; [right|by left].
  rewrite make_s3_request_eq. cbv zeta.
  set (call := Build_Call _ _ _ _ _ _).
  exists call, {| world := (service call (world st)).2;
                  trace := trace st ++ [(call, (service call (world st)).1)];
                  local_file := local_file st |}.
  repeat split. simpl. by destruct (status_code _ =? 200).
Qed.

Lemma upload_part_returns part_number st :
  0 < chunk_size -> 1 <= part_number ->
  upload_part service file bucket key chunk_size upload_id part_number st <> None.
Proof.
  intros HC Hp. unfold upload_part.
  destruct (_ <? 0) eqn:E; [apply Z.ltb_lt in E; nia|].
  rewrite file_read_Some by lia.
  rewrite make_s3_request_eq. cbv zeta. by destruct (negb _).
Qed.

Lemma finish_parts_spec pending : forall st,
  exists rest,
    trace (finish_parts service file bucket key chunk_size upload_id pending st)
    = trace st ++ rest
    /\ Forall put_any rest
    /\ local_file (finish_parts service file bucket key chunk_size upload_id pending st)
       = local_file st.
Proof.
  induction pending as [|p pending IH]; intros st; simpl.
  { exists []. by rewrite app_nil_r. }
  destruct (upload_part_cases p st) as [->|(call & st' & Hcall & Htr & Hfile & ->)].
  { apply IH. }
  destruct (IH st') as (rest & Hrest & Hput & Hfile').
  exists ((call, (service call (world st)).1) :: rest).
  rewrite Hrest, Htr, <- app_assoc. split; [done|]. split; [|congruence].
  constructor; [|done]. by apply is_call_method in Hcall.
Qed.

(** The collecting loop: the parts come back in completion order, or the
    first refused part is followed by one abort call and by the uploads
    of the parts still pending. *)
Lemma collect_parts_spec completed : forall part_info st,
  0 < chunk_size -> Forall (Z.le 1) completed ->
  exists res st' new,
    collect_parts service file bucket key chunk_size upload_id
      completed part_info st = Some (res, st')
    /\ trace st' = trace st ++ new
    /\ local_file st' = local_file st
    /\ match res with
       | Some parts =>
           Forall put_ok new
           /\ exists added,
               parts = part_info ++ added
               /\ length new = length added
               /\ map PartNumber added = completed
       | None =>
           exists good bad del rest,
             new = good ++ [bad; (abort_call bucket key upload_id, del)] ++ rest
             /\ Forall put_ok good
             /\ is_call "PUT" "partNumber" bad.1 = true
             /\ status_code bad.2 <> 200
             /\ Forall put_any rest
       end.
Proof.
  induction completed as [|p completed IH]; intros part_info st HC Hall; simpl.
  { exists (Some part_info), st, []. rewrite app_nil_r.
    repeat split; [constructor|]. exists []. by rewrite app_nil_r. }
  apply Forall_cons in Hall as [Hp Hall].
  destruct (upload_part_cases p st) as [E|(call & st1 & Hcall & Htr & Hfile & ->)].
  { by apply upload_part_returns in E. }
  set (r := (service call (world st)).1) in *.
  destruct (status_code r =? 200) eqn:Hstatus.
  - apply Z.eqb_eq in Hstatus.
    destruct (IH (part_info ++ [Build_Part p (ETag r)]) st1 HC Hall)
      as (res & st' & new & -> & Htr' & Hfile' & Hres).
    exists res, st', ((call, r) :: new). split; [done|].
    rewrite Htr', Htr, <- app_assoc. split; [done|]. split; [congruence|].
    destruct res as [parts|].
    + destruct Hres as (Hok & added & -> & Hlen & Hnum). split.
      { constructor; [|done]. split; [|done]. by apply is_call_method in Hcall. }
      exists (Build_Part p (ETag r) :: added). rewrite <- app_assoc.
      split; [done|]. simpl. by rewrite Hlen, Hnum.
    + destruct Hres as (good & bad & del & rest & -> & Hgood & Hbad).
      exists ((call, r) :: good), bad, del, rest. split; [done|].
      split; [|done]. constructor; [|done]. split; [|done].
      by apply is_call_method in Hcall.
  - apply Z.eqb_neq in Hstatus. rewrite make_s3_request_eq. cbv zeta.
    match goal with |- context [finish_parts _ _ _ _ _ _ _ ?s] =>
      set (st2 := s);
      destruct (finish_parts_spec completed st2) as (rest & Hrest & Hput & Hfile')
    end.
    exists None, (finish_parts service file bucket key chunk_size upload_id
                    completed st2),
           ([(call, r); (abort_call bucket key upload_id,
                         (service (abort_call bucket key upload_id) (world st1)).1)]
            ++ rest).
    split; [done|]. rewrite Hrest, Hfile'. subst st2. cbn [trace local_file].
    rewrite Htr, <- !app_assoc. split; [done|]. split; [done|].
    eexists [], (call, r), _, rest. split; [done|].
    split; [constructor|done].
Qed.
End ParallelUploadFacts.

(** ** The courses of an upload *)

Section UploadShape.
Context {World : Type} (service : Call -> World -> Response * World).
Implicit Types st : State World.
Variables (file : list byte) (bucket key : string) (chunk_size : Z).

Lemma complete_upload_eq upload_id parts st :
  complete_upload service bucket key upload_id parts st
  = (if status_code (service (complete_call bucket key upload_id parts) (world st)).1 =? 200
     then UploadSucceeded else CompleteFailed,
     {| world := (service (complete_call bucket key upload_id parts) (world st)).2;
        trace := trace st ++ [(complete_call bucket key upload_id parts,
                  (service (complete_call bucket key upload_id parts) (world st)).1)];
        local_file := local_file st |}).
Proof.
  unfold complete_upload. rewrite make_s3_request_eq. cbv zeta.
  fold (complete_call bucket key upload_id parts).
  by destruct (status_code _ =? 200).
Qed.

(** The sequential upload returns, for any chunk size that is a valid
    read length, and takes one of the three courses. *)
Lemma upload_file_multipart_shape fuel st :
  -1 <= chunk_size ->
  (length file < fuel)%nat ->
  exists r st' new,
    upload_file_multipart service fuel file bucket key chunk_size st = Some (r, st')
    /\ trace st' = trace st ++ new
    /\ local_file st' = local_file st
    /\ upload_shape bucket key r new.
Proof.
  intros HC Hfuel. unfold upload_file_multipart.
  rewrite make_s3_request_eq. cbv zeta. fold (initiate_call bucket key).
  set (r0 := (service (initiate_call bucket key) (world st)).1).
  set (st0 := Build_State _ _ _).
  destruct (status_code r0 =? 200) eqn:Hinit; simpl.
  2:{ apply Z.eqb_neq in Hinit. eexists _, _, _. split; [done|].
      split; [done|]. split; [done|]. by constructor. }
  apply Z.eqb_eq in Hinit.
  destruct (upload_parts_spec service file bucket key chunk_size (UploadId r0)
              fuel 0%nat 1 [] st0 HC ltac:(lia))
    as (res & st1 & new & -> & Htr & Hfile & Hres).
  destruct res as [parts|].
  - destruct Hres as (Hok & added & -> & Hlen & Hnum).
    rewrite complete_upload_eq. eexists _, _, _. split; [done|].
    cbn [trace local_file]. rewrite Htr. subst st0. cbn [trace].
    rewrite <- !app_assoc. split; [done|]. split; [done|].
    apply (shape_completed bucket key r0 new ([] ++ added)); [done|done|exact Hlen|exact Hnum].
  - destruct Hres as (good & bad & del & -> & Hgood & Hbad & Hstatus).
    eexists _, _, _. split; [done|]. rewrite Htr. subst st0. cbn [trace].
    rewrite <- !app_assoc. split; [done|]. split; [done|].
    apply (shape_aborted bucket key r0 good bad del []); by try constructor.
Qed.

(** So does the parallel upload, for a positive chunk size and a completion
    order that enumerates the parts. *)
Lemma upload_file_parallel_shape order st :
  0 < chunk_size ->
  order ≡ₚ range 1 (chunk_count (Z.of_nat (length file)) chunk_size + 1) ->
  exists r st' new,
    upload_file_parallel service file bucket key chunk_size order st = Some (r, st')
    /\ trace st' = trace st ++ new
    /\ local_file st' = local_file st
    /\ upload_shape bucket key r new.
Proof.
  intros HC Horder. unfold upload_file_parallel.
  rewrite make_s3_request_eq. cbv zeta. fold (initiate_call bucket key).
  set (r0 := (service (initiate_call bucket key) (world st)).1).
  set (st0 := Build_State _ _ _).
  destruct (status_code r0 =? 200) eqn:Hinit; simpl.
  2:{ apply Z.eqb_neq in Hinit. eexists _, _, _. split; [done|].
      split; [done|]. split; [done|]. by constructor. }
  apply Z.eqb_eq in Hinit.
  destruct (chunk_size =? 0) eqn:E; [apply Z.eqb_eq in E; lia|].
  assert (Forall (Z.le 1) order) as Hall.
  { apply Forall_forall. intros p Hp. rewrite Horder in Hp.
    apply elem_of_range in Hp. lia. }
  destruct (collect_parts_spec service file bucket key chunk_size (UploadId r0)
              order [] st0 HC Hall)
    as (res & st1 & new & -> & Htr & Hfile & Hres).
  destruct res as [parts|].
  - destruct Hres as (Hok & added & -> & Hlen & Hnum).
    rewrite complete_upload_eq. eexists _, _, _. split; [done|].
    cbn [trace local_file]. rewrite Htr. subst st0. cbn [trace].
    rewrite <- !app_assoc. split; [done|]. split; [done|].
    apply (shape_completed bucket key r0 new); [done|done|..].
    + by rewrite length_sort_parts.
    + rewrite length_sort_parts. simpl.
      assert (length added = length order) as -> by (by rewrite <- Hnum, length_map).
      rewrite Horder, length_range.
      pose proof (chunk_count_nonneg (Z.of_nat (length file)) chunk_size HC ltac:(lia)).
      replace (1 + Z.of_nat (Z.to_nat (chunk_count (Z.of_nat (length file)) chunk_size + 1 - 1)))
        with (chunk_count (Z.of_nat (length file)) chunk_size + 1) by lia.
      apply sort_parts_numbers. simpl. by rewrite Hnum.
  - destruct Hres as (good & bad & del & rest & -> & Hgood & Hbad & Hstatus & Hrest).
    eexists _, _, _. split; [done|]. rewrite Htr. subst st0. cbn [trace].
    rewrite <- !app_assoc. split; [done|]. split; [done|].
    by apply (shape_aborted bucket key r0 good bad del rest).
Qed.
End UploadShape.

(** What each course implies for the calls made. *)

Lemma count_calls_cons m k c r (tr : list (Call * Response)) :
  count_calls m k ((c, r) :: tr)
  = ((if is_call m k c then 1 else 0) + count_calls m k tr)%nat.
Proof.
  unfold count_calls. rewrite filter_cons. simpl.
  destruct (is_call m k c); by destruct (decide _).
Qed.

Lemma put_ok_not_method m (tr : list (Call * Response)) :
  m <> "PUT" -> Forall put_ok tr -> Forall (fun cr => method cr.1 <> m) tr.
Proof.
  intros Hm H. eapply Forall_impl; [exact H|]. intros cr [E _]. congruence.
Qed.

Lemma put_any_not_method m (tr : list (Call * Response)) :
  m <> "PUT" -> Forall put_any tr -> Forall (fun cr => method cr.1 <> m) tr.
Proof.
  intros Hm H. eapply Forall_impl; [exact H|]. unfold put_any. intros cr E. congruence.
Qed.

Lemma put_ok_all_2xx (tr : list (Call * Response)) :
  Forall put_ok tr -> ~ Exists part_not_2xx tr.
Proof.
  intros Hok Hex. apply Exists_exists in Hex as (cr & Hin & _ & H2).
  rewrite Forall_forall in Hok. destruct (Hok _ Hin) as [_ E].
  by rewrite E in H2.
Qed.

Lemma upload_shape_aborts bucket key r new :
  upload_shape bucket key r new ->
  Exists part_not_2xx new ->
  count_calls "DELETE" "uploadId" new = 1%nat
  /\ count_calls "POST" "uploadId" new = 0%nat
  /\ r = PartFailed.
Proof.
  intros [r0 Hr0|r0 good bad del rest Hr0 Hgood Hbad Hstatus Hrest
         |r0 puts parts r2 Hr0 Hputs Hlen Hnum] Hex.
  - apply Exists_cons in Hex as [[Hc _]|Hex]; [done|by apply Exists_nil in Hex].
  - destruct bad as [cb rb]. simpl in Hbad.
    pose proof (is_call_method _ _ _ Hbad) as Hmb.
    rewrite !count_calls_cons, !count_calls_app, !count_calls_cons.
    rewrite (count_calls_other "DELETE" _ good), (count_calls_other "POST" _ good)
      by (by apply put_ok_not_method).
    rewrite (count_calls_other "DELETE" _ rest), (count_calls_other "POST" _ rest)
      by (by apply put_any_not_method).
    assert (is_call "DELETE" "uploadId" cb = false) as ->
      by (unfold is_call; by rewrite Hmb).
    assert (is_call "POST" "uploadId" cb = false) as ->
      by (unfold is_call; by rewrite Hmb).
    done.
  - exfalso. apply Exists_cons in Hex as [[Hc _]|Hex]; [done|].
    apply Exists_app in Hex as [Hex|Hex]; [by apply put_ok_all_2xx in Hex|].
    apply Exists_cons in Hex as [[Hc _]|Hex]; [done|by apply Exists_nil in Hex].
Qed.

(** ** The completion document *)

Lemma append_assoc (a b c : string) : (a +:+ b) +:+ c = a +:+ (b +:+ c).
Proof.
  induction a as [|x a IH]; [done|].
  change (String x ((a +:+ b) +:+ c) = String x (a +:+ (b +:+ c))). by f_equal.
Qed.

Lemma append_empty_r (a : string) : a +:+ "" = a.
Proof.
  induction a as [|x a IH]; [done|].
  change (String x (a +:+ "") = String x a). by f_equal.
Qed.

Lemma concat_empty_cons (x : string) (xs : list string) :
  String.concat "" (x :: xs) = x +:+ String.concat "" xs.
Proof. destruct xs; simpl; [by rewrite append_empty_r|done]. Qed.

Lemma completion_xml_eq parts :
  completion_xml parts
  = "<CompleteMultipartUpload>" +:+ String.concat "" (map part_xml parts)
    +:+ "</CompleteMultipartUpload>".
Proof.
  unfold completion_xml. rewrite <- append_assoc. f_equal.
  generalize "<CompleteMultipartUpload>" as acc.
  induction parts as [|p parts IH]; intros acc.
  { simpl. by rewrite append_empty_r. }
  cbn [foldl map]. rewrite IH, concat_empty_cons.
  by rewrite <- (append_assoc acc (part_xml p)).
Qed.

Lemma upload_shape_document bucket key r new :
  upload_shape bucket key r new ->
  (forall cr, cr ∈ new -> is_call "POST" "uploadId" cr.1 = true ->
     exists parts,
       data cr.1 = DataStr (completion_xml parts)
       /\ map PartNumber parts = range 1 (1 + Z.of_nat (length parts)))
  /\ (parts_succeed new -> count_calls "POST" "uploadId" new = 1%nat).
Proof.
  intros [r0 Hr0|r0 good bad del rest Hr0 Hgood Hbad Hstatus Hrest
         |r0 puts parts r2 Hr0 Hputs Hlen Hnum].
  - split.
    + intros cr ->%list_elem_of_singleton Hc. done.
    + intros Hall. apply Forall_cons in Hall as [H _]. by specialize (H eq_refl).
  - destruct bad as [cb rb]. simpl in *.
    pose proof (is_call_method _ _ _ Hbad) as Hmb.
    assert (forall cr, cr ∈ good -> is_call "POST" "uploadId" cr.1 = false) as Hg.
    { intros cr Hin. rewrite Forall_forall in Hgood. destruct (Hgood _ Hin) as [E _].
      unfold is_call. by rewrite E. }
    assert (forall cr, cr ∈ rest -> is_call "POST" "uploadId" cr.1 = false) as Hrs.
    { intros cr Hin. rewrite Forall_forall in Hrest. specialize (Hrest _ Hin).
      unfold is_call. by rewrite Hrest. }
    split.
    + intros cr Hin Hc. exfalso.
      apply elem_of_cons in Hin as [->|Hin]; [done|].
      apply elem_of_app in Hin as [Hin|Hin]; [by rewrite (Hg _ Hin) in Hc|].
      apply elem_of_cons in Hin as [->|Hin].
      { unfold is_call in Hc. simpl in Hc. by rewrite Hmb in Hc. }
      apply elem_of_cons in Hin as [->|Hin]; [done|].
      by rewrite (Hrs _ Hin) in Hc.
    + intros Hall. exfalso. apply Forall_cons in Hall as [_ Hall].
      apply Forall_app in Hall as [_ Hall]. apply Forall_cons in Hall as [H _].
      apply Hstatus, H. unfold is_call. simpl. by rewrite Hmb.
  - assert (forall cr, cr ∈ puts -> is_call "POST" "uploadId" cr.1 = false) as Hp.
    { intros cr Hin. rewrite Forall_forall in Hputs. destruct (Hputs _ Hin) as [E _].
      unfold is_call. by rewrite E. }
    split.
    + intros cr Hin Hc.
      apply elem_of_cons in Hin as [->|Hin]; [done|].
      apply elem_of_app in Hin as [Hin|Hin]; [by rewrite (Hp _ Hin) in Hc|].
      apply list_elem_of_singleton in Hin as ->. by exists parts.
    + intros _. rewrite count_calls_cons, count_calls_app, count_calls_cons.
      rewrite (count_calls_other "POST" _ puts) by (by apply put_ok_not_method).
      done.
Qed.

(** ** Multipart upload: the claims *)

(** C4. In a multipart upload, sequential or parallel, in which some part
    upload is answered with a status outside the 2xx class, exactly one
    abort call (DELETE with the [uploadId] parameter) is made, no completion
    call (POST with the [uploadId] parameter) is made, and the upload is
    reported as failed. *)
Theorem part_failure_aborts_once {World : Type}
    (service : Call -> World -> Response * World)
    (file : list byte) (bucket key : string) (chunk_size : Z)
    (fuel : nat) (order : list Z) (st : State World) :
  (length file < fuel)%nat ->
  0 < chunk_size ->
  order ≡ₚ range 1 (chunk_count (Z.of_nat (length file)) chunk_size + 1) ->
  forall run,
    run = upload_file_multipart service fuel file bucket key chunk_size st
    \/ run = upload_file_parallel service file bucket key chunk_size order st ->
    exists r st' new,
      run = Some (r, st')
      /\ trace st' = trace st ++ new
      /\ (Exists part_not_2xx new ->
          count_calls "DELETE" "uploadId" new = 1%nat
          /\ count_calls "POST" "uploadId" new = 0%nat
          /\ r = PartFailed).
Proof.
  intros Hfuel HC Horder run Hrun.
  assert (exists r st' new, run = Some (r, st') /\ trace st' = trace st ++ new
            /\ local_file st' = local_file st /\ upload_shape bucket key r new)
    as (r & st' & new & -> & Htr & _ & Hshape).
  { destruct Hrun as [-> | ->].
    - apply upload_file_multipart_shape; [lia|done].
    - by apply upload_file_parallel_shape. }
  exists r, st', new. split; [done|]. split; [done|].
  exact (upload_shape_aborts _ _ _ _ Hshape).
Qed.


(** Concrete runs: ten bytes in chunks of four, parts completing in the
    order 3, 1, 2. *)

Lemma order_312 :
  [3; 1; 2] ≡ₚ range 1 (chunk_count (Z.of_nat (length ten_bytes)) 4 + 1).
Proof.
  change (range 1 _) with [1; 2; 3].
  apply (Permutation_cons_app [1; 2] [] 3). reflexivity.
Defined.

Example parallel_out_of_order_run :
  (fun run => match run with
              | Some (r, st') => Some (r, data <$> (fst <$> last (trace st')))
              | None => None
              end)
    (upload_file_parallel scripted ten_bytes "b" "k" 4 [3; 1; 2] (initial []))
  = Some (UploadSucceeded,
          Some (DataStr ("<CompleteMultipartUpload>" +:+
            "<Part><PartNumber>1</PartNumber><ETag>etag-1</ETag></Part>" +:+
            "<Part><PartNumber>2</PartNumber><ETag>etag-2</ETag></Part>" +:+
            "<Part><PartNumber>3</PartNumber><ETag>etag-3</ETag></Part>" +:+
            "</CompleteMultipartUpload>"))).
Proof. vm_compute. reflexivity. Qed.

Lemma part_failure_aborts_once_witness :
  (length ten_bytes < 20)%nat /\ 0 < 4
  /\ [3; 1; 2] ≡ₚ range 1 (chunk_count (Z.of_nat (length ten_bytes)) 4 + 1)
  /\ exists r st' new,
      upload_file_parallel scripted ten_bytes "b" "k" 4 [3; 1; 2]
        (initial [200; 200; 404])
      = Some (r, st')
      /\ trace st' = trace (initial [200; 200; 404]) ++ new
      /\ (Exists part_not_2xx new ->
          count_calls "DELETE" "uploadId" new = 1%nat
          /\ count_calls "POST" "uploadId" new = 0%nat
          /\ r = PartFailed).
Proof.
  assert (length ten_bytes < 20)%nat as H1 by (simpl; lia).
  assert (0 < 4) as H2 by lia.
  split; [exact H1|]. split; [exact H2|]. split; [exact order_312|].
  exact (part_failure_aborts_once scripted ten_bytes "b" "k" 4 20 [3; 1; 2]
           (initial [200; 200; 404]) H1 H2 order_312 _ (or_intror eq_refl)).
Defined.

(** The failing run itself: part 1, second to complete, is answered with
    404; one abort follows, part 2 is still uploaded, nothing is completed. *)
Example parallel_failure_run :
  (fun run => match run with
              | Some (r, st') =>
                  Some (r, map (fun cr => (method cr.1, status_code cr.2)) (trace st'),
                        bool_decide (Exists part_not_2xx (trace st')))
              | None => None
              end)
    (upload_file_parallel scripted ten_bytes "b" "k" 4 [3; 1; 2]
       (initial [200; 200; 404]))
  = Some (PartFailed,
          [("POST", 200); ("PUT", 200); ("PUT", 404); ("DELETE", 200); ("PUT", 200)],
          true).
Proof. vm_compute. reflexivity. Qed.

Example sequential_failure_run :
  (fun run => match run with
              | Some (r, st') =>
                  Some (r, map (fun cr => (method cr.1, status_code cr.2)) (trace st'))
              | None => None
              end)
    (upload_file_multipart scripted 20 ten_bytes "b" "k" 4 (initial [200; 200; 500]))
  = Some (PartFailed, [("POST", 200); ("PUT", 200); ("PUT", 500); ("DELETE", 200)]).
Proof. vm_compute. reflexivity. Qed.


(** Below -1 the chunk size is no read length: the first read raises right
    after the initiate call, and the upload ends there, neither completed
    nor aborted. *)
Lemma read_length_below_minus_one_raises {World : Type}
    (service : Call -> World -> Response * World)
    (file : list byte) (bucket key : string) (chunk_size : Z) (fuel : nat)
    (st : State World) :
  chunk_size < -1 ->
  status_code (service (initiate_call bucket key) (world st)).1 = 200 ->
  upload_file_multipart service fuel file bucket key chunk_size st = None.
Proof.
  intros HC Hinit. unfold upload_file_multipart.
  rewrite make_s3_request_eq. cbv zeta. fold (initiate_call bucket key).
  rewrite Hinit. cbn [Z.eqb Pos.eqb negb].
  destruct fuel as [|fuel]; [done|]. cbn [upload_parts]. unfold file_read.
  by assert ((chunk_size <? -1) = true) as -> by (apply Z.ltb_lt; lia).
Qed.

(** ** Ranged download *)

Lemma fetch_ok_or_refused cr : fetch_ok cr \/ fetch_refused cr.
Proof. unfold fetch_ok, fetch_refused. destruct (range_status_ok _); auto. Qed.

Lemma fetch_refused_not_ok cr : fetch_refused cr -> ~ fetch_ok cr.
Proof. unfold fetch_ok, fetch_refused. congruence. Qed.

Lemma range_status_ok_iff status :
  range_status_ok status = true <-> status = 200 \/ status = 206.
Proof. unfold range_status_ok. rewrite orb_true_iff, !Z.eqb_eq. done. Qed.

Section DownloadFacts.
Context {World : Type} (service : Call -> World -> Response * World).
Implicit Types st : State World.
Variables (bucket key : string) (file_size chunk_size : Z).
Hypothesis chunk_pos : 0 < chunk_size.

(** The sequential loop, entered at the start of chunk [k]: it returns
    within [chunk_count - k] iterations, fetches the chunks from [k] on in
    order, and succeeds exactly when every fetch is accepted. *)
Lemma download_chunks_spec fuel : forall k st,
  0 <= k <= chunk_count file_size chunk_size ->
  (Z.to_nat (chunk_count file_size chunk_size - k) <= fuel)%nat ->
  exists ok st' new m,
    download_chunks service fuel bucket key file_size chunk_size
      (Z.min (k * chunk_size) file_size) st = Some (ok, st')
    /\ trace st' = trace st ++ new
    /\ k <= m <= chunk_count file_size chunk_size
    /\ map fst new = map (range_call bucket key file_size chunk_size) (range k m)
    /\ (ok = true <-> Forall fetch_ok new)
    /\ (ok = true -> m = chunk_count file_size chunk_size)
    /\ (is_Some (local_file st) -> is_Some (local_file st')).
Proof.
  pose proof (chunk_count_bounds file_size chunk_size chunk_pos) as Hn.
  induction fuel as [|fuel IH]; intros k st Hk Hfuel.
  - assert (k = chunk_count file_size chunk_size) as -> by lia.
    assert (Z.min (chunk_count file_size chunk_size * chunk_size) file_size = file_size)
      as -> by lia.
    simpl. rewrite Z.ltb_irrefl.
    exists true, st, [], (chunk_count file_size chunk_size).
    rewrite app_nil_r, range_empty by lia. repeat split; auto; lia.
  - destruct (decide (k = chunk_count file_size chunk_size)) as [->|Hlt].
    + assert (Z.min (chunk_count file_size chunk_size * chunk_size) file_size = file_size)
        as -> by lia.
      simpl. rewrite Z.ltb_irrefl.
      exists true, st, [], (chunk_count file_size chunk_size).
      rewrite app_nil_r, range_empty by lia. repeat split; auto; lia.
    + assert (Z.min (k * chunk_size) file_size = k * chunk_size) as -> by nia.
      simpl. assert ((k * chunk_size <? file_size) = true) as -> by (apply Z.ltb_lt; nia).
      rewrite make_s3_request_eq. cbv zeta.
      fold (chunk_range file_size chunk_size k).2.
      change (Build_Call "GET" bucket key [] DataNone _)
        with (range_call bucket key file_size chunk_size k).
      set (call := range_call bucket key file_size chunk_size k).
      set (r := (service call (world st)).1).
      destruct (range_status_ok (status_code r)) eqn:Hok; simpl.
      * set (st1 := append_local_file _ _).
        assert (Z.min (k * chunk_size + chunk_size - 1) (file_size - 1) + 1
                = Z.min ((k + 1) * chunk_size) file_size) as -> by lia.
        destruct (IH (k + 1) st1 ltac:(lia) ltac:(lia))
          as (ok & st' & new & m & -> & Htr & Hm & Hcalls & Hiff & Hall & Hfile).
        exists ok, st', ((call, r) :: new), m. split; [done|].
        rewrite Htr. subst st1. cbn [trace append_local_file set_local_file].
        rewrite <- app_assoc. split; [done|]. split; [lia|].
        split; [rewrite (range_cons k) by lia; simpl; by rewrite Hcalls|].
        split; [|split; [done|]].
        { rewrite Hiff. split; [by constructor|]. by intros [_ ?]%Forall_cons. }
        intros _. apply Hfile. by eexists.
      * eexists false, _, [(call, r)], (k + 1). split; [done|]. split; [done|].
        split; [lia|]. rewrite (range_cons k), range_empty by lia.
        split; [done|]. split; [|split; [done|done]].
        split; [done|]. intros [H _]%Forall_cons. unfold fetch_ok in H. simpl in H.
        congruence.
Qed.

Lemma download_file_chunked_spec fuel st :
  0 <= file_size ->
  (Z.to_nat (chunk_count file_size chunk_size) <= fuel)%nat ->
  exists ok st' new m,
    download_file_chunked service fuel bucket key file_size chunk_size st = Some (ok, st')
    /\ trace st' = trace st ++ new
    /\ 0 <= m <= chunk_count file_size chunk_size
    /\ map fst new = map (range_call bucket key file_size chunk_size) (range 0 m)
    /\ (ok = true <-> Forall fetch_ok new)
    /\ (ok = true -> m = chunk_count file_size chunk_size)
    /\ is_Some (local_file st').
Proof.
  intros HS Hfuel. unfold download_file_chunked.
  pose proof (chunk_count_nonneg file_size chunk_size chunk_pos HS) as Hn.
  destruct (download_chunks_spec fuel 0 (set_local_file (Some []) st)
              ltac:(lia) ltac:(by rewrite Z.sub_0_r))
    as (ok & st' & new & m & Hrun & Htr & Hm & Hcalls & Hiff & Hall & Hfile).
  assert (Z.min (0 * chunk_size) file_size = 0) as E by lia. rewrite E in Hrun.
  exists ok, st', new, m. repeat split; try done; try lia; try apply Hiff.
  apply Hfile. by eexists.
Qed.

(** The parallel workers: every chunk of the completion order is fetched,
    and the download succeeds exactly when every fetch is accepted. *)
Lemma download_chunk_eq i st :
  download_chunk service bucket key file_size chunk_size i st
  = (if range_status_ok
          (status_code (service (range_call bucket key file_size chunk_size i) (world st)).1)
     then Some (i * chunk_size,
                content (service (range_call bucket key file_size chunk_size i) (world st)).1)
     else None,
     {| world := (service (range_call bucket key file_size chunk_size i) (world st)).2;
        trace := trace st ++ [(range_call bucket key file_size chunk_size i,
                  (service (range_call bucket key file_size chunk_size i) (world st)).1)];
        local_file := local_file st |}).
Proof.
  unfold download_chunk, chunk_range. rewrite make_s3_request_eq. cbv zeta.
  fold (chunk_range file_size chunk_size i).2.
  change (Build_Call "GET" bucket key [] DataNone _)
    with (range_call bucket key file_size chunk_size i).
  by destruct (range_status_ok _).
Qed.

Lemma finish_chunks_spec pending : forall st,
  exists rest,
    trace (finish_chunks service bucket key file_size chunk_size pending st)
    = trace st ++ rest
    /\ map fst rest = map (range_call bucket key file_size chunk_size) pending
    /\ local_file (finish_chunks service bucket key file_size chunk_size pending st)
       = local_file st.
Proof.
  induction pending as [|i pending IH]; intros st; simpl.
  { exists []. by rewrite app_nil_r. }
  rewrite download_chunk_eq. cbn [snd].
  match goal with |- context [finish_chunks _ _ _ _ _ _ ?s] =>
    destruct (IH s) as (rest & Htr & Hcalls & Hfile) end.
  eexists (_ :: rest). rewrite Htr, Hfile. cbn [trace local_file].
  rewrite <- app_assoc. split; [done|]. split; [|done]. simpl. by rewrite Hcalls.
Qed.

Lemma write_chunks_spec completed : forall st,
  Forall (Z.le 0) completed ->
  exists ok st' new,
    write_chunks service bucket key file_size chunk_size completed st = Some (ok, st')
    /\ trace st' = trace st ++ new
    /\ map fst new = map (range_call bucket key file_size chunk_size) completed
    /\ (ok = true <-> Forall fetch_ok new)
    /\ (is_Some (local_file st) -> is_Some (local_file st')).
Proof.
  induction completed as [|i completed IH]; intros st Hall; simpl.
  { exists true, st, []. rewrite app_nil_r. repeat split; auto. }
  apply Forall_cons in Hall as [Hi Hall].
  rewrite download_chunk_eq.
  set (call := range_call bucket key file_size chunk_size i).
  set (r := (service call (world st)).1).
  destruct (range_status_ok (status_code r)) eqn:Hok.
  - assert ((i * chunk_size <? 0) = false) as -> by (apply Z.ltb_ge; nia).
    match goal with |- context [write_chunks _ _ _ _ _ _ ?s] =>
      destruct (IH s Hall) as (ok & st' & new & -> & Htr & Hcalls & Hiff & Hfile) end.
    exists ok, st', ((call, r) :: new). split; [done|]. rewrite Htr.
    cbn [trace set_local_file]. rewrite <- app_assoc. split; [done|].
    split; [simpl; by rewrite Hcalls|]. split.
    + rewrite Hiff. split; [by constructor|]. by intros [_ ?]%Forall_cons.
    + intros _. apply Hfile. by eexists.
  - match goal with |- context [finish_chunks _ _ _ _ _ _ ?s] =>
      destruct (finish_chunks_spec completed s) as (rest & Htr & Hcalls & Hfile) end.
    eexists false, _, ((call, r) :: rest). split; [done|]. rewrite Htr, Hfile.
    cbn [trace local_file]. rewrite <- app_assoc. split; [done|].
    split; [simpl; by rewrite Hcalls|]. split; [|done].
    split; [done|]. intros [H _]%Forall_cons. unfold fetch_ok in H. simpl in H.
    congruence.
Qed.

Lemma download_file_parallel_spec order st :
  0 <= file_size ->
  order ≡ₚ range 0 (chunk_count file_size chunk_size) ->
  exists ok st' new,
    download_file_parallel service bucket key file_size chunk_size order st
    = Some (ok, st')
    /\ trace st' = trace st ++ new
    /\ map fst new = map (range_call bucket key file_size chunk_size) order
    /\ (ok = true <-> Forall fetch_ok new)
    /\ is_Some (local_file st').
Proof.
  intros HS Horder. unfold download_file_parallel.
  assert ((file_size <? 0) = false) as -> by (apply Z.ltb_ge; lia).
  assert ((chunk_size =? 0) = false) as -> by (apply Z.eqb_neq; lia).
  assert (Forall (Z.le 0) order) as Hall.
  { apply Forall_forall. intros i Hi. rewrite Horder in Hi.
    apply elem_of_range in Hi. lia. }
  match goal with |- context [write_chunks _ _ _ _ _ _ ?s] =>
    destruct (write_chunks_spec order s Hall)
      as (ok & st' & new & -> & Htr & Hcalls & Hiff & Hfile) end.
  exists ok, st', new. repeat split; try done; try apply Hiff.
  apply Hfile. by eexists.
Qed.
End DownloadFacts.

(** ** Chunks and downloads: the claims *)


(** C9. In a chunked or parallel download, a range fetch is accepted only
    with status 200 or 206; the download reports success exactly when every
    fetch is accepted, so a single refused fetch makes it report failure;
    and the destination file is on disk when the function returns, whatever
    the outcome. *)
Theorem refused_fetch_fails_download {World : Type}
    (service : Call -> World -> Response * World)
    (bucket key : string) (file_size chunk_size : Z)
    (fuel : nat) (order : list Z) (st : State World) :
  0 <= file_size ->
  0 < chunk_size ->
  (Z.to_nat (chunk_count file_size chunk_size) <= fuel)%nat ->
  order ≡ₚ range 0 (chunk_count file_size chunk_size) ->
  forall run,
    run = download_file_chunked service fuel bucket key file_size chunk_size st
    \/ run = download_file_parallel service bucket key file_size chunk_size order st ->
    exists ok st' new,
      run = Some (ok, st')
      /\ trace st' = trace st ++ new
      /\ (forall cr, fetch_ok cr <-> status_code cr.2 = 200 \/ status_code cr.2 = 206)
      /\ (ok = true <-> Forall fetch_ok new)
      /\ (Exists fetch_refused new -> ok = false)
      /\ is_Some (local_file st').
Proof.
  intros HS HC Hfuel Horder run Hrun.
  assert (exists ok st' new, run = Some (ok, st') /\ trace st' = trace st ++ new
            /\ (ok = true <-> Forall fetch_ok new) /\ is_Some (local_file st'))
    as (ok & st' & new & -> & Htr & Hiff & Hfile).
  { destruct Hrun as [-> | ->].
    - destruct (download_file_chunked_spec service bucket key file_size chunk_size
                  HC fuel st HS Hfuel)
        as (ok & st' & new & m & Hrun & Htr & _ & _ & Hiff & _ & Hfile).
      by exists ok, st', new.
    - destruct (download_file_parallel_spec service bucket key file_size chunk_size
                  HC order st HS Horder)
        as (ok & st' & new & Hrun & Htr & _ & Hiff & Hfile).
      by exists ok, st', new. }
  exists ok, st', new. split; [done|]. split; [done|].
  split; [intros cr; apply range_status_ok_iff|]. split; [done|]. split; [|done].
  intros Hex. destruct ok; [|done]. exfalso.
  apply Exists_exists in Hex as (cr & Hin & Hbad).
  destruct Hiff as [Hall _]. specialize (Hall eq_refl).
  rewrite Forall_forall in Hall. by apply (fetch_refused_not_ok cr Hbad), Hall.
Qed.

(** C8, as the code has it. For a size S >= 0 and a chunk size C > 0 the
    chunk count is the ceiling of S / C, which is at least 1 exactly when
    S > 0: a zero-byte object has no chunk at all. Downloading a zero-byte
    object creates an empty destination file and sends no [Range] header:
    the two chunked download functions make no call, and the commands
    [download] and [parallel-download], against a service that holds the
    object, send the [HEAD] request and, in single mode, one plain [GET]. *)
Theorem zero_byte_object_has_no_chunk (C : Z) :
  0 < C ->
  (forall S, 0 <= S ->
     (chunk_count S C - 1) * C < S <= chunk_count S C * C
     /\ (1 <= chunk_count S C <-> 0 < S))
  /\ chunk_count 0 C = 0
  /\ (forall (World : Type) (service : Call -> World -> Response * World)
        (bucket key : string) (fuel : nat) (order : list Z) (st : State World),
        order ≡ₚ range 0 (chunk_count 0 C) ->
        download_file_parallel service bucket key 0 C order st
        = Some (true, set_local_file (Some []) st)
        /\ download_file_chunked service fuel bucket key 0 C st
           = Some (true, set_local_file (Some []) st))
  /\ (forall (World : Type) (service : Call -> World -> Response * World)
        (content_length : Response -> Z) (args : Args) (megabytes : Z)
        (bucket key : string) (fuel : nat) (order : list Z) (st : State World),
        chunk_size args = Some megabytes ->
        megabytes * 1024 * 1024 = C ->
        holds service content_length [] bucket key C ->
        order ≡ₚ range 0 (chunk_count 0 C) ->
        exists mode st1 st2 head get,
          download_file service content_length fuel args bucket key st
          = Some (mode, st1)
          /\ mode = (if use_chunked args 0 then ChunkedDownload true
                     else SingleDownload true)
          /\ trace st1
             = trace st ++ (head_call bucket key, head)
                           :: (if use_chunked args 0 then []
                               else [(get_call bucket key, get)])
          /\ local_file st1 = Some []
          /\ parallel_download service content_length args bucket key order st
             = Some (Some true, st2)
          /\ trace st2 = trace st ++ [(head_call bucket key, head)]
          /\ local_file st2 = Some []
          /\ range_free [(head_call bucket key, head); (get_call bucket key, get)]).
Proof.
  intros HC.
  assert (chunk_count 0 C = 0) as E0 by (apply chunk_count_unique; lia).
  assert (forall (World : Type) (service : Call -> World -> Response * World)
            (bucket key : string) (fuel : nat) (st : State World),
            download_file_parallel service bucket key 0 C [] st
            = Some (true, set_local_file (Some []) st)
            /\ download_file_chunked service fuel bucket key 0 C st
               = Some (true, set_local_file (Some []) st)) as Hnone.
  { intros World service bucket key fuel st. split.
    - unfold download_file_parallel. simpl.
      by assert ((C =? 0) = false) as -> by (apply Z.eqb_neq; lia).
    - unfold download_file_chunked. by destruct fuel. }
  split.
  { intros S HS. split; [by apply chunk_count_bounds|by apply chunk_count_pos_iff]. }
  split; [done|]. split.
  { intros World service bucket key fuel order st Horder.
    rewrite E0, range_empty in Horder by lia. apply Permutation_nil_r in Horder as ->.
    apply Hnone. }
  intros World service content_length args megabytes bucket key fuel order st
    Hargs Hmb (Hhead & Hget & _) Horder.
  rewrite E0, range_empty in Horder by lia. apply Permutation_nil_r in Horder as ->.
  assert (chunk_size_bytes args = C) as Hbytes by (unfold chunk_size_bytes; by rewrite Hargs).
  set (head := (service (head_call bucket key) (world st)).1).
  set (st0 := {| world := (service (head_call bucket key) (world st)).2;
                 trace := trace st ++ [(head_call bucket key, head)];
                 local_file := local_file st |}).
  destruct (Hhead (world st)) as [Hstatus Hlength]. fold head in Hstatus, Hlength.
  change (Z.of_nat (length (@nil byte))) with 0 in Hlength.
  destruct (Hget (world st0)) as [Hgstatus Hgcontent].
  set (get := (service (get_call bucket key) (world st0)).1) in *.
  exists (if use_chunked args 0 then ChunkedDownload true else SingleDownload true),
    (if use_chunked args 0 then set_local_file (Some []) st0
     else set_local_file (Some [])
            {| world := (service (get_call bucket key) (world st0)).2;
               trace := trace st0 ++ [(get_call bucket key, get)];
               local_file := local_file st0 |}),
    (set_local_file (Some []) st0), head, get.
  split; [|split; [done|split; [|split; [|split; [|split; [done|split; [done|]]]]]]].
  - unfold download_file. rewrite make_s3_request_eq. cbv zeta.
    fold (head_call bucket key). fold head. fold st0.
    rewrite Hstatus, Hlength, Hbytes. cbn [Z.eqb Pos.eqb negb].
    destruct (use_chunked args 0).
    + by rewrite (proj2 (Hnone World service bucket key fuel st0)).
    + unfold download_file_single. rewrite make_s3_request_eq. cbv zeta.
      fold (get_call bucket key). fold get.
      by rewrite Hgstatus, Hgcontent.
  - destruct (use_chunked args 0); cbn [set_local_file trace]; unfold st0;
      cbn [trace]; by rewrite <- ?app_assoc.
  - by destruct (use_chunked args 0).
  - unfold parallel_download. rewrite Hargs, Hmb. rewrite make_s3_request_eq.
    cbv zeta. fold (head_call bucket key). fold head. fold st0.
    rewrite Hstatus, Hlength. cbn [Z.eqb Pos.eqb negb].
    by rewrite (proj1 (Hnone World service bucket key fuel st0)).
  - unfold range_free. repeat constructor; simpl; apply not_elem_of_nil.
Qed.

(** C8, as the claim states it, fails: the chunk count of a zero-byte object
    with the default chunk size is 0, not at least 1. *)
Lemma chunk_count_at_least_one_fails :
  0 <= 0 /\ 0 < 5 * 1024 * 1024
  /\ chunk_count 0 (5 * 1024 * 1024) = 0
  /\ ~ 1 <= chunk_count 0 (5 * 1024 * 1024).
Proof. vm_compute. repeat split; try discriminate. intros H. by apply H. Qed.

(** Concrete runs: ten bytes in chunks of four are the ranges 0-3, 4-7 and
    8-9. *)


Example ten_bytes_chunks :
  chunk_count 10 4 = 3
  /\ map (chunk_range 10 4) (range 0 (chunk_count 10 4)) = [(0, 3); (4, 7); (8, 9)]
  /\ chunk_count (12 * 1024 * 1024) (5 * 1024 * 1024) = 3.
Proof. by vm_compute. Qed.

Example sequential_download_run :
  (fun run => match run with
              | Some (ok, st') =>
                  Some (ok, map (fun cr => (headers cr.1, status_code cr.2)) (trace st'),
                        length <$> local_file st')
              | None => None
              end)
    (download_file_chunked scripted 3 "b" "k" 10 4 (initial [200; 206]))
  = Some (true,
          [([("Range", "bytes=0-3")], 200); ([("Range", "bytes=4-7")], 206);
           ([("Range", "bytes=8-9")], 200)],
          Some 27%nat).
Proof. by vm_compute. Qed.

Lemma order_201 : [2; 0; 1] ≡ₚ range 0 (chunk_count 10 4).
Proof.
  change (range 0 _) with [0; 1; 2].
  apply (Permutation_cons_app [0; 1] [] 2). reflexivity.
Defined.

Lemma refused_fetch_fails_download_witness :
  0 <= 10 /\ 0 < 4 /\ (Z.to_nat (chunk_count 10 4) <= 3)%nat
  /\ [2; 0; 1] ≡ₚ range 0 (chunk_count 10 4)
  /\ exists ok st' new,
      download_file_parallel scripted "b" "k" 10 4 [2; 0; 1] (initial [200; 403])
      = Some (ok, st')
      /\ trace st' = trace (initial [200; 403]) ++ new
      /\ (forall cr, fetch_ok cr <-> status_code cr.2 = 200 \/ status_code cr.2 = 206)
      /\ (ok = true <-> Forall fetch_ok new)
      /\ (Exists fetch_refused new -> ok = false)
      /\ is_Some (local_file st').
Proof.
  assert (0 <= 10) as H1 by lia. assert (0 < 4) as H2 by lia.
  assert (Z.to_nat (chunk_count 10 4) <= 3)%nat as H3 by (vm_compute; lia).
  split; [exact H1|]. split; [exact H2|]. split; [exact H3|].
  split; [exact order_201|].
  exact (refused_fetch_fails_download scripted "b" "k" 10 4 3 [2; 0; 1]
           (initial [200; 403]) H1 H2 H3 order_201 _ (or_intror eq_refl)).
Defined.

(** The failing runs themselves: the refused fetch ends the sequential
    download after the first chunk is written; the parallel download keeps
    the preallocated file with the chunk written before the refusal. *)
Example refused_fetch_runs :
  (fun run => match run with
              | Some (ok, st') =>
                  Some (ok, map (fun cr => status_code cr.2) (trace st'),
                        length <$> local_file st')
              | None => None
              end)
  <$> [download_file_chunked scripted 3 "b" "k" 10 4 (initial [200; 403]);
       download_file_parallel scripted "b" "k" 10 4 [2; 0; 1] (initial [200; 403])]
  = [Some (false, [200; 403], Some 9%nat);
     Some (false, [200; 403; 200], Some 17%nat)].
Proof. by vm_compute. Qed.

Lemma empty_object_server_holds :
  holds empty_object_server (fun _ => 0) [] "b" "k" (5 * 1024 * 1024).
Proof.
  split; [done|]. split; [done|]. intros i w Hi.
  change (chunk_count (Z.of_nat (length (@nil byte))) (5 * 1024 * 1024)) with 0 in Hi.
  lia.
Defined.

Lemma zero_byte_object_has_no_chunk_witness :
  0 < 5 * 1024 * 1024
  /\ chunk_count 0 (5 * 1024 * 1024) = 0
  /\ download_file_parallel scripted "b" "k" 0 (5 * 1024 * 1024) [] (initial [])
     = Some (true, set_local_file (Some []) (initial []))
  /\ exists st1 st2,
      download_file empty_object_server (fun _ => 0) 0 download_both_flags "b" "k"
        {| world := tt; trace := []; local_file := None |}
      = Some (SingleDownload true, st1)
      /\ map (fun cr => (method cr.1, headers cr.1)) (trace st1)
         = [("HEAD", []); ("GET", [])]
      /\ local_file st1 = Some []
      /\ parallel_download empty_object_server (fun _ => 0) download_both_flags
           "b" "k" [] {| world := tt; trace := []; local_file := None |}
         = Some (Some true, st2)
      /\ map (fun cr => (method cr.1, headers cr.1)) (trace st2) = [("HEAD", [])]
      /\ local_file st2 = Some [].
Proof.
  assert (0 < 5 * 1024 * 1024) as H by lia.
  split; [exact H|].
  destruct (zero_byte_object_has_no_chunk (5 * 1024 * 1024) H)
    as (_ & E & Hrun & Hprogram).
  assert ([] ≡ₚ range 0 (chunk_count 0 (5 * 1024 * 1024))) as Horder
    by (rewrite E; reflexivity).
  split; [exact E|]. split.
  { exact (proj1 (Hrun (list Z) scripted "b" "k" 0%nat [] (initial []) Horder)). }
  destruct (Hprogram unit empty_object_server (fun _ => 0) download_both_flags 5
              "b" "k" 0%nat [] {| world := tt; trace := []; local_file := None |}
              eq_refl eq_refl empty_object_server_holds Horder)
    as (mode & st1 & st2 & head & get & Hd & -> & Ht1 & Hf1 & Hp & Ht2 & Hf2 & _).
  exists st1, st2. split; [exact Hd|]. split; [by rewrite Ht1|].
  split; [exact Hf1|]. split; [exact Hp|]. split; [by rewrite Ht2|exact Hf2].
Defined.

(** ** Transfer mode: the claim *)

(** C7, as the code has it. The mode is a function of the size, the chunk
    size (5 MiB unless given) and the flags: [force_single] selects the
    single-shot transfer whatever the size and the other flag; otherwise
    [force_multipart] (upload) or [force_chunked] (download) selects the
    chunked transfer whatever the size; with no flag set the transfer is
    chunked exactly when the size exceeds the chunk size. *)
Theorem transfer_mode_decision (args : Args) (file_size : Z) :
  use_multipart args file_size
  = (if flag (force_single args) then false
     else if flag (force_multipart args) then true
     else chunk_size_bytes args <? file_size)
  /\ use_chunked args file_size
     = (if flag (force_single args) then false
        else if flag (force_chunked args) then true
        else chunk_size_bytes args <? file_size)
  /\ chunk_size_bytes args
     = match chunk_size args with
       | Some megabytes => megabytes * 1024 * 1024
       | None => 5 * 1024 * 1024
       end.
Proof.
  unfold use_multipart, use_chunked.
  destruct (flag (force_single args)), (flag (force_multipart args)),
    (flag (force_chunked args)); done.
Qed.

(** C7, as the claim states it, fails: with [force_multipart] (or
    [force_chunked]) and [force_single] both set, a 10 MiB transfer with
    5 MiB chunks is single-shot, although the force flag for the chunked
    mode is set and the size exceeds the chunk size. *)
Lemma force_chunked_overridden_by_force_single :
  flag (force_multipart upload_both_flags) = true
  /\ flag (force_chunked download_both_flags) = true
  /\ chunk_size_bytes upload_both_flags < 10 * 1024 * 1024
  /\ chunk_size_bytes download_both_flags < 10 * 1024 * 1024
  /\ use_multipart upload_both_flags (10 * 1024 * 1024) = false
  /\ use_chunked download_both_flags (10 * 1024 * 1024) = false.
Proof. by vm_compute. Qed.

(** ** Dictionaries built by assignment *)

Lemma last_value_snoc k (l : items) kv :
  last_value k (l ++ [kv])
  = if String.eqb kv.1 k then Some kv.2 else last_value k l.
Proof.
  unfold last_value. rewrite rev_app_distr. simpl. by destruct (String.eqb kv.1 k).
Qed.

Lemma lookup_dict_of_items (l : items) k :
  dict_of_items l !! k = last_value k l.
Proof.
  induction l as [|kv l IH] using rev_ind; [done|].
  unfold dict_of_items in *. rewrite foldl_snoc, last_value_snoc, lookup_insert.
  destruct (String.eqb_spec kv.1 k) as [->|Hne].
  - by rewrite decide_True.
  - by rewrite decide_False.
Qed.

Lemma last_value_is_Some k (l : items) :
  is_Some (last_value k l) <-> k ∈ map fst l.
Proof.
  induction l as [|kv l IH] using rev_ind.
  { split; [by intros [? ?]|by intros ?%elem_of_nil]. }
  rewrite last_value_snoc, map_app, elem_of_app. simpl.
  rewrite list_elem_of_singleton.
  destruct (String.eqb_spec kv.1 k) as [->|Hne].
  - split; [by right|by eexists].
  - rewrite IH. split; [by left|]. intros [?|?]; [done|congruence].
Qed.

Lemma dict_of_items_list_to_map (l : items) :
  dict_of_items l = list_to_map (rev l).
Proof.
  induction l as [|kv l IH] using rev_ind; [done|].
  unfold dict_of_items in *. rewrite foldl_snoc, rev_app_distr, IH. by destruct kv.
Qed.

(** The order of the assignments does not matter when no key is repeated. *)
Lemma dict_of_items_perm (l1 l2 : items) :
  NoDup (map fst l1) -> l1 ≡ₚ l2 -> dict_of_items l1 = dict_of_items l2.
Proof.
  intros Hnd Hperm. rewrite !dict_of_items_list_to_map.
  apply list_to_map_proper.
  - change (NoDup (map fst (rev l1))). by rewrite map_rev, <- Permutation_rev.
  - by rewrite <- !Permutation_rev.
Qed.

(** ** Sorted keys *)

Lemma elem_of_sorted_keys (d : gmap string string) k :
  k ∈ sorted_keys d <-> is_Some (d !! k).
Proof.
  unfold sorted_keys. rewrite merge_sort_Permutation.
  change (k ∈ fst <$> map_to_list d <-> is_Some (d !! k)).
  rewrite list_elem_of_fmap. split.
  - intros ([k' v] & -> & Hin). apply elem_of_map_to_list in Hin. by eexists.
  - intros [v Hv]. exists (k, v). split; [done|]. by apply elem_of_map_to_list.
Qed.

Lemma NoDup_sorted_keys (d : gmap string string) : NoDup (sorted_keys d).
Proof.
  unfold sorted_keys. rewrite merge_sort_Permutation. apply NoDup_fst_map_to_list.
Qed.

Lemma str_le_lt a b : String.le a b -> a <> b -> str_lt a b.
Proof.
  unfold String.le, str_lt, String.leb, String.ltb. intros Hle Hne.
  destruct (String.compare a b) eqn:E; [|done|done].
  by apply String.compare_eq_iff in E.
Qed.

Lemma sorted_keys_ascending (d : gmap string string) :
  StronglySorted str_lt (sorted_keys d).
Proof.
  pose proof (NoDup_sorted_keys d) as Hnd.
  assert (StronglySorted String.le (sorted_keys d)) as Hs
    by (apply StronglySorted_merge_sort; apply _).
  induction Hs as [|k ks Hs IH Hk]; [constructor|].
  apply NoDup_cons in Hnd as [Hnotin Hnd]. constructor; [by apply IH|].
  rewrite Forall_forall in Hk. apply Forall_forall. intros k' Hin.
  apply str_le_lt; [by apply Hk|]. intros ->. done.
Qed.

(** ** The pieces of the canonical request *)

Lemma normalized_headers_eq (headers : items) :
  normalized_headers headers = dict_of_items (header_pairs headers).
Proof.
  unfold normalized_headers, dict_of_items, header_pairs.
  change (map ?f ?l) with (f <$> l). by rewrite foldl_fmap.
Qed.

Lemma query_params_eq (query : string) :
  query_params query = dict_of_items (query_pairs query).
Proof.
  unfold query_params, dict_of_items, query_pairs.
  destruct (String.eqb query ""); [done|].
  change (map ?f ?l) with (f <$> l). rewrite foldl_fmap.
  generalize (∅ : gmap string string).
  induction (split "&" query) as [|param params IH]; intros d; [done|].
  simpl. rewrite IH. unfold param_pair.
  by destruct (split_once "=" param) as [[k v]|].
Qed.

Lemma foldl_append {A} (f : A -> string) (l : list A) (acc : string) :
  foldl (fun acc x => acc +:+ f x) acc l = acc +:+ String.concat "" (map f l).
Proof.
  revert acc. induction l as [|x l IH]; intros acc.
  { simpl. by rewrite append_empty_r. }
  cbn [foldl map]. by rewrite IH, concat_empty_cons, append_assoc.
Qed.

Lemma lookup_total_dict_of_items (l : items) k :
  dict_of_items l !!! k = default "" (last_value k l).
Proof. by rewrite lookup_total_alt, lookup_dict_of_items. Qed.

Lemma canonical_headers_eq (headers : items) :
  canonical_headers (normalized_headers headers)
  = String.concat ""
      (map (fun name =>
              name +:+ ":" +:+ default "" (last_value name (header_pairs headers)) +:+ nl)
           (sorted_keys (normalized_headers headers))).
Proof.
  unfold canonical_headers.
  rewrite (foldl_append (fun key => key +:+ ":" +:+ normalized_headers headers !!! key +:+ nl)).
  change ("" +:+ ?s) with s. f_equal. apply map_ext. intros name.
  by rewrite normalized_headers_eq, lookup_total_dict_of_items.
Qed.

Lemma elem_of_header_names (headers : items) name :
  name ∈ sorted_keys (normalized_headers headers)
  <-> exists kv, kv ∈ headers /\ lower kv.1 = name.
Proof.
  rewrite elem_of_sorted_keys, normalized_headers_eq, lookup_dict_of_items,
    last_value_is_Some.
  unfold header_pairs. rewrite map_map, list_elem_of_In, in_map_iff. simpl.
  split.
  - intros (kv & <- & Hin%list_elem_of_In). by exists kv.
  - intros (kv & Hin%list_elem_of_In & <-). by exists kv.
Qed.

(** ** The signer: the claims *)

(** C6. The canonical request is the method, the path ([/] when the URL
    has none), the canonical query string, the canonical headers block, the
    signed-headers list and the payload hash, joined by newlines in that
    order. The header names are the lowercased names of the given headers,
    each once, in strictly ascending byte order; the block has a line
    [name:value] ended by a newline for each (the value being that of the
    last header with that name, case ignored), the signed-headers list joins
    the names with semicolons; the payload hash is the hexadecimal SHA-256
    of the body bytes, of the empty string when there is no body. *)
Theorem canonical_request_layout (urlparse : string -> ParseResult)
    (method url : string) (headers : items) (data : Data) :
  canonical_request urlparse method url headers data
  = String.concat nl
      [ method;
        (if String.eqb (path (urlparse url)) "" then "/" else path (urlparse url));
        canonical_query_string (query (urlparse url));
        String.concat ""
          (map (fun name =>
                  name +:+ ":"
                  +:+ default "" (last_value name (header_pairs headers)) +:+ nl)
               (sorted_keys (normalized_headers headers)));
        String.concat ";" (sorted_keys (normalized_headers headers));
        sha256_hexdigest
          match data with
          | DataNone => []
          | DataBytes b => b
          | DataStr s => encode_utf8 s
          end ]
  /\ StronglySorted str_lt (sorted_keys (normalized_headers headers))
  /\ NoDup (sorted_keys (normalized_headers headers))
  /\ (forall name, name ∈ sorted_keys (normalized_headers headers)
        <-> exists kv, kv ∈ headers /\ lower kv.1 = name).
Proof.
  split; [|split; [apply sorted_keys_ascending|split; [apply NoDup_sorted_keys|]]].
  - unfold canonical_request. rewrite canonical_headers_eq.
    unfold signed_headers, payload_hash. by destruct data.
  - apply elem_of_header_names.
Qed.

Example canonical_request_run :
  canonical_request urlparse_http "PUT"
    "https://s3.example.com/bucket/a%20b?uploadId=x&partNumber=1"
    [("X-Amz-Date", "20240101T000000Z"); ("host", "s3.example.com");
     ("x-amz-date", "20250101T000000Z")]
    (DataBytes ten_bytes)
  = "PUT" +:+ nl +:+ "/bucket/a%20b" +:+ nl +:+ "partNumber=1&uploadId=x" +:+ nl +:+
    "host:s3.example.com" +:+ nl +:+ "x-amz-date:20250101T000000Z" +:+ nl +:+ nl +:+
    "host;x-amz-date" +:+ nl +:+
    "84d89877f0d4041efb6bf91a16f0248f2fd573e6af05c19f96bedb9f882f7882".
Proof. by vm_compute. Qed.

Lemma split_not_nil sep s : split sep s <> [].
Proof.
  destruct s as [|c s]; simpl; [done|].
  destruct (Ascii.eqb c sep); [done|]. by destruct (split sep s).
Qed.

Lemma split_singleton_empty sep s : split sep s = [EmptyString] -> s = EmptyString.
Proof.
  destruct s as [|c s]; simpl; [done|].
  destruct (Ascii.eqb c sep).
  - intros [= E]. by apply split_not_nil in E.
  - by destruct (split sep s).
Qed.

Lemma query_pairs_perm q1 q2 :
  split "&" q1 ≡ₚ split "&" q2 -> query_pairs q1 ≡ₚ query_pairs q2.
Proof.
  intros Hperm. unfold query_pairs.
  destruct (String.eqb_spec q1 "") as [->|H1], (String.eqb_spec q2 "") as [->|H2].
  - done.
  - simpl in Hperm. apply Permutation_singleton_l in Hperm.
    symmetry in Hperm. by apply split_singleton_empty in Hperm.
  - simpl in Hperm. apply Permutation_singleton_r in Hperm.
    by apply split_singleton_empty in Hperm.
  - by apply Permutation_map.
Qed.

(** C5, as the code has it. The canonical query string joins with [&] one
    [key=value] pair, key and value percent-encoded separately, for each
    distinct key among the tokens of the query string split on [&] (a token
    without [=] being a key with an empty value), in strictly ascending
    byte order of the keys; the value of a key is that of its last token;
    the empty query string has no pair. For query strings with the same
    tokens in another order, the result is the same provided no key occurs
    twice; so [b=2&a=1] and [a=1&b=2] both give [a=1&b=2]. *)
Theorem canonical_query_string_spec :
  (forall query,
     canonical_query_string query
     = String.concat "&"
         (map (fun k => quote k +:+ "="
                        +:+ quote (default "" (last_value k (query_pairs query))))
              (sorted_keys (query_params query)))
     /\ StronglySorted str_lt (sorted_keys (query_params query))
     /\ (forall k, k ∈ sorted_keys (query_params query)
           <-> k ∈ map fst (query_pairs query)))
  /\ (forall q1 q2,
        split "&" q1 ≡ₚ split "&" q2 ->
        NoDup (map fst (query_pairs q1)) ->
        canonical_query_string q1 = canonical_query_string q2)
  /\ query_pairs "" = []
  /\ canonical_query_string "" = ""
  /\ canonical_query_string "b=2&a=1" = "a=1&b=2"
  /\ canonical_query_string "a=1&b=2" = "a=1&b=2".
Proof.
  split; [|split; [|by vm_compute]].
  - intros query. split; [|split].
    + unfold canonical_query_string. f_equal. apply map_ext. intros k.
      by rewrite query_params_eq, lookup_total_dict_of_items.
    + apply sorted_keys_ascending.
    + intros k. by rewrite elem_of_sorted_keys, query_params_eq,
        lookup_dict_of_items, last_value_is_Some.
  - intros q1 q2 Hperm Hnd. unfold canonical_query_string.
    rewrite !query_params_eq.
    by rewrite (dict_of_items_perm _ _ Hnd (query_pairs_perm _ _ Hperm)).
Qed.

Lemma tokens_ba_ab : split "&" "b=2&a=1" ≡ₚ split "&" "a=1&b=2".
Proof. apply perm_swap. Defined.

Lemma keys_ba_distinct : NoDup (map fst (query_pairs "b=2&a=1")).
Proof.
  change (NoDup ["b"; "a"]).
  apply NoDup_cons_2; [|apply NoDup_singleton].
  intros H%list_elem_of_singleton. discriminate H.
Defined.

Lemma canonical_query_string_spec_witness :
  split "&" "b=2&a=1" ≡ₚ split "&" "a=1&b=2"
  /\ NoDup (map fst (query_pairs "b=2&a=1"))
  /\ canonical_query_string "b=2&a=1" = canonical_query_string "a=1&b=2".
Proof.
  split; [exact tokens_ba_ab|]. split; [exact keys_ba_distinct|].
  exact (proj1 (proj2 canonical_query_string_spec) "b=2&a=1" "a=1&b=2"
           tokens_ba_ab keys_ba_distinct).
Defined.

(** C5, as the claim states it, fails on a repeated key: the two tokens of
    [a=1&a=2] give one pair, not two, and swapping them changes the
    result. *)
Lemma repeated_key_keeps_last_token :
  split "&" "a=1&a=2" ≡ₚ split "&" "a=2&a=1"
  /\ map param_pair (split "&" "a=1&a=2") = [("a", "1"); ("a", "2")]
  /\ canonical_query_string "a=1&a=2" = "a=2"
  /\ canonical_query_string "a=2&a=1" = "a=1"
  /\ canonical_query_string "a=1&a=2" <> canonical_query_string "a=2&a=1".
Proof.
  split; [apply perm_swap|]. by vm_compute.
Qed.

(** C1. When the headers carry an [x-amz-date] value (under any
    capitalisation of the name), the authorization value is the algorithm
    tag, the credential with its scope [date8/region/service/aws4_request],
    the signed-headers list and the signature; the signature is the
    hexadecimal HMAC-SHA256 of the string to sign (tag, date-time, scope and
    hexadecimal SHA-256 of the canonical request, joined by newlines) under
    the key obtained from the UTF-8 bytes of ["AWS4" + secret_key] by four
    chained HMAC-SHA256 operations, on the first 8 characters of the date,
    the region, the service and ["aws4_request"], in that order. Being a
    function of its arguments, the value is the same for the same inputs. *)
Theorem sign_request_v4_signature (urlparse : string -> ParseResult)
    (method url region service : string) (headers : items) (data : Data)
    (access_key secret_key amz_date : string) :
  normalized_headers headers !! "x-amz-date" = Some amz_date ->
  let date8 := substring 0 8 amz_date in
  let scope := date8 +:+ "/" +:+ region +:+ "/" +:+ service +:+ "/aws4_request" in
  let signing_key :=
    foldl Hmac.digest (encode_utf8 ("AWS4" +:+ secret_key))
      (map encode_utf8 [date8; region; service; "aws4_request"]) in
  let string_to_sign :=
    String.concat nl
      [ "AWS4-HMAC-SHA256"; amz_date; scope;
        sha256_hexdigest
          (encode_utf8 (canonical_request urlparse method url headers data)) ] in
  sign_request_v4 urlparse method url region service headers data
    access_key secret_key
  = Some ("AWS4-HMAC-SHA256 Credential=" +:+ access_key +:+ "/" +:+ scope
          +:+ ", SignedHeaders=" +:+ signed_headers (normalized_headers headers)
          +:+ ", Signature="
          +:+ hexlify (Hmac.digest signing_key (encode_utf8 string_to_sign))).
Proof.
  intros Hdate. unfold sign_request_v4. rewrite Hdate. reflexivity.
Qed.

(** Without such a header the lookup raises. *)
Lemma sign_request_v4_missing_date (urlparse : string -> ParseResult)
    (method url region service : string) (headers : items) (data : Data)
    (access_key secret_key : string) :
  normalized_headers headers !! "x-amz-date" = None ->
  sign_request_v4 urlparse method url region service headers data
    access_key secret_key = None.
Proof. intros Hdate. unfold sign_request_v4. by rewrite Hdate. Qed.

(** The signer reproduces the published signatures of the AWS test suite
    ([get-vanilla] and [get-vanilla-query-order-key-case]). *)

Lemma vanilla_date :
  normalized_headers vanilla_headers !! "x-amz-date" = Some "20150830T123600Z".
Proof. vm_compute. reflexivity. Defined.

Lemma sign_request_v4_signature_witness :
  normalized_headers vanilla_headers !! "x-amz-date" = Some "20150830T123600Z"
  /\ sign_request_v4 urlparse_http "GET" "https://example.amazonaws.com/"
       "us-east-1" "service" vanilla_headers DataNone "AKIDEXAMPLE" vanilla_secret
     = Some ("AWS4-HMAC-SHA256 "
             +:+ "Credential=AKIDEXAMPLE/20150830/us-east-1/service/aws4_request, "
             +:+ "SignedHeaders=host;x-amz-date, "
             +:+ "Signature=5fa00fa31553b73ebf1942676e86291e8372ff2a2260956d9b8aae1d763fbf31").
Proof.
  split; [exact vanilla_date|].
  eapply eq_trans.
  - exact (sign_request_v4_signature urlparse_http "GET"
             "https://example.amazonaws.com/" "us-east-1" "service" vanilla_headers
             DataNone "AKIDEXAMPLE" vanilla_secret "20150830T123600Z" vanilla_date).
  - vm_compute. reflexivity.
Defined.

Example sign_request_v4_query_order :
  sign_request_v4 urlparse_http "GET"
    "https://example.amazonaws.com/?Param2=value2&Param1=value1"
    "us-east-1" "service" vanilla_headers DataNone "AKIDEXAMPLE" vanilla_secret
  = Some ("AWS4-HMAC-SHA256 "
          +:+ "Credential=AKIDEXAMPLE/20150830/us-east-1/service/aws4_request, "
          +:+ "SignedHeaders=host;x-amz-date, "
          +:+ "Signature=b97d918cfa904a5beff61c982a1b6f458b799221646efd99d3219ec94cdf2500").
Proof. vm_compute. reflexivity. Qed.

Example hash_test_vectors :
  sha256_hexdigest (encode_utf8 "abc")
  = "ba7816bf8f01cfea414140de5dae2223b00361a396177a9cb410ff61f20015ad"
  /\ sha256_hexdigest []
     = "e3b0c44298fc1c149afbf4c8996fb92427ae41e4649b934ca495991b7852b855"
  /\ Hmac.hexdigest (encode_utf8 "Jefe") (encode_utf8 "what do ya want for nothing?")
     = "5bdcc146bf60754e6a042426089575c75a003f089d2739839dec58b964ec3843"
  /\ Hmac.hexdigest (repeat "170"%byte 131)
       (encode_utf8 "Test Using Larger Than Block-Size Key - Hash Key First")
     = "60e431591ee0b67f0d8a26aacbf5b77f8e0bc6213728c5140546040f0ee37f54".
Proof. by vm_compute. Qed.

(** * Further properties *)

(** ** The parts of a file *)

Section PartFacts.
Variables (file : list byte) (chunk_size : Z).
Hypothesis chunk_pos : 0 < chunk_size.

Lemma part_bytes_eq p :
  part_bytes file chunk_size p
  = take (Z.to_nat chunk_size) (drop (Z.to_nat ((p - 1) * chunk_size)) file).
Proof.
  unfold part_bytes. rewrite file_read_Some by lia. simpl.
  by assert ((chunk_size <? 0) = false) as -> by (apply Z.ltb_ge; lia).
Qed.

Lemma file_read_part p :
  file_read chunk_size (Z.to_nat ((p - 1) * chunk_size)) file
  = Some (part_bytes file chunk_size p).
Proof. unfold part_bytes. by rewrite file_read_Some by lia. Qed.

Lemma length_part_bytes p :
  1 <= p ->
  Z.of_nat (length (part_bytes file chunk_size p))
  = Z.max 0 (Z.min chunk_size (Z.of_nat (length file) - (p - 1) * chunk_size)).
Proof.
  intros Hp. rewrite part_bytes_eq, length_take, length_drop. nia.
Qed.

Lemma parts_from k :
  0 <= k <= chunk_count (Z.of_nat (length file)) chunk_size ->
  concat (map (part_bytes file chunk_size)
            (range (k + 1) (chunk_count (Z.of_nat (length file)) chunk_size + 1)))
  = drop (Z.to_nat (k * chunk_size)) file.
Proof.
  pose proof (chunk_count_bounds (Z.of_nat (length file)) chunk_size chunk_pos) as Hn.
  remember (Z.to_nat (chunk_count (Z.of_nat (length file)) chunk_size - k)) as d eqn:Hd.
  revert k Hd. induction d as [|d IH]; intros k Hd Hk.
  - rewrite range_empty by lia. simpl. rewrite drop_ge; [done|nia].
  - rewrite range_cons by lia. simpl. rewrite (IH (k + 1)) by lia.
    rewrite part_bytes_eq. replace (k + 1 - 1) with k by lia.
    replace (Z.to_nat ((k + 1) * chunk_size))
      with (Z.to_nat (k * chunk_size) + Z.to_nat chunk_size)%nat by nia.
    rewrite <- drop_drop. apply take_drop.
Qed.
End PartFacts.

(** X1. For a positive chunk size, the parts 1 .. ceil(size / chunk size)
    that the upload workers read are not empty, hold at most a chunk each,
    and put together in part order give back the file; a part beyond the
    last is empty. *)
Theorem parts_partition_file (file : list byte) (chunk_size : Z) :
  0 < chunk_size ->
  concat (map (part_bytes file chunk_size)
            (range 1 (chunk_count (Z.of_nat (length file)) chunk_size + 1)))
  = file
  /\ (forall p, 1 <= p <= chunk_count (Z.of_nat (length file)) chunk_size ->
        0 < Z.of_nat (length (part_bytes file chunk_size p)) <= chunk_size)
  /\ (forall p, chunk_count (Z.of_nat (length file)) chunk_size < p ->
        part_bytes file chunk_size p = []).
Proof.
  intros HC.
  pose proof (chunk_count_bounds (Z.of_nat (length file)) chunk_size HC) as Hn.
  pose proof (chunk_count_nonneg (Z.of_nat (length file)) chunk_size HC ltac:(lia)) as H0.
  split; [|split].
  - change 1 with (0 + 1) at 1. by rewrite (parts_from file chunk_size HC 0) by lia.
  - intros p Hp. rewrite length_part_bytes by lia. nia.
  - intros p Hp. apply length_zero_iff_nil.
    apply Nat2Z.inj. rewrite length_part_bytes by lia. nia.
Qed.

Lemma parts_partition_file_witness :
  0 < 4
  /\ concat (map (part_bytes ten_bytes 4) (range 1 (chunk_count 10 4 + 1))) = ten_bytes.
Proof.
  assert (0 < 4) as H by lia. split; [exact H|].
  exact (proj1 (parts_partition_file ten_bytes 4 H)).
Defined.

(** ** Which parts a multipart upload sends *)

Lemma part_uploads_app (tr1 tr2 : list (Call * Response)) :
  part_uploads (tr1 ++ tr2) = part_uploads tr1 ++ part_uploads tr2.
Proof. apply List.filter_app. Qed.

Lemma part_uploads_cons_put c r (tr : list (Call * Response)) :
  is_call "PUT" "partNumber" c = true ->
  part_uploads ((c, r) :: tr) = (c, r) :: part_uploads tr.
Proof. intros H. unfold part_uploads. simpl. by rewrite H. Qed.

Lemma part_uploads_cons_other c r (tr : list (Call * Response)) :
  method c <> "PUT" -> part_uploads ((c, r) :: tr) = part_uploads tr.
Proof.
  intros H. unfold part_uploads. simpl.
  destruct (is_call "PUT" "partNumber" c) eqn:E; [|done].
  by apply is_call_method in E.
Qed.

Section SequentialParts.
Context {World : Type} (service : Call -> World -> Response * World).
Implicit Types st : State World.
Variables (file : list byte) (bucket key : string) (chunk_size : Z)
          (upload_id : string).
Hypothesis chunk_pos : 0 < chunk_size.

Lemma upload_parts_unfold fuel pos part_number part_info st :
  upload_parts service (S fuel) file bucket key chunk_size upload_id
    pos part_number part_info st
  = let data := take (Z.to_nat chunk_size) (drop pos file) in
    match data with
    | [] => Some (Some part_info, st)
    | _ :: _ =>
        let call :=
          Build_Call "PUT" bucket key
            [("partNumber", str_of_Z part_number); ("uploadId", upload_id)]
            (DataBytes data)
            [("Content-Length", str_of_Z (Z.of_nat (length data)))] in
        let r := (service call (world st)).1 in
        let st1 := {| world := (service call (world st)).2;
                      trace := trace st ++ [(call, r)];
                      local_file := local_file st |} in
        if negb (status_code r =? 200) then
          Some (None,
                (make_s3_request service "DELETE" bucket key
                   [("uploadId", upload_id)] DataNone [] st1).2)
        else
          upload_parts service fuel file bucket key chunk_size upload_id
            (pos + length data)%nat (part_number + 1)
            (part_info ++ [Build_Part part_number (ETag r)]) st1
    end.
Proof.
  cbn [upload_parts]. rewrite file_read_Some by lia.
  assert ((chunk_size <? 0) = false) as -> by (apply Z.ltb_ge; lia). cbv zeta.
  destruct (take (Z.to_nat chunk_size) (drop pos file)) as [|b data]; [done|].
  rewrite make_s3_request_eq. cbv zeta.
  destruct (negb _); [|done]. by rewrite make_s3_request_eq.
Qed.

(** The sequential loop, entered before part [k + 1]: it sends the parts
    from [k + 1] on, in order, each with its own bytes; it records the ETag
    answered for each; it stops after the first part that is not answered
    with 200. *)
Lemma upload_parts_calls fuel : forall k part_info st,
  0 <= k <= chunk_count (Z.of_nat (length file)) chunk_size ->
  (Z.to_nat (chunk_count (Z.of_nat (length file)) chunk_size - k) < fuel)%nat ->
  exists res st' new m,
    upload_parts service fuel file bucket key chunk_size upload_id
      (Z.to_nat (Z.min (k * chunk_size) (Z.of_nat (length file))))
      (k + 1) part_info st = Some (res, st')
    /\ trace st' = trace st ++ new
    /\ k <= m <= chunk_count (Z.of_nat (length file)) chunk_size
    /\ map fst (part_uploads new)
       = map (part_call file bucket key chunk_size upload_id) (range (k + 1) (m + 1))
    /\ match res with
       | Some parts =>
           m = chunk_count (Z.of_nat (length file)) chunk_size
           /\ part_uploads new = new
           /\ Forall put_ok new
           /\ parts = part_info ++ zip_with recorded (range (k + 1) (m + 1)) new
       | None =>
           k < m
           /\ exists good bad,
               part_uploads new = good ++ [bad]
               /\ Forall put_ok good
               /\ status_code bad.2 <> 200
       end.
Proof.
  pose proof (chunk_count_bounds (Z.of_nat (length file)) chunk_size chunk_pos) as Hn.
  induction fuel as [|fuel IH]; intros k part_info st Hk Hfuel; [lia|].
  rewrite upload_parts_unfold. cbv zeta.
  destruct (decide (k = chunk_count (Z.of_nat (length file)) chunk_size)) as [->|Hlt].
  - assert (take (Z.to_nat chunk_size)
              (drop (Z.to_nat (Z.min (chunk_count (Z.of_nat (length file)) chunk_size
                                      * chunk_size)
                                     (Z.of_nat (length file)))) file) = []) as ->.
    { apply length_zero_iff_nil. rewrite length_take, length_drop. lia. }
    exists (Some part_info), st, [], (chunk_count (Z.of_nat (length file)) chunk_size).
    rewrite !app_nil_r, range_empty by lia. repeat split; try done; try lia.
    simpl. by rewrite app_nil_r.
  - assert (k * chunk_size < Z.of_nat (length file)) as Hkc by nia.
    assert (Z.to_nat (Z.min (k * chunk_size) (Z.of_nat (length file)))
            = Z.to_nat ((k + 1 - 1) * chunk_size)) as Hpos by (f_equal; nia).
    rewrite Hpos. rewrite <- (part_bytes_eq file chunk_size chunk_pos (k + 1)).
    pose proof (length_part_bytes file chunk_size chunk_pos (k + 1) ltac:(lia)) as Hlen.
    replace ((k + 1 - 1) * chunk_size) with (k * chunk_size) in * by lia.
    assert (forall A (x y : A),
              match part_bytes file chunk_size (k + 1) with
              | [] => x
              | _ :: _ => y
              end = y) as Hmatch.
    { intros A x y. destruct (part_bytes file chunk_size (k + 1)); [|done].
      simpl in Hlen. lia. }
    rewrite Hmatch. cbv zeta.
    assert (part_call file bucket key chunk_size upload_id (k + 1)
            = Build_Call "PUT" bucket key
                [("partNumber", str_of_Z (k + 1)); ("uploadId", upload_id)]
                (DataBytes (part_bytes file chunk_size (k + 1)))
                [("Content-Length",
                  str_of_Z (Z.of_nat (length (part_bytes file chunk_size (k + 1)))))])
      as <- by done.
    set (call := part_call file bucket key chunk_size upload_id (k + 1)).
    set (r := (service call (world st)).1).
    assert (is_call "PUT" "partNumber" call = true) as Hput by done.
    destruct (status_code r =? 200) eqn:Hstatus; simpl.
    + apply Z.eqb_eq in Hstatus.
      assert ((Z.to_nat (k * chunk_size)
               + length (part_bytes file chunk_size (k + 1)))%nat
              = Z.to_nat (Z.min ((k + 1) * chunk_size) (Z.of_nat (length file))))
        as ->.
      { replace ((k + 1) * chunk_size) with (k * chunk_size + chunk_size) by lia.
        lia. }
      match goal with |- context [upload_parts _ _ _ _ _ _ _ _ _ _ ?s] =>
        destruct (IH (k + 1) (part_info ++ [Build_Part (k + 1) (ETag r)]) s
                    ltac:(lia) ltac:(lia))
          as (res & st' & new & m & -> & Htr & Hm & Hcalls & Hres) end.
      exists res, st', ((call, r) :: new), m. split; [done|].
      rewrite Htr. cbn [trace]. rewrite <- app_assoc. split; [done|].
      split; [lia|]. rewrite part_uploads_cons_put by done.
      split; [rewrite (range_cons (k + 1)) by lia; simpl; by rewrite Hcalls|].
      destruct res as [parts|].
      * destruct Hres as (-> & Hall & Hok & ->).
        split; [done|]. split; [by rewrite Hall|]. split; [by constructor|].
        rewrite (range_cons (k + 1)) by lia. simpl. by rewrite <- app_assoc.
      * destruct Hres as (Hkm & good & bad & Hgood & Hok & Hbad).
        split; [lia|]. exists ((call, r) :: good), bad. rewrite Hgood.
        split; [done|]. split; [by constructor|done].
    + apply Z.eqb_neq in Hstatus. rewrite make_s3_request_eq. cbn [snd].
      eexists None, _, [(call, r); _], (k + 1). split; [done|].
      cbn [trace]. rewrite <- app_assoc. split; [done|]. split; [lia|].
      rewrite part_uploads_cons_put, part_uploads_cons_other by done.
      rewrite (range_cons (k + 1)), range_empty by lia.
      split; [done|]. split; [lia|]. by exists [], (call, r).
Qed.
End SequentialParts.

Section ParallelParts.
Context {World : Type} (service : Call -> World -> Response * World).
Implicit Types st : State World.
Variables (file : list byte) (bucket key : string) (chunk_size : Z)
          (upload_id : string).
Hypothesis chunk_pos : 0 < chunk_size.

Lemma upload_part_eq p st :
  1 <= p ->
  upload_part service file bucket key chunk_size upload_id p st
  = let call := part_call file bucket key chunk_size upload_id p in
    let r := (service call (world st)).1 in
    Some (if status_code r =? 200 then Some (recorded p (call, r)) else None,
          {| world := (service call (world st)).2;
             trace := trace st ++ [(call, r)];
             local_file := local_file st |}).
Proof.
  intros Hp. unfold upload_part.
  assert (((p - 1) * chunk_size <? 0) = false) as -> by (apply Z.ltb_ge; nia).
  rewrite (file_read_part file chunk_size chunk_pos p).
  rewrite make_s3_request_eq. cbv zeta.
  by destruct (status_code _ =? 200).
Qed.

Lemma finish_parts_calls pending : forall st,
  Forall (Z.le 1) pending ->
  exists rest,
    trace (finish_parts service file bucket key chunk_size upload_id pending st)
    = trace st ++ rest
    /\ part_uploads rest = rest
    /\ map fst rest = map (part_call file bucket key chunk_size upload_id) pending.
Proof.
  induction pending as [|p pending IH]; intros st Hall; simpl.
  { exists []. by rewrite app_nil_r. }
  apply Forall_cons in Hall as [Hp Hall]. rewrite upload_part_eq by done. cbv zeta.
  match goal with |- context [finish_parts _ _ _ _ _ _ _ ?s] =>
    destruct (IH s Hall) as (rest & Htr & Hput & Hcalls) end.
  eexists (_ :: rest). rewrite Htr. cbn [trace]. rewrite <- app_assoc.
  split; [done|]. rewrite part_uploads_cons_put by done.
  split; [by rewrite Hput|]. simpl. by rewrite Hcalls.
Qed.

(** The collecting loop sends every part of the completion order, each with
    its own bytes, also when it aborts on the way. *)
Lemma collect_parts_calls completed : forall part_info st,
  Forall (Z.le 1) completed ->
  exists res st' new,
    collect_parts service file bucket key chunk_size upload_id
      completed part_info st = Some (res, st')
    /\ trace st' = trace st ++ new
    /\ map fst (part_uploads new)
       = map (part_call file bucket key chunk_size upload_id) completed
    /\ match res with
       | Some parts =>
           part_uploads new = new
           /\ Forall put_ok new
           /\ parts = part_info ++ zip_with recorded completed new
       | None => True
       end.
Proof.
  induction completed as [|p completed IH]; intros part_info st Hall; simpl.
  { exists (Some part_info), st, []. by rewrite !app_nil_r. }
  apply Forall_cons in Hall as [Hp Hall]. rewrite upload_part_eq by done. cbv zeta.
  set (call := part_call file bucket key chunk_size upload_id p).
  set (r := (service call (world st)).1).
  destruct (status_code r =? 200) eqn:Hstatus.
  - match goal with |- context [collect_parts _ _ _ _ _ _ _ ?i ?s] =>
      destruct (IH i s Hall) as (res & st' & new & -> & Htr & Hcalls & Hres) end.
    exists res, st', ((call, r) :: new). split; [done|]. rewrite Htr. cbn [trace].
    rewrite <- app_assoc. split; [done|]. rewrite part_uploads_cons_put by done.
    split; [simpl; by rewrite Hcalls|]. destruct res as [parts|]; [|done].
    destruct Hres as (Hput & Hok & ->). split; [by rewrite Hput|].
    split; [constructor; [split; [done|by apply Z.eqb_eq]|done]|].
    simpl. by rewrite <- app_assoc.
  - rewrite make_s3_request_eq. cbv zeta.
    match goal with |- context [finish_parts _ _ _ _ _ _ _ ?s] =>
      destruct (finish_parts_calls completed s Hall) as (rest & Htr & Hput & Hcalls) end.
    eexists None, _, ((call, r) :: (_, _) :: rest). split; [done|]. rewrite Htr.
    cbn [trace]. rewrite <- !app_assoc. split; [done|]. split; [|done].
    rewrite part_uploads_cons_put, part_uploads_cons_other by done.
    simpl. by rewrite Hput, Hcalls.
Qed.
End ParallelParts.

Lemma recorded_numbers (ps : list Z) (ups : list (Call * Response)) :
  length ups = length ps -> map PartNumber (zip_with recorded ps ups) = ps.
Proof.
  revert ups. induction ps as [|p ps IH]; intros [|up ups] Hlen; try done.
  simpl in *. f_equal. apply IH. lia.
Qed.

Lemma recorded_etags (f : Z -> Call) (ps : list Z) (ups : list (Call * Response)) :
  map fst ups = map f ps ->
  forall part, part ∈ zip_with recorded ps ups ->
    exists up, up ∈ ups /\ up.1 = f (PartNumber part) /\ PartETag part = ETag up.2.
Proof.
  revert ups. induction ps as [|p ps IH]; intros [|up ups] Hcalls part Hin;
    simpl in *; try by apply elem_of_nil in Hin.
  injection Hcalls as Hup Hcalls.
  apply elem_of_cons in Hin as [->|Hin].
  - exists up. split; [by left|done].
  - destruct (IH ups Hcalls part Hin) as (up' & Hin' & Hup').
    exists up'. split; [by right|done].
Qed.

Section UploadCalls.
Context {World : Type} (service : Call -> World -> Response * World).
Implicit Types st : State World.
Variables (file : list byte) (bucket key : string) (chunk_size : Z).
Hypothesis chunk_pos : 0 < chunk_size.

Lemma upload_file_multipart_calls fuel st :
  (Z.to_nat (chunk_count (Z.of_nat (length file)) chunk_size) < fuel)%nat ->
  exists r st' new m,
    upload_file_multipart service fuel file bucket key chunk_size st = Some (r, st')
    /\ trace st' = trace st ++ new
    /\ 0 <= m <= chunk_count (Z.of_nat (length file)) chunk_size
    /\ map fst (part_uploads new)
       = map (part_call file bucket key chunk_size
                (UploadId (service (initiate_call bucket key) (world st)).1))
             (range 1 (m + 1))
    /\ (r = InitiateFailed -> m = 0)
    /\ (r = PartFailed ->
        1 <= m
        /\ exists good bad,
            part_uploads new = good ++ [bad]
            /\ Forall put_ok good /\ status_code bad.2 <> 200)
    /\ (r = UploadSucceeded \/ r = CompleteFailed ->
        m = chunk_count (Z.of_nat (length file)) chunk_size
        /\ Forall put_ok (part_uploads new)
        /\ exists r2,
            new = (initiate_call bucket key,
                   (service (initiate_call bucket key) (world st)).1)
                  :: part_uploads new
                  ++ [(complete_call bucket key
                         (UploadId (service (initiate_call bucket key) (world st)).1)
                         (zip_with recorded (range 1 (m + 1)) (part_uploads new)),
                       r2)]).
Proof.
  intros Hfuel. unfold upload_file_multipart.
  pose proof (chunk_count_nonneg (Z.of_nat (length file)) chunk_size chunk_pos
                ltac:(lia)) as Hn.
  rewrite make_s3_request_eq. cbv zeta. fold (initiate_call bucket key).
  set (r0 := (service (initiate_call bucket key) (world st)).1).
  set (st0 := Build_State _ _ _).
  destruct (status_code r0 =? 200) eqn:Hinit; simpl.
  2:{ eexists InitiateFailed, st0, [(initiate_call bucket key, r0)], 0.
      split; [done|]. split; [done|]. split; [lia|].
      rewrite part_uploads_cons_other, range_empty by done.
      split; [done|]. split; [done|]. split; [done|]. by intros [?|?]. }
  destruct (upload_parts_calls service file bucket key chunk_size (UploadId r0)
              chunk_pos fuel 0 [] st0 ltac:(lia) ltac:(by rewrite Z.sub_0_r))
    as (res & st1 & new & m & Hrun & Htr & Hm & Hcalls & Hres).
  assert (Z.to_nat (Z.min (0 * chunk_size) (Z.of_nat (length file))) = 0%nat) as E by lia.
  rewrite E in Hrun. change (0 + 1) with 1 in *. rewrite Hrun.
  destruct res as [parts|].
  - destruct Hres as (-> & Hput & Hok & ->). rewrite complete_upload_eq.
    eexists _, _, ((initiate_call bucket key, r0) :: new ++ [(_, _)]),
      (chunk_count (Z.of_nat (length file)) chunk_size).
    split; [done|]. cbn [trace]. rewrite Htr. subst st0. cbn [trace].
    rewrite <- !app_assoc. split; [done|]. split; [lia|].
    rewrite part_uploads_cons_other, part_uploads_app, part_uploads_cons_other,
      app_nil_r, Hput by done.
    rewrite Hput in Hcalls.
    split; [done|]. split.
    { intros H. by destruct (_ =? 200) in H. }
    split; [intros H; by destruct (_ =? 200) in H|].
    intros _. split; [done|]. split; [done|]. by eexists.
  - destruct Hres as (Hm1 & good & bad & Hgood & Hok & Hbad).
    exists PartFailed, st1, ((initiate_call bucket key, r0) :: new), m.
    split; [done|]. rewrite Htr. subst st0. cbn [trace]. rewrite <- app_assoc.
    split; [done|]. split; [lia|]. rewrite part_uploads_cons_other by done.
    split; [done|]. split; [done|]. split; [|by intros [?|?]].
    intros _. split; [lia|]. by exists good, bad.
Qed.

Lemma upload_file_parallel_calls order st :
  order ≡ₚ range 1 (chunk_count (Z.of_nat (length file)) chunk_size + 1) ->
  exists r st' new,
    upload_file_parallel service file bucket key chunk_size order st = Some (r, st')
    /\ trace st' = trace st ++ new
    /\ (status_code (service (initiate_call bucket key) (world st)).1 = 200 ->
        map fst (part_uploads new)
        = map (part_call file bucket key chunk_size
                 (UploadId (service (initiate_call bucket key) (world st)).1))
              order)
    /\ (status_code (service (initiate_call bucket key) (world st)).1 <> 200 ->
        part_uploads new = [])
    /\ (r = UploadSucceeded \/ r = CompleteFailed ->
        status_code (service (initiate_call bucket key) (world st)).1 = 200
        /\ Forall put_ok (part_uploads new)
        /\ exists r2,
            new = (initiate_call bucket key,
                   (service (initiate_call bucket key) (world st)).1)
                  :: part_uploads new
                  ++ [(complete_call bucket key
                         (UploadId (service (initiate_call bucket key) (world st)).1)
                         (sort_parts (zip_with recorded order (part_uploads new))),
                       r2)]).
Proof.
  intros Horder. unfold upload_file_parallel.
  rewrite make_s3_request_eq. cbv zeta. fold (initiate_call bucket key).
  set (r0 := (service (initiate_call bucket key) (world st)).1).
  set (st0 := Build_State _ _ _).
  destruct (status_code r0 =? 200) eqn:Hinit; simpl.
  2:{ apply Z.eqb_neq in Hinit.
      eexists InitiateFailed, st0, [(initiate_call bucket key, r0)].
      split; [done|]. split; [done|]. rewrite part_uploads_cons_other by done.
      split; [done|]. split; [done|]. by intros [?|?]. }
  apply Z.eqb_eq in Hinit.
  assert ((chunk_size =? 0) = false) as -> by (apply Z.eqb_neq; lia).
  assert (Forall (Z.le 1) order) as Hall.
  { apply Forall_forall. intros p Hp. rewrite Horder in Hp.
    apply elem_of_range in Hp. lia. }
  destruct (collect_parts_calls service file bucket key chunk_size (UploadId r0)
              chunk_pos order [] st0 Hall)
    as (res & st1 & new & -> & Htr & Hcalls & Hres).
  destruct res as [parts|].
  - destruct Hres as (Hput & Hok & ->). rewrite complete_upload_eq.
    eexists _, _, ((initiate_call bucket key, r0) :: new ++ [(_, _)]).
    split; [done|]. cbn [trace]. rewrite Htr. subst st0. cbn [trace].
    rewrite <- !app_assoc. split; [done|].
    rewrite part_uploads_cons_other, part_uploads_app, part_uploads_cons_other,
      app_nil_r, Hput by done.
    rewrite Hput in Hcalls.
    split; [done|]. split; [done|]. intros _. split; [done|]. split; [done|].
    by eexists.
  - exists PartFailed, st1, ((initiate_call bucket key, r0) :: new).
    split; [done|]. rewrite Htr. subst st0. cbn [trace]. rewrite <- app_assoc.
    split; [done|]. rewrite part_uploads_cons_other by done.
    split; [done|]. split; [done|]. by intros [?|?].
Qed.
End UploadCalls.

(** ** The completion document: the claim *)

Lemma upload_shape_succeeds bucket key r new :
  upload_shape bucket key r new ->
  (parts_succeed new -> r = UploadSucceeded \/ r = CompleteFailed)
  /\ (forall cr, cr ∈ new -> is_call "POST" "uploadId" cr.1 = true ->
        parts_succeed new).
Proof.
  intros [r0 Hr0|r0 good bad del rest Hr0 Hgood Hbad Hstatus Hrest
         |r0 puts parts r2 Hr0 Hputs Hlen Hnum].
  - split.
    + intros Hall. apply Forall_cons in Hall as [H _]. by specialize (H eq_refl).
    + by intros cr ->%list_elem_of_singleton Hc.
  - destruct bad as [cb rb]. simpl in *.
    pose proof (is_call_method _ _ _ Hbad) as Hmb.
    assert (is_call "POST" "uploadId" cb = false) as Hcb.
    { unfold is_call. by rewrite Hmb. }
    assert (~ parts_succeed
                ((initiate_call bucket key, r0)
                 :: good ++ [(cb, rb); (abort_call bucket key (UploadId r0), del)] ++ rest))
      as Hnot.
    { intros Hall. apply Forall_cons in Hall as [_ Hall].
      apply Forall_app in Hall as [_ Hall]. apply Forall_cons in Hall as [H _].
      by apply Hstatus, H. }
    split; [by intros ?|].
    intros cr Hin Hc. exfalso.
    apply elem_of_cons in Hin as [->|Hin]; [done|].
    apply elem_of_app in Hin as [Hin|Hin].
    { rewrite Forall_forall in Hgood. destruct (Hgood _ Hin) as [E _].
      unfold is_call in Hc. by rewrite E in Hc. }
    apply elem_of_cons in Hin as [->|Hin]; [simpl in Hc; by rewrite Hcb in Hc|].
    apply elem_of_cons in Hin as [->|Hin]; [done|].
    rewrite Forall_forall in Hrest. specialize (Hrest _ Hin).
    unfold is_call in Hc. by rewrite Hrest in Hc.
  - assert (parts_succeed
              ((initiate_call bucket key, r0)
               :: puts ++ [(complete_call bucket key (UploadId r0) parts, r2)])) as Hall.
    { apply Forall_cons. split; [done|]. apply Forall_app. split.
      - eapply Forall_impl; [exact Hputs|]. by intros cr [_ ?] _.
      - by repeat constructor. }
    split; [|done]. intros _. destruct (status_code r2 =? 200); auto.
Qed.

(** C3. In a multipart upload in which the initiate call and all part
    uploads are answered with 200, sequential or parallel with the parts
    completing in any order: the part list collected has, for each part
    upload in the order answered, the number of the part and the ETag
    answered; the completion document is [<CompleteMultipartUpload>] around
    the [<Part>] elements of that very list put in strictly ascending order
    of part number (the numbers being 1, 2, ..., chunk count); it is
    submitted once, after the part uploads. No completion document is
    submitted in any other case. *)
Theorem completion_document_ascending {World : Type}
    (service : Call -> World -> Response * World)
    (file : list byte) (bucket key : string) (chunk_size : Z)
    (fuel : nat) (order : list Z) (st : State World) :
  (length file < fuel)%nat ->
  0 < chunk_size ->
  order ≡ₚ range 1 (chunk_count (Z.of_nat (length file)) chunk_size + 1) ->
  forall run,
    run = upload_file_multipart service fuel file bucket key chunk_size st
    \/ run = upload_file_parallel service file bucket key chunk_size order st ->
    let r0 := (service (initiate_call bucket key) (world st)).1 in
    exists r st' new,
      run = Some (r, st')
      /\ trace st' = trace st ++ new
      /\ (parts_succeed new ->
          exists answered collected parts r2,
            answered ≡ₚ range 1 (chunk_count (Z.of_nat (length file)) chunk_size + 1)
            /\ map fst (part_uploads new)
               = map (part_call file bucket key chunk_size (UploadId r0)) answered
            /\ collected = zip_with recorded answered (part_uploads new)
            /\ parts ≡ₚ collected
            /\ StronglySorted Z.lt (map PartNumber parts)
            /\ map PartNumber parts
               = range 1 (chunk_count (Z.of_nat (length file)) chunk_size + 1)
            /\ new = (initiate_call bucket key, r0) :: part_uploads new
                     ++ [(complete_call bucket key (UploadId r0) parts, r2)]
            /\ data (complete_call bucket key (UploadId r0) parts)
               = DataStr ("<CompleteMultipartUpload>"
                          +:+ String.concat "" (map part_xml parts)
                          +:+ "</CompleteMultipartUpload>")
            /\ count_calls "POST" "uploadId" new = 1%nat)
      /\ (forall cr, cr ∈ new -> is_call "POST" "uploadId" cr.1 = true ->
            parts_succeed new).
Proof.
  intros Hfuel HC Horder run Hrun r0.
  pose proof (chunk_count_bounds (Z.of_nat (length file)) chunk_size HC) as Hn.
  assert (exists r st' new, run = Some (r, st') /\ trace st' = trace st ++ new
            /\ local_file st' = local_file st /\ upload_shape bucket key r new)
    as (r & st' & new & Hsome & Htr & _ & Hshape).
  { destruct Hrun as [-> | ->].
    - apply upload_file_multipart_shape; [lia|done].
    - by apply upload_file_parallel_shape. }
  exists r, st', new. split; [done|]. split; [done|].
  destruct (upload_shape_succeeds _ _ _ _ Hshape) as [Hsucceeds Honly].
  destruct (upload_shape_document _ _ _ _ Hshape) as [_ Hone].
  split; [|done]. intros Hall. specialize (Hsucceeds Hall). specialize (Hone Hall).
  destruct Hrun as [Hrun | Hrun]; rewrite Hrun in Hsome.
  - destruct (upload_file_multipart_calls service file bucket key chunk_size HC fuel st
                ltac:(nia))
      as (r' & st'' & new' & m & Hrun' & Htr' & Hm & Hcalls & _ & _ & Hdone).
    rewrite Hrun' in Hsome. injection Hsome as -> ->.
    rewrite Htr in Htr'. apply app_inv_head in Htr' as <-.
    destruct (Hdone Hsucceeds) as (-> & Hok & r2 & Hnew).
    assert (length (part_uploads new)
            = length (range 1 (chunk_count (Z.of_nat (length file)) chunk_size + 1)))
      as Hlen.
    { apply (f_equal length) in Hcalls. by rewrite !length_map in Hcalls. }
    eexists _, _, _, r2. split; [reflexivity|]. split; [exact Hcalls|].
    split; [reflexivity|]. split; [reflexivity|].
    rewrite recorded_numbers by done.
    split; [apply range_sorted_lt|]. split; [done|]. split; [exact Hnew|].
    split; [|done]. cbn [data complete_call]. by rewrite completion_xml_eq.
  - destruct (upload_file_parallel_calls service file bucket key chunk_size HC order st
                Horder)
      as (r' & st'' & new' & Hrun' & Htr' & Hcalls & _ & Hdone).
    rewrite Hrun' in Hsome. injection Hsome as -> ->.
    rewrite Htr in Htr'. apply app_inv_head in Htr' as <-.
    destruct (Hdone Hsucceeds) as (Hinit & Hok & r2 & Hnew).
    specialize (Hcalls Hinit).
    assert (length (part_uploads new) = length order) as Hlen.
    { apply (f_equal length) in Hcalls. by rewrite !length_map in Hcalls. }
    assert (map PartNumber (sort_parts (zip_with recorded order (part_uploads new)))
            = range 1 (chunk_count (Z.of_nat (length file)) chunk_size + 1)) as Hnum.
    { apply sort_parts_numbers. by rewrite recorded_numbers. }
    exists order, (zip_with recorded order (part_uploads new)),
      (sort_parts (zip_with recorded order (part_uploads new))), r2.
    split; [done|]. split; [exact Hcalls|]. split; [done|].
    split; [apply merge_sort_Permutation|].
    split; [rewrite Hnum; apply range_sorted_lt|]. split; [done|].
    split; [exact Hnew|]. split; [|done].
    cbn [data complete_call]. by rewrite completion_xml_eq.
Qed.

Lemma completion_document_ascending_witness :
  (length ten_bytes < 20)%nat /\ 0 < 4
  /\ [3; 1; 2] ≡ₚ range 1 (chunk_count (Z.of_nat (length ten_bytes)) 4 + 1)
  /\ exists r st' new,
      upload_file_parallel scripted ten_bytes "b" "k" 4 [3; 1; 2] (initial [])
      = Some (r, st')
      /\ trace st' = trace (initial []) ++ new
      /\ parts_succeed new
      /\ exists parts r2,
          StronglySorted Z.lt (map PartNumber parts)
          /\ map PartNumber parts
             = range 1 (chunk_count (Z.of_nat (length ten_bytes)) 4 + 1)
          /\ last new = Some (complete_call "b" "k" "upload-1" parts, r2)
          /\ data (complete_call "b" "k" "upload-1" parts)
             = DataStr ("<CompleteMultipartUpload>"
                        +:+ String.concat "" (map part_xml parts)
                        +:+ "</CompleteMultipartUpload>").
Proof.
  assert (length ten_bytes < 20)%nat as H1 by (simpl; lia).
  assert (0 < 4) as H2 by lia.
  split; [exact H1|]. split; [exact H2|]. split; [exact order_312|].
  destruct (completion_document_ascending scripted ten_bytes "b" "k" 4 20 [3; 1; 2]
              (initial []) H1 H2 order_312 _ (or_intror eq_refl))
    as (r & st' & new & Hrun & Htr & Hdoc & _).
  assert (parts_succeed new) as Hall.
  { clear Hdoc. vm_compute in Hrun. injection Hrun as <- <-.
    simpl in Htr. subst new. unfold parts_succeed.
    repeat (apply Forall_cons_2; [intros _; reflexivity|]). apply Forall_nil_2. }
  exists r, st', new. split; [exact Hrun|]. split; [exact Htr|].
  split; [exact Hall|].
  destruct (Hdoc Hall)
    as (answered & collected & parts & r2 & _ & _ & _ & _ & Hsorted & Hnum
        & Hnew & Hdata & _).
  exists parts, r2. split; [exact Hsorted|]. split; [exact Hnum|].
  split; [|exact Hdata].
  etrans; [apply (f_equal last Hnew)|]. by rewrite app_comm_cons, last_snoc.
Defined.

(** X2. The sequential multipart upload with a positive chunk size sends
    the parts 1, 2, ..., m in that order, each with exactly its bytes of the
    file and their length as [Content-Length]; m is the chunk count unless
    the upload is aborted, and then the part refused is the last one sent:
    no part is uploaded after a failure, none when the initiate call
    fails. *)
Theorem sequential_upload_sends_parts_in_order {World : Type}
    (service : Call -> World -> Response * World)
    (file : list byte) (bucket key : string) (chunk_size : Z)
    (fuel : nat) (st : State World) :
  0 < chunk_size ->
  (Z.to_nat (chunk_count (Z.of_nat (length file)) chunk_size) < fuel)%nat ->
  exists r st' new m,
    upload_file_multipart service fuel file bucket key chunk_size st = Some (r, st')
    /\ trace st' = trace st ++ new
    /\ 0 <= m <= chunk_count (Z.of_nat (length file)) chunk_size
    /\ map fst (part_uploads new)
       = map (part_call file bucket key chunk_size
                (UploadId (service (initiate_call bucket key) (world st)).1))
             (range 1 (m + 1))
    /\ (r = InitiateFailed -> m = 0)
    /\ (r = PartFailed ->
        1 <= m
        /\ exists good bad,
            part_uploads new = good ++ [bad]
            /\ Forall put_ok good /\ status_code bad.2 <> 200)
    /\ (r = UploadSucceeded \/ r = CompleteFailed ->
        m = chunk_count (Z.of_nat (length file)) chunk_size).
Proof.
  intros HC Hfuel.
  destruct (upload_file_multipart_calls service file bucket key chunk_size HC fuel st
              Hfuel)
    as (r & st' & new & m & Hrun & Htr & Hm & Hcalls & Hinit & Hfail & Hdone).
  exists r, st', new, m. repeat (split; [done|]). intros Hr. by apply Hdone.
Qed.

Lemma sequential_upload_sends_parts_in_order_witness :
  0 < 4 /\ (Z.to_nat (chunk_count (Z.of_nat (length ten_bytes)) 4) < 4)%nat
  /\ exists r st' new m,
      upload_file_multipart scripted 4 ten_bytes "b" "k" 4 (initial [200; 200; 500])
      = Some (r, st')
      /\ trace st' = trace (initial [200; 200; 500]) ++ new
      /\ 0 <= m <= chunk_count (Z.of_nat (length ten_bytes)) 4
      /\ map fst (part_uploads new)
         = map (part_call ten_bytes "b" "k" 4
                  (UploadId (scripted (initiate_call "b" "k")
                               (world (initial [200; 200; 500]))).1))
               (range 1 (m + 1))
      /\ (r = InitiateFailed -> m = 0)
      /\ (r = PartFailed ->
          1 <= m
          /\ exists good bad,
              part_uploads new = good ++ [bad]
              /\ Forall put_ok good /\ status_code bad.2 <> 200)
      /\ (r = UploadSucceeded \/ r = CompleteFailed ->
          m = chunk_count (Z.of_nat (length ten_bytes)) 4).
Proof.
  assert (0 < 4) as H1 by lia.
  assert (Z.to_nat (chunk_count (Z.of_nat (length ten_bytes)) 4) < 4)%nat as H2
    by (vm_compute; lia).
  split; [exact H1|]. split; [exact H2|].
  exact (sequential_upload_sends_parts_in_order scripted ten_bytes "b" "k" 4 4
           (initial [200; 200; 500]) H1 H2).
Defined.



(** X4. In a multipart upload with a positive chunk size, sequential or
    parallel, a completion call carries the upload id answered by the
    initiate call and lists exactly the parts 1 .. chunk count; the ETag
    listed for a part is the one answered to the upload of that part. *)
Theorem completion_document_records_etags {World : Type}
    (service : Call -> World -> Response * World)
    (file : list byte) (bucket key : string) (chunk_size : Z)
    (fuel : nat) (order : list Z) (st : State World) :
  0 < chunk_size ->
  (Z.to_nat (chunk_count (Z.of_nat (length file)) chunk_size) < fuel)%nat ->
  order ≡ₚ range 1 (chunk_count (Z.of_nat (length file)) chunk_size + 1) ->
  forall run,
    run = upload_file_multipart service fuel file bucket key chunk_size st
    \/ run = upload_file_parallel service file bucket key chunk_size order st ->
    exists r st' new,
      run = Some (r, st')
      /\ trace st' = trace st ++ new
      /\ (r = UploadSucceeded \/ r = CompleteFailed ->
          exists parts r2,
            last new
            = Some (complete_call bucket key
                      (UploadId (service (initiate_call bucket key) (world st)).1)
                      parts, r2)
            /\ map PartNumber parts
               = range 1 (chunk_count (Z.of_nat (length file)) chunk_size + 1)
            /\ forall part, part ∈ parts ->
                 exists up,
                   up ∈ part_uploads new
                   /\ up.1 = part_call file bucket key chunk_size
                               (UploadId (service (initiate_call bucket key) (world st)).1)
                               (PartNumber part)
                   /\ status_code up.2 = 200
                   /\ PartETag part = ETag up.2).
Proof.
  intros HC Hfuel Horder run [-> | ->].
  - destruct (upload_file_multipart_calls service file bucket key chunk_size HC fuel st
                Hfuel)
      as (r & st' & new & m & Hrun & Htr & Hm & Hcalls & _ & _ & Hdone).
    exists r, st', new. split; [done|]. split; [done|]. intros Hr.
    destruct (Hdone Hr) as (-> & Hok & r2 & Hnew).
    exists (zip_with recorded
              (range 1 (chunk_count (Z.of_nat (length file)) chunk_size + 1))
              (part_uploads new)), r2.
    split.
    { etrans; [apply (f_equal last Hnew)|]. by rewrite app_comm_cons, last_snoc. }
    split.
    + apply recorded_numbers. apply (f_equal length) in Hcalls.
      by rewrite !length_map in Hcalls.
    + intros part Hin.
      destruct (recorded_etags _ _ _ Hcalls part Hin) as (up & Hup & Hcall & Hetag).
      exists up. split; [done|]. split; [done|]. split; [|done].
      rewrite Forall_forall in Hok. by destruct (Hok up Hup).
  - destruct (upload_file_parallel_calls service file bucket key chunk_size HC order st
                Horder)
      as (r & st' & new & Hrun & Htr & Hcalls & Hfail & Hdone).
    exists r, st', new. split; [done|]. split; [done|]. intros Hr.
    destruct (Hdone Hr) as (Hinit & Hok & r2 & Hnew).
    specialize (Hcalls Hinit).
    exists (sort_parts (zip_with recorded order (part_uploads new))), r2.
    split.
    { etrans; [apply (f_equal last Hnew)|]. by rewrite app_comm_cons, last_snoc. }
    assert (length (part_uploads new) = length order) as Hlen.
    { apply (f_equal length) in Hcalls. by rewrite !length_map in Hcalls. }
    split.
    + apply sort_parts_numbers. by rewrite recorded_numbers.
    + intros part Hin. unfold sort_parts in Hin.
      rewrite merge_sort_Permutation in Hin.
      destruct (recorded_etags _ _ _ Hcalls part Hin) as (up & Hup & Hcall & Hetag).
      exists up. split; [done|]. split; [done|]. split; [|done].
      rewrite Forall_forall in Hok. by destruct (Hok up Hup).
Qed.

Lemma completion_document_records_etags_witness :
  0 < 4 /\ (Z.to_nat (chunk_count (Z.of_nat (length ten_bytes)) 4) < 4)%nat
  /\ [3; 1; 2] ≡ₚ range 1 (chunk_count (Z.of_nat (length ten_bytes)) 4 + 1)
  /\ exists r st' new,
      upload_file_parallel scripted ten_bytes "b" "k" 4 [3; 1; 2] (initial [])
      = Some (r, st')
      /\ trace st' = trace (initial []) ++ new
      /\ (r = UploadSucceeded \/ r = CompleteFailed ->
          exists parts r2,
            last new
            = Some (complete_call "b" "k"
                      (UploadId (scripted (initiate_call "b" "k")
                                   (world (initial []))).1)
                      parts, r2)
            /\ map PartNumber parts
               = range 1 (chunk_count (Z.of_nat (length ten_bytes)) 4 + 1)
            /\ forall part, part ∈ parts ->
                 exists up,
                   up ∈ part_uploads new
                   /\ up.1 = part_call ten_bytes "b" "k" 4
                               (UploadId (scripted (initiate_call "b" "k")
                                            (world (initial []))).1)
                               (PartNumber part)
                   /\ status_code up.2 = 200
                   /\ PartETag part = ETag up.2).
Proof.
  assert (0 < 4) as H1 by lia.
  assert (Z.to_nat (chunk_count (Z.of_nat (length ten_bytes)) 4) < 4)%nat as H2
    by (vm_compute; lia).
  split; [exact H1|]. split; [exact H2|]. split; [exact order_312|].
  exact (completion_document_records_etags scripted ten_bytes "b" "k" 4 4 [3; 1; 2]
           (initial []) H1 H2 order_312 _ (or_intror eq_refl)).
Defined.

(** ** What a download writes *)

Lemma accepted_bodies_app (tr1 tr2 : list (Call * Response)) :
  accepted_bodies (tr1 ++ tr2) = accepted_bodies tr1 ++ accepted_bodies tr2.
Proof. unfold accepted_bodies. by rewrite List.filter_app, map_app. Qed.

Section SequentialContent.
Context {World : Type} (service : Call -> World -> Response * World).
Implicit Types st : State World.
Variables (bucket key : string) (file_size chunk_size : Z).
Hypothesis chunk_pos : 0 < chunk_size.

Lemma download_chunks_unfold fuel k st :
  0 <= k < chunk_count file_size chunk_size ->
  download_chunks service (S fuel) bucket key file_size chunk_size
    (Z.min (k * chunk_size) file_size) st
  = let call := range_call bucket key file_size chunk_size k in
    let r := (service call (world st)).1 in
    let st1 := {| world := (service call (world st)).2;
                  trace := trace st ++ [(call, r)];
                  local_file := local_file st |} in
    if range_status_ok (status_code r)
    then download_chunks service fuel bucket key file_size chunk_size
           (Z.min ((k + 1) * chunk_size) file_size)
           (append_local_file (content r) st1)
    else Some (false, st1).
Proof.
  intros Hk.
  pose proof (chunk_count_bounds file_size chunk_size chunk_pos) as Hn.
  assert (Z.min (k * chunk_size) file_size = k * chunk_size) as -> by nia.
  simpl. assert ((k * chunk_size <? file_size) = true) as -> by (apply Z.ltb_lt; nia).
  rewrite make_s3_request_eq. cbv zeta.
  fold (chunk_range file_size chunk_size k).2.
  change (Build_Call "GET" bucket key [] DataNone _)
    with (range_call bucket key file_size chunk_size k).
  destruct (range_status_ok _); simpl; [|done].
  by assert (Z.min (k * chunk_size + chunk_size - 1) (file_size - 1) + 1
             = Z.min ((k + 1) * chunk_size) file_size) as -> by lia.
Qed.

Lemma download_chunks_done fuel st :
  download_chunks service fuel bucket key file_size chunk_size
    (Z.min (chunk_count file_size chunk_size * chunk_size) file_size) st
  = Some (true, st).
Proof.
  pose proof (chunk_count_bounds file_size chunk_size chunk_pos) as Hn.
  assert (Z.min (chunk_count file_size chunk_size * chunk_size) file_size = file_size)
    as -> by lia.
  destruct fuel; simpl; by rewrite Z.ltb_irrefl.
Qed.

(** The sequential loop appends to the file the bodies of the fetches it
    accepts, in order, and nothing else. *)
Lemma download_chunks_content fuel : forall k st written,
  0 <= k <= chunk_count file_size chunk_size ->
  (Z.to_nat (chunk_count file_size chunk_size - k) <= fuel)%nat ->
  local_file st = Some written ->
  exists ok st' new,
    download_chunks service fuel bucket key file_size chunk_size
      (Z.min (k * chunk_size) file_size) st = Some (ok, st')
    /\ trace st' = trace st ++ new
    /\ local_file st' = Some (written ++ concat (accepted_bodies new)).
Proof.
  induction fuel as [|fuel IH]; intros k st written Hk Hfuel Hfile.
  - assert (k = chunk_count file_size chunk_size) as -> by lia.
    rewrite download_chunks_done. exists true, st, []. by rewrite !app_nil_r.
  - destruct (decide (k = chunk_count file_size chunk_size)) as [->|Hlt].
    { rewrite download_chunks_done. exists true, st, []. by rewrite !app_nil_r. }
    rewrite download_chunks_unfold by lia. cbv zeta.
    set (call := range_call bucket key file_size chunk_size k).
    set (r := (service call (world st)).1).
    destruct (range_status_ok (status_code r)) eqn:Hok.
    + match goal with |- context [download_chunks _ _ _ _ _ _ _ ?s] =>
        destruct (IH (k + 1) s (written ++ content r) ltac:(lia) ltac:(lia))
          as (ok & st' & new & -> & Htr & Hfile') end.
      { unfold append_local_file. cbn [local_file set_local_file]. by rewrite Hfile. }
      exists ok, st', ((call, r) :: new). split; [done|]. rewrite Htr.
      cbn [trace append_local_file set_local_file]. rewrite <- app_assoc.
      split; [done|]. rewrite Hfile'. unfold accepted_bodies. simpl.
      fold r. rewrite Hok. simpl. by rewrite <- app_assoc.
    + eexists false, _, [(call, r)]. split; [done|]. split; [done|].
      cbn [local_file]. unfold accepted_bodies. simpl. fold r. rewrite Hok.
      simpl. by rewrite app_nil_r.
Qed.
End SequentialContent.

(** X5. When the sequential download returns, with success or not, the
    destination file holds exactly the bodies of the range fetches that
    were accepted, in the order fetched: what the file held before is
    gone, and after a refused fetch the bodies written so far remain. *)
Theorem chunked_download_file_content {World : Type}
    (service : Call -> World -> Response * World)
    (bucket key : string) (file_size chunk_size : Z) (fuel : nat)
    (st : State World) :
  0 <= file_size ->
  0 < chunk_size ->
  (Z.to_nat (chunk_count file_size chunk_size) <= fuel)%nat ->
  exists ok st' new,
    download_file_chunked service fuel bucket key file_size chunk_size st
    = Some (ok, st')
    /\ trace st' = trace st ++ new
    /\ local_file st' = Some (concat (accepted_bodies new)).
Proof.
  intros HS HC Hfuel. unfold download_file_chunked.
  pose proof (chunk_count_nonneg file_size chunk_size HC HS) as Hn.
  destruct (download_chunks_content service bucket key file_size chunk_size HC fuel 0
              (set_local_file (Some []) st) [] ltac:(lia)
              ltac:(by rewrite Z.sub_0_r) eq_refl)
    as (ok & st' & new & Hrun & Htr & Hfile).
  assert (Z.min (0 * chunk_size) file_size = 0) as E by lia. rewrite E in Hrun.
  by exists ok, st', new.
Qed.

Lemma chunked_download_file_content_witness :
  0 <= 10 /\ 0 < 4 /\ (Z.to_nat (chunk_count 10 4) <= 3)%nat
  /\ exists ok st' new,
      download_file_chunked scripted 3 "b" "k" 10 4 (initial [200; 403])
      = Some (ok, st')
      /\ trace st' = trace (initial [200; 403]) ++ new
      /\ local_file st' = Some (concat (accepted_bodies new)).
Proof.
  assert (0 <= 10) as H1 by lia. assert (0 < 4) as H2 by lia.
  assert (Z.to_nat (chunk_count 10 4) <= 3)%nat as H3 by (vm_compute; lia).
  split; [exact H1|]. split; [exact H2|]. split; [exact H3|].
  exact (chunked_download_file_content scripted "b" "k" 10 4 3 (initial [200; 403])
           H1 H2 H3).
Defined.

(** ** Downloading what the service holds *)

Section Serving.
Context {World : Type} (service : Call -> World -> Response * World).
Implicit Types st : State World.
Variables (object : list byte) (bucket key : string) (chunk_size : Z).
Hypothesis chunk_pos : 0 < chunk_size.
Hypothesis service_serves : serves service object bucket key chunk_size.

Lemma object_range_chunk i :
  0 <= i < chunk_count (Z.of_nat (length object)) chunk_size ->
  object_range object
    (chunk_range (Z.of_nat (length object)) chunk_size i).1
    (chunk_range (Z.of_nat (length object)) chunk_size i).2
  = take (Z.to_nat chunk_size) (drop (Z.to_nat (i * chunk_size)) object).
Proof.
  intros Hi.
  pose proof (chunk_count_bounds (Z.of_nat (length object)) chunk_size chunk_pos) as Hn.
  unfold object_range. rewrite chunk_range_eq. cbn [fst snd].
  destruct (decide ((i + 1) * chunk_size <= Z.of_nat (length object))) as [Hle|Hgt].
  - f_equal. lia.
  - rewrite !take_ge; [done| |]; rewrite length_drop; nia.
Qed.


Lemma download_chunks_serves fuel : forall k st written,
  0 <= k <= chunk_count (Z.of_nat (length object)) chunk_size ->
  (Z.to_nat (chunk_count (Z.of_nat (length object)) chunk_size - k) <= fuel)%nat ->
  local_file st = Some written ->
  exists st',
    download_chunks service fuel bucket key (Z.of_nat (length object)) chunk_size
      (Z.min (k * chunk_size) (Z.of_nat (length object))) st = Some (true, st')
    /\ local_file st' = Some (written ++ drop (Z.to_nat (k * chunk_size)) object).
Proof.
  pose proof (chunk_count_bounds (Z.of_nat (length object)) chunk_size chunk_pos) as Hn.
  induction fuel as [|fuel IH]; intros k st written Hk Hfuel Hfile.
  - assert (k = chunk_count (Z.of_nat (length object)) chunk_size) as -> by lia.
    rewrite download_chunks_done by done. exists st.
    split; [done|]. rewrite drop_ge, app_nil_r; [done|lia].
  - destruct (decide (k = chunk_count (Z.of_nat (length object)) chunk_size))
      as [->|Hlt].
    { rewrite download_chunks_done by done. exists st.
      split; [done|]. rewrite drop_ge, app_nil_r; [done|lia]. }
    rewrite download_chunks_unfold by (done || lia). cbv zeta.
    destruct (service_serves k (world st) ltac:(lia)) as [Hok Hcontent].
    rewrite Hok, Hcontent, object_range_chunk by lia.
    match goal with |- context [download_chunks _ _ _ _ _ _ _ ?s] =>
      destruct (IH (k + 1) s
                  (written ++ take (Z.to_nat chunk_size)
                                (drop (Z.to_nat (k * chunk_size)) object))
                  ltac:(lia) ltac:(lia))
        as (st' & -> & Hfile') end.
    { unfold append_local_file. cbn [local_file set_local_file]. by rewrite Hfile. }
    exists st'. split; [done|]. rewrite Hfile', <- app_assoc. do 2 f_equal.
    replace (Z.to_nat ((k + 1) * chunk_size))
      with (Z.to_nat (k * chunk_size) + Z.to_nat chunk_size)%nat by nia.
    rewrite <- drop_drop. apply take_drop.
Qed.




End Serving.

(** X6. Round trip of the sequential download: from a service that holds
    an object and answers each range request with the bytes of that range,
    the chunked download reports success and leaves in the destination file
    exactly the object, whatever the positive chunk size. *)
Theorem chunked_download_round_trip {World : Type}
    (service : Call -> World -> Response * World)
    (object : list byte) (bucket key : string) (chunk_size : Z) (fuel : nat)
    (st : State World) :
  0 < chunk_size ->
  serves service object bucket key chunk_size ->
  (Z.to_nat (chunk_count (Z.of_nat (length object)) chunk_size) <= fuel)%nat ->
  exists st',
    download_file_chunked service fuel bucket key (Z.of_nat (length object))
      chunk_size st = Some (true, st')
    /\ local_file st' = Some object.
Proof.
  intros HC Hserves Hfuel. unfold download_file_chunked.
  pose proof (chunk_count_nonneg (Z.of_nat (length object)) chunk_size HC
                ltac:(lia)) as Hn.
  destruct (download_chunks_serves service object bucket key chunk_size HC Hserves
              fuel 0 (set_local_file (Some []) st) [] ltac:(lia)
              ltac:(by rewrite Z.sub_0_r) eq_refl)
    as (st' & Hrun & Hfile).
  assert (Z.min (0 * chunk_size) (Z.of_nat (length object)) = 0) as E by lia.
  rewrite E in Hrun. by exists st'.
Qed.


(** A service holding ten bytes, and the downloads from it. *)
Lemma range_server_serves : serves range_server ten_bytes "b" "k" 4.
Proof.
  intros i w Hi. change (chunk_count (Z.of_nat (length ten_bytes)) 4) with 3 in Hi.
  assert (i = 0 \/ i = 1 \/ i = 2) as [-> | [-> | ->]] by lia; by vm_compute.
Defined.

Lemma chunked_download_round_trip_witness :
  0 < 4 /\ serves range_server ten_bytes "b" "k" 4
  /\ (Z.to_nat (chunk_count (Z.of_nat (length ten_bytes)) 4) <= 3)%nat
  /\ exists st',
      download_file_chunked range_server 3 "b" "k" (Z.of_nat (length ten_bytes)) 4
        {| world := tt; trace := []; local_file := None |} = Some (true, st')
      /\ local_file st' = Some ten_bytes.
Proof.
  assert (0 < 4) as H1 by lia.
  assert (Z.to_nat (chunk_count (Z.of_nat (length ten_bytes)) 4) <= 3)%nat as H3
    by (vm_compute; lia).
  split; [exact H1|]. split; [exact range_server_serves|]. split; [exact H3|].
  exact (chunked_download_round_trip range_server ten_bytes "b" "k" 4 3
           {| world := tt; trace := []; local_file := None |}
           H1 range_server_serves H3).
Defined.


(** ** Strings cut and joined *)

Lemma append_cons c (a b : string) : String c a +:+ b = String c (a +:+ b).
Proof. reflexivity. Qed.

Lemma append_nil (b : string) : "" +:+ b = b.
Proof. reflexivity. Qed.

Lemma list_ascii_of_append (a b : string) :
  list_ascii_of_string (a +:+ b) = list_ascii_of_string a ++ list_ascii_of_string b.
Proof.
  induction a as [|c a IH]; [done|].
  rewrite append_cons. simpl. by rewrite IH.
Qed.

Lemma concat_cons_cons sep x y (l : list string) :
  String.concat sep (x :: y :: l) = x +:+ sep +:+ String.concat sep (y :: l).
Proof. reflexivity. Qed.

Lemma concat_append_head sep a x (l : list string) :
  String.concat sep ((a +:+ x) :: l) = a +:+ String.concat sep (x :: l).
Proof. destruct l; simpl; by rewrite ?append_assoc. Qed.

Lemma map_chars_cons f c s : map_chars f (String c s) = f c +:+ map_chars f s.
Proof. unfold map_chars. simpl list_ascii_of_string. cbn [map]. apply concat_empty_cons. Qed.

Lemma split_free sep (a : string) : free_of sep a -> split sep a = [a].
Proof.
  unfold free_of. induction a as [|c a IH]; [done|].
  simpl. rewrite not_elem_of_cons. intros [Hc Ha].
  destruct (Ascii.eqb_spec c sep) as [->|_]; [done|]. by rewrite IH.
Qed.

Lemma split_free_sep sep (a s : string) :
  free_of sep a -> split sep (a +:+ String sep s) = a :: split sep s.
Proof.
  unfold free_of. induction a as [|c a IH].
  - intros _. rewrite append_nil. simpl. by rewrite Ascii.eqb_refl.
  - simpl list_ascii_of_string. rewrite not_elem_of_cons. intros [Hc Ha].
    rewrite append_cons. simpl.
    destruct (Ascii.eqb_spec c sep) as [->|_]; [done|]. by rewrite IH.
Qed.

Lemma split_concat sep (l : list string) :
  l <> [] -> Forall (free_of sep) l ->
  split sep (String.concat (String sep "") l) = l.
Proof.
  induction l as [|x l IH]; [done|]. intros _ Hall.
  apply Forall_cons in Hall as [Hx Hl].
  destruct l as [|y l]; [by apply split_free|].
  rewrite concat_cons_cons, append_cons, append_nil.
  rewrite split_free_sep by done. f_equal. by apply IH.
Qed.

Lemma split_once_free sep (k v : string) :
  free_of sep k -> split_once sep (k +:+ String sep v) = Some (k, v).
Proof.
  unfold free_of. induction k as [|c k IH].
  - intros _. rewrite append_nil. simpl. by rewrite Ascii.eqb_refl.
  - simpl list_ascii_of_string. rewrite not_elem_of_cons. intros [Hc Hk].
    rewrite append_cons. simpl.
    destruct (Ascii.eqb_spec c sep) as [->|_]; [done|]. by rewrite IH.
Qed.

(** ** The key in the URL *)

Lemma quote_cons c s : quote (String c s) = quote_char c +:+ quote s.
Proof. apply map_chars_cons. Qed.

Lemma encoded_key_eq key : encoded_key key = map_chars key_char key.
Proof.
  unfold encoded_key. induction key as [|c key IH]; [done|].
  rewrite map_chars_cons, <- IH. unfold key_char.
  pose proof (split_not_nil "/" key) as Hne.
  cbn [split]. destruct (Ascii.eqb c "/") eqn:E.
  - cbn [map]. change (quote "") with "".
    destruct (split "/" key); [done|]. reflexivity.
  - destruct (split "/" key) as [|w ws]; [done|].
    cbn [map]. rewrite quote_cons. apply concat_append_head.
Qed.

Lemma quote_char_safeb c :
  forallb (fun c' => always_safe c' || Ascii.eqb c' "%")
    (list_ascii_of_string (quote_char c)) = true.
Proof. destruct c as [[] [] [] [] [] [] [] []]; by vm_compute. Qed.

Lemma quote_char_safe c :
  Forall (fun c' => always_safe c' = true \/ c' = "%"%char)
    (list_ascii_of_string (quote_char c)).
Proof.
  apply Forall_forall. intros c' Hc'%list_elem_of_In.
  pose proof (proj1 (forallb_forall _ _) (quote_char_safeb c) c' Hc') as H.
  apply orb_true_iff in H as [H|H%Ascii.eqb_eq]; by (left + right).
Qed.

Lemma quote_char_unreserved c : always_safe c = true -> quote_char c = String c "".
Proof. intros H. unfold quote_char. by rewrite H. Qed.

(** X8. In the URL, the slashes of the key stay path separators and every
    other character is percent-encoded on its own: the encoded key has only
    unreserved characters, slashes and percent signs, and a key made of
    unreserved characters and slashes is sent as it is. *)
Theorem key_encoding_keeps_slashes (key : string) :
  encoded_key key = map_chars key_char key
  /\ Forall (fun c => always_safe c = true \/ c = "/"%char \/ c = "%"%char)
       (list_ascii_of_string (encoded_key key))
  /\ (Forall (fun c => always_safe c = true \/ c = "/"%char)
        (list_ascii_of_string key) ->
      encoded_key key = key).
Proof.
  split; [apply encoded_key_eq|]. rewrite encoded_key_eq. split.
  - induction key as [|c key IH]; [constructor|].
    rewrite map_chars_cons, list_ascii_of_append. apply Forall_app. split; [|done].
    unfold key_char. destruct (Ascii.eqb_spec c "/") as [->|_].
    + simpl. constructor; [right; by left|constructor].
    + eapply Forall_impl; [apply quote_char_safe|]. intros c' [H| ->]; auto.
  - induction key as [|c key IH]; [done|].
    simpl list_ascii_of_string. intros [Hc Hkey]%Forall_cons.
    rewrite map_chars_cons, IH by done. unfold key_char.
    destruct (Ascii.eqb_spec c "/") as [->|Hne]; [done|].
    destruct Hc as [Hc|Hc]; [|done]. by rewrite quote_char_unreserved.
Qed.

Lemma key_encoding_keeps_slashes_witness :
  Forall (fun c => always_safe c = true \/ c = "/"%char)
    (list_ascii_of_string "dir/file-1.txt")
  /\ encoded_key "dir/file-1.txt" = "dir/file-1.txt"
  /\ encoded_key "dir/a b.txt" = "dir/a%20b.txt".
Proof.
  assert (Forall (fun c => always_safe c = true \/ c = "/"%char)
            (list_ascii_of_string "dir/file-1.txt")) as H.
  { apply Forall_forall. intros c Hc%list_elem_of_In.
    assert (forallb (fun c => always_safe c || Ascii.eqb c "/")
              (list_ascii_of_string "dir/file-1.txt") = true) as Hb by by vm_compute.
    pose proof (proj1 (forallb_forall _ _) Hb c Hc) as Hc'.
    apply orb_true_iff in Hc' as [?|?%Ascii.eqb_eq]; by (left + right). }
  split; [exact H|]. split.
  - exact (proj2 (proj2 (key_encoding_keeps_slashes "dir/file-1.txt")) H).
  - by vm_compute.
Defined.

(** ** The query string built and parsed back *)

Lemma free_of_append c (a b : string) :
  free_of c a -> free_of c b -> free_of c (a +:+ b).
Proof.
  unfold free_of. rewrite list_ascii_of_append, elem_of_app. tauto.
Qed.

Lemma query_token_free (kv : string * string) :
  free_of "&" kv.1 -> free_of "&" kv.2 -> free_of "&" (kv.1 +:+ "=" +:+ kv.2).
Proof.
  intros H1 H2. apply free_of_append; [done|]. apply free_of_append; [|done].
  unfold free_of. simpl. rewrite list_elem_of_singleton. discriminate.
Qed.

Lemma query_string_not_empty (params : items) :
  params <> [] -> String.eqb (query_string params) "" = false.
Proof.
  destruct params as [|[k v] params]; [done|]. intros _.
  apply String.eqb_neq. unfold query_string. cbn [map fst snd].
  intros H. apply (f_equal list_ascii_of_string) in H.
  destruct params as [|kv params]; cbn [map String.concat] in H;
    rewrite !list_ascii_of_append in H; simpl in H;
    by apply app_eq_nil in H as [_ H].
Qed.

(** X9. The query string that [make_s3_request] appends to the URL is read
    back by the signer as the very parameters given, when no name holds [&]
    or [=] and no value holds [&]: the pairs parsed are the parameters in
    order, and the dictionary signed is the one they define. *)
Theorem query_string_round_trip (params : items) :
  params <> [] ->
  Forall (fun kv => free_of "&" kv.1 /\ free_of "=" kv.1 /\ free_of "&" kv.2) params ->
  query_pairs (query_string params) = params
  /\ query_params (query_string params) = dict_of_items params.
Proof.
  intros Hne Hall.
  assert (query_pairs (query_string params) = params) as Hpairs.
  { unfold query_pairs. rewrite query_string_not_empty by done.
    unfold query_string. rewrite split_concat.
    - rewrite map_map. rewrite <- (map_id params) at 2. apply map_ext_Forall.
      eapply Forall_impl; [exact Hall|]. intros [k v] (_ & Hk & _). simpl.
      unfold param_pair. change (k +:+ "=" +:+ v) with (k +:+ String "=" v).
      by rewrite split_once_free.
    - by destruct params.
    - apply Forall_map. eapply Forall_impl; [exact Hall|].
      intros kv (H1 & _ & H2). by apply query_token_free. }
  split; [done|]. by rewrite query_params_eq, Hpairs.
Qed.

Lemma example_params_plain :
  Forall (fun kv : string * string =>
            free_of "&" kv.1 /\ free_of "=" kv.1 /\ free_of "&" kv.2)
    (params example_call).
Proof.
  unfold free_of, example_call. cbn [params].
  repeat (apply Forall_cons_2; [repeat split; simpl; apply (bool_decide_unpack _); vm_compute; exact I|]).
  apply Forall_nil_2.
Defined.

Lemma query_string_round_trip_witness :
  params example_call <> []
  /\ Forall (fun kv => free_of "&" kv.1 /\ free_of "=" kv.1 /\ free_of "&" kv.2)
       (params example_call)
  /\ query_string (params example_call) = "partNumber=1&uploadId=x"
  /\ query_pairs "partNumber=1&uploadId=x" = params example_call
  /\ query_params "partNumber=1&uploadId=x" = dict_of_items (params example_call).
Proof.
  assert (params example_call <> []) as Hne by discriminate.
  split; [exact Hne|]. split; [exact example_params_plain|]. split; [reflexivity|].
  exact (query_string_round_trip (params example_call) Hne example_params_plain).
Defined.

(** ** The signer and its headers *)

Lemma date_header_is_Some (headers : items) :
  is_Some (normalized_headers headers !! "x-amz-date")
  <-> Exists (fun kv => lower kv.1 = "x-amz-date") headers.
Proof.
  rewrite <- elem_of_sorted_keys, elem_of_header_names, Exists_exists. done.
Qed.

Lemma sign_request_v4_is_Some (urlparse : string -> ParseResult)
    (method url region service : string) (headers : items) (data : Data)
    (access_key secret_key : string) :
  is_Some (sign_request_v4 urlparse method url region service headers data
             access_key secret_key)
  <-> Exists (fun kv => lower kv.1 = "x-amz-date") headers.
Proof.
  rewrite <- date_header_is_Some. unfold sign_request_v4.
  destruct (normalized_headers headers !! "x-amz-date"); split; intros [? ?]; by eexists.
Qed.

(** X10. The signer fails, with the [KeyError] of its date lookup, exactly
    when no header name is [x-amz-date] up to the case of its letters;
    otherwise it returns an authorization value. *)
Theorem signer_raises_iff_no_date_header (urlparse : string -> ParseResult)
    (method url region service : string) (headers : items) (data : Data)
    (access_key secret_key : string) :
  sign_request_v4 urlparse method url region service headers data
    access_key secret_key = None
  <-> Forall (fun kv => lower kv.1 <> "x-amz-date") headers.
Proof.
  rewrite eq_None_not_Some, sign_request_v4_is_Some.
  symmetry. apply Forall_Exists_neg.
Qed.

Lemma normalized_headers_perm (h1 h2 : items) :
  NoDup (map fst (header_pairs h1)) ->
  header_pairs h1 ≡ₚ header_pairs h2 ->
  normalized_headers h1 = normalized_headers h2.
Proof.
  intros Hnd Hperm. rewrite !normalized_headers_eq. by apply dict_of_items_perm.
Qed.

(** X11. Neither the order of the headers nor the case of their names
    reaches the signature: two header sets that are the same once the names
    are lowercased, no name occurring twice, give the same canonical request
    and the same authorization value. *)
Theorem signature_ignores_header_order_and_case (urlparse : string -> ParseResult)
    (method url region service : string) (h1 h2 : items) (data : Data)
    (access_key secret_key : string) :
  NoDup (map fst (header_pairs h1)) ->
  header_pairs h1 ≡ₚ header_pairs h2 ->
  canonical_request urlparse method url h1 data
  = canonical_request urlparse method url h2 data
  /\ sign_request_v4 urlparse method url region service h1 data access_key secret_key
     = sign_request_v4 urlparse method url region service h2 data access_key secret_key.
Proof.
  intros Hnd Hperm.
  pose proof (normalized_headers_perm h1 h2 Hnd Hperm) as E.
  assert (canonical_request urlparse method url h1 data
          = canonical_request urlparse method url h2 data) as Ecr.
  { unfold canonical_request. by rewrite E. }
  split; [done|]. unfold sign_request_v4. by rewrite Ecr, E.
Qed.

Lemma vanilla_names_distinct : NoDup (map fst (header_pairs vanilla_headers)).
Proof.
  change (NoDup ["host"; "x-amz-date"]).
  apply NoDup_cons_2; [|apply NoDup_singleton].
  intros H%list_elem_of_singleton. discriminate H.
Defined.

Lemma vanilla_reordered :
  header_pairs vanilla_headers
  ≡ₚ header_pairs [("x-amz-date", "20150830T123600Z"); ("HOST", "example.amazonaws.com")].
Proof. apply perm_swap. Defined.

Lemma signature_ignores_header_order_and_case_witness :
  NoDup (map fst (header_pairs vanilla_headers))
  /\ header_pairs vanilla_headers
     ≡ₚ header_pairs [("x-amz-date", "20150830T123600Z"); ("HOST", "example.amazonaws.com")]
  /\ sign_request_v4 urlparse_http "GET" "https://example.amazonaws.com/"
       "us-east-1" "service" vanilla_headers DataNone "AKIDEXAMPLE" vanilla_secret
     = sign_request_v4 urlparse_http "GET" "https://example.amazonaws.com/"
         "us-east-1" "service"
         [("x-amz-date", "20150830T123600Z"); ("HOST", "example.amazonaws.com")]
         DataNone "AKIDEXAMPLE" vanilla_secret.
Proof.
  split; [exact vanilla_names_distinct|]. split; [exact vanilla_reordered|].
  exact (proj2 (signature_ignores_header_order_and_case urlparse_http "GET"
                  "https://example.amazonaws.com/" "us-east-1" "service"
                  vanilla_headers _ DataNone "AKIDEXAMPLE" vanilla_secret
                  vanilla_names_distinct vanilla_reordered)).
Defined.

(** ** The prepared request *)

Lemma elem_of_dict_set k v (d : items) : (k, v) ∈ dict_set k v d.
Proof.
  induction d as [|kv d IH]; simpl; [by left|].
  destruct (String.eqb_spec kv.1 k) as [->|_]; [by left|by right].
Qed.

Lemma elem_of_dict_set_other k v (d : items) kv :
  kv ∈ d -> kv.1 <> k -> kv ∈ dict_set k v d.
Proof.
  intros Hin Hne. induction d as [|kv' d IH]; simpl; [by apply elem_of_nil in Hin|].
  apply elem_of_cons in Hin as [->|Hin].
  - destruct (String.eqb_spec kv'.1 k); [done|by left].
  - destruct (String.eqb_spec kv'.1 k) as [->|_]; right; [done|by apply IH].
Qed.

Lemma dict_set_names k v (d : items) name :
  name ∈ map fst (dict_set k v d) <-> name = k \/ name ∈ map fst d.
Proof.
  induction d as [|kv d IH]; simpl.
  { rewrite list_elem_of_singleton. split; [by left|]. intros [?|?%elem_of_nil]; done. }
  destruct (String.eqb_spec kv.1 k) as [E|Hne]; simpl.
  - rewrite !elem_of_cons. rewrite E. tauto.
  - rewrite !elem_of_cons, IH. tauto.
Qed.

Section PreparedRequest.
Context (urlparse : string -> ParseResult) (netloc : string -> string).
Variables (profile : gmap string string) (amz_date : string) (call : Call).

#[local] Abbreviation url :=
  (request_url profile (bucket call) (key call) (params call)).
#[local] Abbreviation sent :=
  (dict_set "x-amz-content-sha256" (payload_hash (data call))
     (dict_set "host" (netloc url)
        (dict_set "x-amz-date" amz_date (headers call)))).

Lemma sent_has_date : Exists (fun kv => lower kv.1 = "x-amz-date") sent.
Proof.
  apply Exists_exists. exists ("x-amz-date", amz_date). split; [|done].
  apply elem_of_dict_set_other; [|done].
  apply elem_of_dict_set_other; [|done]. apply elem_of_dict_set.
Qed.

Lemma signed_request_eq :
  signed_request urlparse netloc profile amz_date call
  = match profile !! "aws_access_key_id", profile !! "aws_secret_access_key" with
    | Some access_key, Some secret_key =>
        match sign_request_v4 urlparse (method call) url
                (profile_get profile "region" "us-east-1") "s3" sent (data call)
                access_key secret_key with
        | Some auth => Some (url, dict_set "Authorization" auth sent)
        | None => None
        end
    | _, _ => None
    end.
Proof.
  unfold signed_request.
  by destruct (profile !! "aws_access_key_id"), (profile !! "aws_secret_access_key").
Qed.

Lemma signed_request_cases :
  match profile !! "aws_access_key_id", profile !! "aws_secret_access_key" with
  | Some access_key, Some secret_key =>
      exists auth,
        sign_request_v4 urlparse (method call) url
          (profile_get profile "region" "us-east-1") "s3" sent (data call)
          access_key secret_key = Some auth
        /\ signed_request urlparse netloc profile amz_date call
           = Some (url, dict_set "Authorization" auth sent)
  | _, _ => signed_request urlparse netloc profile amz_date call = None
  end.
Proof.
  rewrite signed_request_eq.
  destruct (profile !! "aws_access_key_id") as [access_key|]; [|done].
  destruct (profile !! "aws_secret_access_key") as [secret_key|]; [|done].
  destruct (proj2 (sign_request_v4_is_Some urlparse (method call) url
                     (profile_get profile "region" "us-east-1") "s3" sent (data call)
                     access_key secret_key) sent_has_date) as [auth Hauth].
  exists auth. by rewrite Hauth.
Qed.
End PreparedRequest.

(** X12. [make_s3_request] never trips over the signer's date lookup: it
    raises before sending only when the profile lacks a credential.
    Otherwise the request goes to the URL built from the profile, bucket,
    key and parameters, and carries the clock's date, the host, the payload
    hash and every other header of the caller, together with an
    [Authorization] value that the signer computed over all of them: every
    header sent, [Authorization] aside, is in the signed list. *)
Theorem make_s3_request_raises_only_without_credentials
    (urlparse : string -> ParseResult) (netloc : string -> string)
    (profile : gmap string string) (amz_date : string) (call : Call) :
  let url := request_url profile (bucket call) (key call) (params call) in
  (signed_request urlparse netloc profile amz_date call = None
   <-> profile !! "aws_access_key_id" = None
       \/ profile !! "aws_secret_access_key" = None)
  /\ forall url' hs,
       signed_request urlparse netloc profile amz_date call = Some (url', hs) ->
       url' = url
       /\ ("x-amz-date", amz_date) ∈ hs
       /\ ("host", netloc url) ∈ hs
       /\ ("x-amz-content-sha256", payload_hash (data call)) ∈ hs
       /\ (forall kv, kv ∈ headers call ->
             kv.1 ∉ ["x-amz-date"; "host"; "x-amz-content-sha256"; "Authorization"] ->
             kv ∈ hs)
       /\ exists hs0 access_key secret_key auth,
            profile !! "aws_access_key_id" = Some access_key
            /\ profile !! "aws_secret_access_key" = Some secret_key
            /\ sign_request_v4 urlparse (method call) url
                 (profile_get profile "region" "us-east-1") "s3" hs0 (data call)
                 access_key secret_key = Some auth
            /\ hs = dict_set "Authorization" auth hs0
            /\ ("Authorization", auth) ∈ hs
            /\ forall name, name ∈ map fst hs -> name <> "Authorization" ->
                 lower name ∈ sorted_keys (normalized_headers hs0).
Proof.
  intros url.
  pose proof (signed_request_cases urlparse netloc profile amz_date call) as Hcases.
  fold url in Hcases.
  destruct (profile !! "aws_access_key_id") as [access_key|] eqn:Ha;
    [destruct (profile !! "aws_secret_access_key") as [secret_key|] eqn:Hs|].
  - destruct Hcases as (auth & Hauth & Hreq). rewrite Hreq. split.
    { split; [done|]. by intros [?|?]. }
    intros url' hs [= <- <-]. split; [done|].
    split; [|split; [|split; [|split]]].
    + repeat (apply elem_of_dict_set_other; [|done]). apply elem_of_dict_set.
    + repeat (apply elem_of_dict_set_other; [|done]). apply elem_of_dict_set.
    + apply elem_of_dict_set_other; [|done]. apply elem_of_dict_set.
    + intros kv Hin Hnot. rewrite !not_elem_of_cons in Hnot.
      destruct Hnot as (H1 & H2 & H3 & H4 & _).
      by repeat (apply elem_of_dict_set_other; [|done]).
    + eexists _, access_key, secret_key, auth.
      split; [done|]. split; [done|]. split; [exact Hauth|]. split; [done|].
      split; [apply elem_of_dict_set|].
      intros name Hin Hne. apply dict_set_names in Hin as [->|Hin]; [done|].
      apply elem_of_header_names.
      apply list_elem_of_fmap in Hin as (kv & -> & Hin). by exists kv.
  - rewrite Hcases. split; [split; [intros _; by right|done]|]. by intros ? ? [=].
  - assert (signed_request urlparse netloc profile amz_date call = None) as ->.
    { by destruct (profile !! "aws_secret_access_key"). }
    split; [split; [intros _; by left|done]|]. by intros ? ? [=].
Qed.

Lemma make_s3_request_raises_only_without_credentials_witness :
  exists hs,
    signed_request urlparse_http netloc_http example_profile "20240101T000000Z"
      example_call
    = Some ("https://s3.example.com/bucket/dir/a%20b.txt?partNumber=1&uploadId=x", hs)
    /\ ("x-amz-date", "20240101T000000Z") ∈ hs
    /\ ("host", "s3.example.com") ∈ hs
    /\ ("Content-Length", "10") ∈ hs.
Proof.
  destruct (signed_request urlparse_http netloc_http example_profile
              "20240101T000000Z" example_call) as [[u hs]|] eqn:E;
    [|by vm_compute in E].
  destruct (proj2 (make_s3_request_raises_only_without_credentials urlparse_http
                     netloc_http example_profile "20240101T000000Z" example_call)
              u hs E) as (Hu & Hdate & Hhost & _ & Hrest & _).
  exists hs. rewrite Hu. split; [reflexivity|]. split; [exact Hdate|].
  split; [exact Hhost|]. apply Hrest; [by left|].
  simpl. rewrite !not_elem_of_cons. repeat split; try discriminate.
  apply not_elem_of_nil.
Defined.

(** ** Chunk sizes that are not positive *)

Lemma download_chunks_stuck {World : Type}
    (service : Call -> World -> Response * World)
    (bucket key : string) (file_size chunk_size : Z) (fuel : nat) :
  chunk_size <= 0 ->
  (forall call w, range_status_ok (status_code (service call w).1) = true) ->
  forall start_byte st,
    start_byte < file_size -> start_byte <= 0 ->
    download_chunks service fuel bucket key file_size chunk_size start_byte st = None.
Proof.
  intros HC Hok. induction fuel as [|fuel IH]; intros start_byte st Hlt Hle.
  - simpl. by apply Z.ltb_lt in Hlt as ->.
  - cbn [download_chunks]. apply Z.ltb_lt in Hlt as Hlt'. rewrite Hlt'.
    rewrite make_s3_request_eq. cbv zeta. rewrite Hok. simpl negb. cbv iota.
    apply IH; lia.
Qed.

(** X13. The sequential download needs a positive chunk size. With a
    chunk size of zero or below and an object that is not empty, the loop
    never advances: as long as the service accepts the range requests, it
    goes on fetching and never returns, whatever the number of steps it is
    given. *)
Theorem chunked_download_never_ends_without_chunk_size {World : Type}
    (service : Call -> World -> Response * World)
    (bucket key : string) (file_size chunk_size : Z) (st : State World) :
  chunk_size <= 0 ->
  0 < file_size ->
  (forall call w, range_status_ok (status_code (service call w).1) = true) ->
  forall fuel,
    download_file_chunked service fuel bucket key file_size chunk_size st = None.
Proof.
  intros HC HS Hok fuel. unfold download_file_chunked.
  by apply download_chunks_stuck; [| |lia|].
Qed.

Lemma chunked_download_never_ends_without_chunk_size_witness :
  0 <= 0 /\ 0 < 10
  /\ (forall call w, range_status_ok (status_code (range_server call w).1) = true)
  /\ download_file_chunked range_server 1000 "b" "k" 10 0
       {| world := tt; trace := []; local_file := None |} = None.
Proof.
  assert (0 <= 0) as H1 by lia. assert (0 < 10) as H2 by lia.
  assert (forall call w, range_status_ok (status_code (range_server call w).1) = true)
    as H3 by done.
  split; [exact H1|]. split; [exact H2|]. split; [exact H3|].
  exact (chunked_download_never_ends_without_chunk_size range_server "b" "k" 10 0
           {| world := tt; trace := []; local_file := None |} H1 H2 H3 1000%nat).
Defined.

(** ** The commands *)

Lemma endswith_slash (s : string) : endswith (s +:+ "/") "/" = true.
Proof.
  unfold endswith.
  assert (String.length (s +:+ "/") = S (String.length s)) as ->.
  { induction s as [|c s IH]; [done|]. rewrite append_cons. simpl. by rewrite IH. }
  change (String.length "/") with 1%nat.
  replace (S (String.length s) - 1)%nat with (String.length s) by lia.
  simpl Nat.leb. cbn [andb]. apply String.eqb_eq.
  induction s as [|c s IH]; [done|]. rewrite append_cons. simpl. exact IH.
Qed.

Lemma folder_key_slash (folder : string) :
  endswith (folder_key folder) "/" = true
  /\ (folder_key folder = folder \/ folder_key folder = folder +:+ "/").
Proof.
  unfold folder_key. destruct (endswith folder "/") eqn:E; simpl.
  - split; [done|by left].
  - split; [apply endswith_slash|by right].
Qed.

Section CommandFacts.
Context {World : Type} (service : Call -> World -> Response * World).
Context (contents : list byte -> list entry).
Implicit Types st : State World.

Lemma delete_loop_calls bucket (keys : list string) : forall st,
  exists answers,
    length answers = length keys
    /\ trace (foldl (fun st key =>
                       (make_s3_request service "DELETE" bucket key [] DataNone [] st).2)
                    st keys)
       = trace st ++ zip (map (delete_call bucket) keys) answers.
Proof.
  induction keys as [|k keys IH]; intros st.
  - exists []. simpl. by rewrite app_nil_r.
  - cbn [foldl]. rewrite make_s3_request_eq. cbn [snd].
    destruct (IH {| world := (service (delete_call bucket k) (world st)).2;
                    trace := trace st ++ [(delete_call bucket k,
                                           (service (delete_call bucket k) (world st)).1)];
                    local_file := local_file st |}) as (answers & Hlen & Htr).
    exists ((service (delete_call bucket k) (world st)).1 :: answers).
    split; [simpl; by rewrite Hlen|].
    unfold delete_call in *. rewrite Htr. cbn [trace map zip zip_with].
    by rewrite <- app_assoc.
Qed.
End CommandFacts.

(** X14. [delete_folder] lists once, with a prefix that ends with a slash
    (the folder name, completed with a slash when it has none), and then
    sends one deletion for each key of that listing, in listing order,
    whether the earlier deletions succeeded or not; when the listing is
    refused it deletes nothing. *)
Theorem delete_folder_deletes_each_listed_key {World : Type}
    (service : Call -> World -> Response * World)
    (contents : list byte -> list entry)
    (folder bucket : string) (st : State World) :
  let listing := listing_call bucket [("prefix", folder_key folder)] in
  let r := (service listing (world st)).1 in
  let keys := if status_code r =? 200
              then map (fun e : entry => e.1.1) (contents (content r)) else [] in
  endswith (folder_key folder) "/" = true
  /\ (folder_key folder = folder \/ folder_key folder = folder +:+ "/")
  /\ exists answers,
       length answers = length keys
       /\ trace (delete_folder service contents folder bucket st)
          = trace st ++ (listing, r) :: zip (map (delete_call bucket) keys) answers.
Proof.
  intros listing r keys.
  destruct (folder_key_slash folder) as [Hslash Hkey].
  split; [done|]. split; [done|].
  unfold delete_folder. rewrite make_s3_request_eq. cbv zeta.
  fold (listing_call bucket [("prefix", folder_key folder)]). fold listing. fold r.
  subst keys. destruct (status_code r =? 200); simpl negb; cbv iota.
  2:{ by exists []. }
  destruct (map _ (contents (content r))) as [|k ks] eqn:E.
  { by exists []. }
  destruct (delete_loop_calls service bucket (k :: ks)
              {| world := (service listing (world st)).2;
                 trace := trace st ++ [(listing, r)];
                 local_file := local_file st |}) as (answers & Hlen & Htr).
  exists answers. split; [done|]. rewrite Htr. cbn [trace]. by rewrite <- app_assoc.
Qed.

(** ** upload_file *)

Lemma put_bodies_app (tr1 tr2 : list (Call * Response)) :
  put_bodies (tr1 ++ tr2) = put_bodies tr1 ++ put_bodies tr2.
Proof. unfold put_bodies. apply omap_app. Qed.

Lemma put_bodies_parts (file : list byte) (bucket key : string) (chunk_size : Z)
    (upload_id : string) (ps : list Z) (tr : list (Call * Response)) :
  map fst tr = map (part_call file bucket key chunk_size upload_id) ps ->
  put_bodies tr = map (part_bytes file chunk_size) ps.
Proof.
  revert ps. induction tr as [|[c r] tr IH]; intros [|p ps]; try done.
  cbn [map fst]. intros [= -> Htr]. unfold put_bodies in *.
  cbn [omap list_omap]. simpl. f_equal. by apply IH.
Qed.

(** X15. [upload_file] sends the file and nothing else, for a positive
    chunk size: a file that needs no multipart upload goes in one [PUT]
    whose body is the file and whose [Content-Length] is its length;
    otherwise the multipart upload runs; and whenever the upload is
    reported successful, the bodies of the [PUT] calls, put together in the
    order sent, are the file. *)
Theorem upload_file_sends_the_file {World : Type}
    (service : Call -> World -> Response * World)
    (fuel : nat) (args : Args) (file : list byte)
    (file_path bucket key : string) (st : State World) :
  0 < chunk_size_bytes args ->
  (Z.to_nat (chunk_count (Z.of_nat (length file)) (chunk_size_bytes args)) < fuel)%nat ->
  exists outcome st' new,
    upload_file service fuel args (Some file) file_path bucket key st
    = Some (outcome, st')
    /\ trace st' = trace st ++ new
    /\ (use_multipart args (Z.of_nat (length file)) = false ->
        exists r,
          new = [(single_put file_path bucket key file, r)]
          /\ outcome = SingleUpload (status_code r =? 200))
    /\ (use_multipart args (Z.of_nat (length file)) = true ->
        exists report, outcome = MultipartUpload report)
    /\ (outcome = SingleUpload true \/ outcome = MultipartUpload UploadSucceeded ->
        concat (put_bodies new) = file).
Proof.
  intros HC Hfuel. unfold upload_file.
  destruct (use_multipart args (Z.of_nat (length file))) eqn:Hmode.
  - destruct (upload_file_multipart_calls service file bucket key
                (chunk_size_bytes args) HC fuel st Hfuel)
      as (report & st' & new & m & Hrun & Htr & Hm & Hcalls & _ & _ & Hdone).
    rewrite Hrun. exists (MultipartUpload report), st', new.
    split; [done|]. split; [done|]. split; [done|]. split; [by eexists|].
    intros [?|[= ->]]; [done|].
    destruct (Hdone ltac:(by left)) as (-> & _ & r2 & Hnew).
    etrans; [apply (f_equal (fun tr => concat (put_bodies tr)) Hnew)|].
    change (?x :: ?l ++ ?y) with ([x] ++ l ++ y).
    rewrite !put_bodies_app.
    rewrite (put_bodies_parts _ _ _ _ _ _ _ Hcalls).
    change (put_bodies [_]) with (@nil (list byte)) at 1.
    change (put_bodies [_]) with (@nil (list byte)).
    rewrite app_nil_l, app_nil_r.
    change 1 with (0 + 1) at 1.
    by rewrite (parts_from file (chunk_size_bytes args) HC 0) by lia.
  - unfold upload_file_single. rewrite make_s3_request_eq. cbv zeta.
    fold (single_put file_path bucket key file).
    eexists _, _, [(single_put file_path bucket key file, _)].
    split; [done|]. split; [done|]. split; [by eexists|]. split; [done|].
    intros _. unfold put_bodies. simpl. apply app_nil_r.
Qed.

Lemma upload_file_sends_the_file_witness :
  let args := {| chunk_size := Some 5; force_multipart := Some true;
                 force_single := None; force_chunked := None |} in
  0 < chunk_size_bytes args
  /\ (Z.to_nat (chunk_count (Z.of_nat (length ten_bytes)) (chunk_size_bytes args)) < 2)%nat
  /\ exists st',
      upload_file scripted 2 args (Some ten_bytes) "digits.txt" "b" "k" (initial [])
      = Some (MultipartUpload UploadSucceeded, st')
      /\ concat (put_bodies (trace st')) = ten_bytes.
Proof.
  intros args.
  assert (0 < chunk_size_bytes args) as H1 by (vm_compute; reflexivity).
  assert (Z.to_nat (chunk_count (Z.of_nat (length ten_bytes)) (chunk_size_bytes args)) < 2)%nat
    as H2 by (vm_compute; lia).
  split; [exact H1|]. split; [exact H2|].
  destruct (upload_file_sends_the_file scripted 2 args ten_bytes "digits.txt" "b" "k"
              (initial []) H1 H2)
    as (outcome & st' & new & Hrun & Htr & _ & _ & Hsent).
  assert (outcome = MultipartUpload UploadSucceeded) as ->.
  { vm_compute in Hrun. by injection Hrun as <- _. }
  exists st'. split; [exact Hrun|]. rewrite Htr. apply Hsent. by right.
Defined.

(** X16. A chunk size of zero makes [upload_file] send no byte of a file
    that is not empty: the multipart upload is chosen, the first read
    returns nothing, and the upload is completed with an empty list of
    parts, the report being that of the completion call. *)
Theorem zero_chunk_size_upload_sends_no_byte {World : Type}
    (service : Call -> World -> Response * World)
    (fuel : nat) (args : Args) (file : list byte)
    (file_path bucket key : string) (st : State World) :
  chunk_size_bytes args = 0 ->
  file <> [] ->
  flag (force_single args) = false ->
  (0 < fuel)%nat ->
  status_code (service (initiate_call bucket key) (world st)).1 = 200 ->
  exists r0 r2 st',
    upload_file service fuel args (Some file) file_path bucket key st
    = Some (MultipartUpload
              (if status_code r2 =? 200 then UploadSucceeded else CompleteFailed), st')
    /\ trace st'
       = trace st ++ [(initiate_call bucket key, r0);
                      (complete_call bucket key (UploadId r0) [], r2)]
    /\ data (complete_call bucket key (UploadId r0) [])
       = DataStr "<CompleteMultipartUpload></CompleteMultipartUpload>"
    /\ put_bodies [(initiate_call bucket key, r0);
                   (complete_call bucket key (UploadId r0) [], r2)] = [].
Proof.
  intros HC Hfile Hsingle Hfuel Hinit. destruct fuel as [|fuel]; [lia|].
  unfold upload_file.
  assert (use_multipart args (Z.of_nat (length file)) = true) as ->.
  { unfold use_multipart. rewrite HC, Hsingle.
    assert ((0 <? Z.of_nat (length file)) = true) as ->.
    { apply Z.ltb_lt. destruct file; [done|simpl; lia]. }
    by destruct (flag (force_multipart args)). }
  rewrite HC. unfold upload_file_multipart. rewrite make_s3_request_eq. cbv zeta.
  fold (initiate_call bucket key).
  set (r0 := (service (initiate_call bucket key) (world st)).1) in *.
  rewrite Hinit. cbn [Z.eqb Pos.eqb negb upload_parts].
  change (file_read 0 0 file) with (Some (take 0 (drop 0 file))). rewrite take_0.
  rewrite complete_upload_eq. cbn [world trace local_file].
  eexists r0, _, _. split; [done|]. cbn [trace]. rewrite <- app_assoc.
  split; [done|]. split; [done|]. done.
Qed.

Lemma zero_chunk_size_upload_sends_no_byte_witness :
  let args := {| chunk_size := Some 0; force_multipart := None;
                 force_single := None; force_chunked := None |} in
  chunk_size_bytes args = 0 /\ ten_bytes <> [] /\ flag (force_single args) = false
  /\ (0 < 1)%nat
  /\ status_code (scripted (initiate_call "b" "k") (world (initial []))).1 = 200
  /\ exists st',
      upload_file scripted 1 args (Some ten_bytes) "digits.txt" "b" "k" (initial [])
      = Some (MultipartUpload UploadSucceeded, st')
      /\ put_bodies (trace st') = [].
Proof.
  intros args.
  assert (chunk_size_bytes args = 0) as H1 by reflexivity.
  assert (ten_bytes <> []) as H2 by discriminate.
  assert (flag (force_single args) = false) as H3 by reflexivity.
  assert (0 < 1)%nat as H4 by lia.
  assert (status_code (scripted (initiate_call "b" "k") (world (initial []))).1 = 200)
    as H5 by reflexivity.
  split; [exact H1|]. split; [exact H2|]. split; [exact H3|]. split; [exact H4|].
  split; [exact H5|].
  destruct (zero_chunk_size_upload_sends_no_byte scripted 1 args ten_bytes
              "digits.txt" "b" "k" (initial []) H1 H2 H3 H4 H5)
    as (r0 & r2 & st' & Hrun & Htr & _ & Hput).
  exists st'. split.
  - assert ((status_code r2 =? 200) = true) as E.
    { destruct (status_code r2 =? 200) eqn:E; [done|].
      try rewrite E in Hrun. vm_compute in Hrun. discriminate Hrun. }
    by rewrite E in Hrun.
  - rewrite Htr. exact Hput.
Defined.

(** ** search_files_paginated *)

Lemma listed_app contents (tr1 tr2 : list (Call * Response)) :
  listed contents (tr1 ++ tr2) = listed contents tr1 ++ listed contents tr2.
Proof. unfold listed. by rewrite map_app, concat_app. Qed.

Lemma limit_not_reached max_results (l : list entry) :
  reached max_results l = false -> limit max_results l = l.
Proof.
  unfold reached, limit. destruct max_results as [m|]; [|done].
  destruct (m =? 0); [done|]. simpl. intros H%Z.leb_gt.
  apply take_ge. lia.
Qed.

Lemma limit_reached max_results (l l' : list entry) :
  reached max_results l = true -> limit max_results (l ++ l') = limit max_results l.
Proof.
  unfold reached, limit. destruct max_results as [m|]; [|done].
  destruct (m =? 0); [done|]. simpl. intros H%Z.leb_le.
  rewrite take_app_le by lia. done.
Qed.

Lemma limit_length max_results (l : list entry) m :
  max_results = Some m -> 0 < m -> Z.of_nat (length (limit max_results l)) <= m.
Proof.
  intros -> Hm. unfold limit.
  assert ((m =? 0) = false) as -> by (apply Z.eqb_neq; lia).
  rewrite length_take. lia.
Qed.

Lemma limit_sublist max_results (l : list entry) (P : entry -> Prop) :
  Forall P l -> Forall P (limit max_results l).
Proof.
  intros H. unfold limit. destruct max_results as [m|]; [|done].
  destruct (m =? 0); [done|]. by apply Forall_take.
Qed.

Section SearchFacts.
Context {World : Type} (service : Call -> World -> Response * World).
Context (contents : list byte -> list entry)
        (is_truncated : list byte -> bool)
        (next_continuation_token : list byte -> option string)
        (match_func : string -> bool).
Variable max_results : option Z.
Hypothesis max_results_natural : forall m, max_results = Some m -> 0 <= m.
Implicit Types st : State World.

#[local] Abbreviation matching := (fun e : entry => match_func e.1.1).

(** A match that fills the list is the last one taken. *)
Lemma reached_snoc (matches : list entry) e :
  reached max_results matches = false ->
  reached max_results (matches ++ [e]) = true ->
  forall rest, limit max_results (matches ++ e :: rest) = matches ++ [e].
Proof.
  unfold reached, limit. destruct max_results as [m|] eqn:E; [|done].
  pose proof (max_results_natural m eq_refl) as Hm.
  destruct (m =? 0); [done|]. simpl. rewrite length_app. simpl.
  intros H1%Z.leb_gt H2%Z.leb_le rest.
  rewrite (cons_middle e matches rest), app_assoc.
  rewrite take_app_le by (rewrite length_app; simpl; lia).
  apply take_ge. rewrite length_app. simpl. lia.
Qed.

Lemma scan_page_spec (page : list entry) : forall matches total,
  reached max_results matches = false ->
  (scan_page match_func max_results page matches total).1
  = limit max_results (matches ++ List.filter matching page)
  /\ total <= (scan_page match_func max_results page matches total).2
           <= total + Z.of_nat (length page).
Proof.
  induction page as [|e rest IH]; intros matches total Hnot.
  - simpl. rewrite app_nil_r. split; [by rewrite limit_not_reached|lia].
  - cbn [scan_page List.filter]. destruct (match_func e.1.1) eqn:Hmatch.
    + destruct (reached max_results (matches ++ [e])) eqn:Hfull.
      * cbn [fst snd]. split; [by rewrite reached_snoc|].
        cbn [length]. lia.
      * destruct (IH (matches ++ [e]) (total + 1) Hfull) as [-> Htotal].
        split; [by rewrite <- app_assoc|]. cbn [length]. lia.
    + destruct (IH matches (total + 1) Hnot) as [-> Htotal].
      split; [done|]. cbn [length]. lia.
Qed.

Lemma limit_full (l : list entry) :
  reached max_results (limit max_results l) = false -> limit max_results l = l.
Proof.
  unfold reached, limit. destruct max_results as [m|] eqn:E; [|done].
  pose proof (max_results_natural m eq_refl) as Hm.
  destruct (m =? 0); [done|]. simpl. rewrite length_take. intros H%Z.leb_gt.
  apply take_ge. lia.
Qed.

Lemma search_pages_spec fuel bucket_name : forall params token matches total st result st',
  reached max_results matches = false ->
  0 <= total ->
  search_pages service contents is_truncated next_continuation_token match_func
    fuel bucket_name max_results params token matches total st = Some (result, st') ->
  exists new,
    trace st' = trace st ++ new
    /\ Forall (fun cr : Call * Response => method cr.1 = "GET" /\ bucket cr.1 = bucket_name) new
    /\ match result with
       | None => exists cr, last new = Some cr /\ status_code cr.2 <> 200
       | Some (found, scanned) =>
           Forall (fun cr : Call * Response => status_code cr.2 = 200) new
           /\ found = limit max_results
                        (matches ++ List.filter matching (listed contents new))
           /\ total <= scanned <= total + Z.of_nat (length (listed contents new))
       end.
Proof.
  induction fuel as [|fuel IH]; intros params token matches total st result st' Hnot Htotal;
    [done|].
  cbn [search_pages]. rewrite make_s3_request_eq. cbv zeta.
  set (params' := if negb (String.eqb token "") then _ else params).
  set (call := Build_Call "GET" bucket_name "" params' DataNone []).
  set (r := (service call (world st)).1).
  set (st1 := Build_State _ _ _).
  assert (listed contents [(call, r)] = contents (content r)) as Hpage.
  { unfold listed. simpl. apply app_nil_r. }
  destruct (status_code r =? 200) eqn:Hstatus; simpl negb; cbv iota.
  2:{ intros [= <- <-]. exists [(call, r)]. split; [done|].
      split; [by repeat constructor|]. exists (call, r). split; [done|].
      simpl. by apply Z.eqb_neq. }
  apply Z.eqb_eq in Hstatus.
  destruct (scan_page_spec (contents (content r)) matches total Hnot) as [Hfound Hscanned].
  destruct (scan_page match_func max_results (contents (content r)) matches total)
    as [found scanned] eqn:Hscan.
  cbn [fst snd] in Hfound, Hscanned.
  assert (forall st2, st2 = st1 ->
            exists new, trace st2 = trace st ++ new
              /\ Forall (fun cr : Call * Response =>
                           method cr.1 = "GET" /\ bucket cr.1 = bucket_name) new
              /\ Forall (fun cr : Call * Response => status_code cr.2 = 200) new
              /\ found = limit max_results
                           (matches ++ List.filter matching (listed contents new))
              /\ total <= scanned <= total + Z.of_nat (length (listed contents new)))
    as Hstop.
  { intros st2 ->. exists [(call, r)]. split; [done|].
    split; [by repeat constructor|]. split; [by repeat constructor|].
    rewrite Hpage. done. }
  destruct (reached max_results found) eqn:Hfull.
  { intros [= <- <-]. by apply Hstop. }
  destruct (is_truncated (content r)); simpl negb; cbv iota.
  2:{ intros [= <- <-]. by apply Hstop. }
  destruct (next_continuation_token (content r)) as [token'|].
  2:{ intros [= <- <-]. by apply Hstop. }
  intros Hrun.
  apply IH in Hrun as (new & Htr & Hcalls & Hresult); [|done|lia].
  exists ((call, r) :: new). split; [rewrite Htr; unfold st1; cbn [trace]; by rewrite <- app_assoc|].
  split; [by constructor|].
  assert (found = matches ++ List.filter matching (contents (content r))) as Hall.
  { rewrite Hfound. apply limit_full. by rewrite <- Hfound. }
  destruct result as [[found' scanned']|].
  - destruct Hresult as (Hok & -> & Hscanned').
    split; [by constructor|].
    change ((call, r) :: new) with ([(call, r)] ++ new).
    rewrite listed_app, Hpage, List.filter_app, length_app, app_assoc, <- Hall.
    split; [done|lia].
  - destruct Hresult as (cr & Hlast & Hcr). exists cr. split; [|done].
    destruct new; [done|]. done.
Qed.
End SearchFacts.

(** X17. What the paginated search returns, when it does: every page it
    fetched was a listing of the bucket answered with 200, and the matches
    are the entries of these pages, in listing order, whose key satisfies
    the match function, cut after the first [max_results] of them when a
    limit is set (none or zero: no limit). So a limit is never exceeded, and
    every match was listed and satisfies the match function; the count of
    keys scanned does not exceed the number of entries listed. *)
Theorem search_returns_first_matches {World : Type}
    (service : Call -> World -> Response * World)
    (contents : list byte -> list entry)
    (is_truncated : list byte -> bool)
    (next_continuation_token : list byte -> option string)
    (match_func : string -> bool)
    (fuel : nat) (bucket_name prefix : string) (page_size : Z)
    (max_results : option Z) (st st' : State World)
    (found : list entry) (scanned : Z) :
  (forall m, max_results = Some m -> 0 <= m) ->
  search_files_paginated service contents is_truncated next_continuation_token
    match_func fuel bucket_name prefix page_size max_results st
  = Some (Some (found, scanned), st') ->
  exists new,
    trace st' = trace st ++ new
    /\ Forall (fun cr : Call * Response =>
                 method cr.1 = "GET" /\ bucket cr.1 = bucket_name
                 /\ status_code cr.2 = 200) new
    /\ found = limit max_results
                 (List.filter (fun e : entry => match_func e.1.1) (listed contents new))
    /\ (forall m, max_results = Some m -> 0 < m -> Z.of_nat (length found) <= m)
    /\ Forall (fun e : entry => match_func e.1.1 = true /\ e ∈ listed contents new) found
    /\ 0 <= scanned <= Z.of_nat (length (listed contents new)).
Proof.
  intros Hmax Hrun. unfold search_files_paginated in Hrun.
  apply (search_pages_spec service contents is_truncated next_continuation_token
           match_func max_results Hmax) in Hrun
    as (new & Htr & Hcalls & Hok & Hfound & Hscanned); [| |lia].
  2:{ unfold reached. destruct max_results as [m|] eqn:E; [|done].
      destruct (m =? 0) eqn:E0; [done|]. simpl. apply Z.leb_gt.
      apply Z.eqb_neq in E0. pose proof (Hmax m eq_refl). lia. }
  exists new. split; [done|]. split.
  { apply Forall_forall. intros cr Hin.
    rewrite Forall_forall in Hcalls, Hok. destruct (Hcalls cr Hin). auto. }
  simpl in Hfound. split; [done|]. split; [|split; [|lia]].
  - intros m Hm Hpos. rewrite Hfound. by apply limit_length.
  - rewrite Hfound. apply limit_sublist. apply Forall_forall.
    intros e He%list_elem_of_In%filter_In. destruct He as [He Hmatch].
    split; [done|]. by apply list_elem_of_In.
Qed.

Lemma search_returns_first_matches_witness :
  (forall m, Some 2 = Some m -> 0 <= m)
  /\ exists st',
      search_files_paginated two_pages two_pages_contents two_pages_truncated
        two_pages_token is_txt 3 "b" "" 1000 (Some 2)
        {| world := tt; trace := []; local_file := None |}
      = Some (Some ([("a.txt", "1", "d1"); ("c.txt", "3", "d3")], 3), st')
      /\ length (trace st') = 2%nat.
Proof.
  assert (forall m, Some 2 = Some m -> 0 <= m) as H1 by (intros m [= <-]; lia).
  split; [exact H1|].
  destruct (search_files_paginated two_pages two_pages_contents two_pages_truncated
              two_pages_token is_txt 3 "b" "" 1000 (Some 2)
              {| world := tt; trace := []; local_file := None |})
    as [[[[found scanned]|] st']|] eqn:E; [|by vm_compute in E..].
  destruct (search_returns_first_matches two_pages two_pages_contents
              two_pages_truncated two_pages_token is_txt 3 "b" "" 1000 (Some 2)
              _ st' found scanned H1 E) as (new & Htr & _).
  exists st'. vm_compute in E. injection E as <- <- <-. split; reflexivity.
Defined.

(** ** download_file *)

(** X18. Round trip of [download_file]: from a service that holds an
    object (it answers the [HEAD] request with the object's length, the
    plain [GET] with the object, each range request with the bytes of the
    range), and for a positive chunk size, the download succeeds in the mode
    the planner chooses and the destination file is the object. *)
Theorem download_file_round_trip {World : Type}
    (service : Call -> World -> Response * World)
    (content_length : Response -> Z)
    (fuel : nat) (args : Args) (object : list byte)
    (bucket key : string) (st : State World) :
  0 < chunk_size_bytes args ->
  holds service content_length object bucket key (chunk_size_bytes args) ->
  (Z.to_nat (chunk_count (Z.of_nat (length object)) (chunk_size_bytes args)) <= fuel)%nat ->
  exists st',
    download_file service content_length fuel args bucket key st
    = Some (if use_chunked args (Z.of_nat (length object))
            then ChunkedDownload true else SingleDownload true, st')
    /\ local_file st' = Some object.
Proof.
  intros HC (Hhead & Hget & Hserves) Hfuel. unfold download_file.
  rewrite make_s3_request_eq. cbv zeta. fold (head_call bucket key).
  destruct (Hhead (world st)) as [-> ->]. cbn [Z.eqb Pos.eqb negb].
  set (st0 := Build_State _ _ _).
  destruct (use_chunked args (Z.of_nat (length object))).
  - unfold download_file_chunked.
    pose proof (chunk_count_nonneg (Z.of_nat (length object)) (chunk_size_bytes args)
                  HC ltac:(lia)) as Hn.
    destruct (download_chunks_serves service object bucket key (chunk_size_bytes args)
                HC Hserves fuel 0 (set_local_file (Some []) st0) [] ltac:(lia)
                ltac:(by rewrite Z.sub_0_r) eq_refl)
      as (st' & Hrun & Hfile).
    assert (Z.min (0 * chunk_size_bytes args) (Z.of_nat (length object)) = 0) as E by lia.
    rewrite E in Hrun. rewrite Hrun. by exists st'.
  - unfold download_file_single. rewrite make_s3_request_eq. cbv zeta.
    fold (get_call bucket key).
    destruct (Hget (world st0)) as [-> ->]. cbn [Z.eqb Pos.eqb].
    by eexists.
Qed.

Lemma ten_bytes_server_holds chunk :
  chunk = 4 \/ 10 <= chunk ->
  holds ten_bytes_server (fun _ => 10) ten_bytes "b" "k" chunk.
Proof.
  intros Hchunk. split; [done|]. split; [done|]. intros i w Hi.
  change (Z.of_nat (length ten_bytes)) with 10 in *.
  destruct Hchunk as [->|Hchunk].
  - change (chunk_count 10 4) with 3 in Hi.
    assert (i = 0 \/ i = 1 \/ i = 2) as [-> | [-> | ->]] by lia; by vm_compute.
  - assert (chunk_count 10 chunk = 1) as E.
    { apply chunk_count_unique; lia. }
    rewrite E in Hi. assert (i = 0) as -> by lia.
    unfold range_call. rewrite chunk_range_eq. cbn [fst snd].
    replace (Z.min ((0 + 1) * chunk - 1) (10 - 1)) with 9 by lia.
    by vm_compute.
Defined.

Lemma download_file_round_trip_witness :
  let args := {| chunk_size := Some 5; force_multipart := None;
                 force_single := None; force_chunked := Some true |} in
  0 < chunk_size_bytes args
  /\ holds ten_bytes_server (fun _ => 10) ten_bytes "b" "k" (chunk_size_bytes args)
  /\ (Z.to_nat (chunk_count (Z.of_nat (length ten_bytes)) (chunk_size_bytes args)) <= 1)%nat
  /\ exists st',
      download_file ten_bytes_server (fun _ => 10) 1 args "b" "k"
        {| world := tt; trace := []; local_file := None |}
      = Some (ChunkedDownload true, st')
      /\ local_file st' = Some ten_bytes.
Proof.
  intros args.
  assert (0 < chunk_size_bytes args) as H1 by (vm_compute; reflexivity).
  assert (holds ten_bytes_server (fun _ => 10) ten_bytes "b" "k" (chunk_size_bytes args))
    as H2 by (apply ten_bytes_server_holds; right; vm_compute; discriminate).
  assert (Z.to_nat (chunk_count (Z.of_nat (length ten_bytes)) (chunk_size_bytes args)) <= 1)%nat
    as H3 by (vm_compute; lia).
  split; [exact H1|]. split; [exact H2|]. split; [exact H3|].
  exact (download_file_round_trip ten_bytes_server (fun _ => 10) 1 args ten_bytes
           "b" "k" {| world := tt; trace := []; local_file := None |} H1 H2 H3).
Defined.

(** ** The date that is signed *)

Lemma elem_of_dict_set_inv k v (d : items) kv :
  kv ∈ dict_set k v d -> kv = (k, v) \/ kv ∈ d.
Proof.
  induction d as [|kv' d IH]; simpl.
  { intros ->%list_elem_of_singleton. by left. }
  destruct (String.eqb_spec kv'.1 k) as [E|_]; rewrite !elem_of_cons.
  - rewrite E. tauto.
  - intros [->|Hin]; [tauto|]. destruct (IH Hin); tauto.
Qed.

Lemma dict_set_value k v (d : items) kv :
  NoDup (map fst d) -> kv ∈ dict_set k v d -> kv.1 = k -> kv.2 = v.
Proof.
  induction d as [|kv' d IH]; simpl.
  { by intros _ ->%list_elem_of_singleton _. }
  intros [Hnotin Hnd]%NoDup_cons.
  destruct (String.eqb_spec kv'.1 k) as [E|Hne]; rewrite elem_of_cons.
  - intros [->|Hin] Hk; [done|]. exfalso. apply Hnotin. rewrite E, <- Hk.
    apply list_elem_of_fmap. by exists kv.
  - intros [->|Hin] Hk; [done|]. by apply IH.
Qed.

Lemma last_value_header_pairs (l : items) name v :
  (forall kv, kv ∈ l -> lower kv.1 = name -> kv.2 = v) ->
  Exists (fun kv => lower kv.1 = name) l ->
  last_value name (header_pairs l) = Some v.
Proof.
  induction l as [|kv l IH] using rev_ind.
  { by intros _ ?%Exists_nil. }
  intros Hall Hex. unfold header_pairs. rewrite map_app. cbn [map].
  rewrite last_value_snoc. cbn [fst snd].
  destruct (String.eqb_spec (lower kv.1) name) as [E|Hne].
  - f_equal. apply Hall; [|done]. apply elem_of_app. right. by left.
  - apply IH.
    + intros kv' Hin. apply Hall. apply elem_of_app. by left.
    + apply Exists_app in Hex as [Hex|Hex]; [done|].
      by apply Exists_cons in Hex as [?|?%Exists_nil].
Qed.

Section SignedDate.
Context (netloc : string -> string).
Variables (profile : gmap string string) (amz_date : string) (call : Call).
Hypothesis headers_dict : NoDup (map fst (headers call)).
Hypothesis no_other_date :
  Forall (fun kv => lower kv.1 = "x-amz-date" -> kv.1 = "x-amz-date") (headers call).

#[local] Abbreviation url :=
  (request_url profile (bucket call) (key call) (params call)).
#[local] Abbreviation sent :=
  (dict_set "x-amz-content-sha256" (payload_hash (data call))
     (dict_set "host" (netloc url)
        (dict_set "x-amz-date" amz_date (headers call)))).

Lemma sent_date : normalized_headers sent !! "x-amz-date" = Some amz_date.
Proof.
  rewrite normalized_headers_eq, lookup_dict_of_items.
  apply last_value_header_pairs; [|apply sent_has_date].
  intros kv Hin Hname.
  apply elem_of_dict_set_inv in Hin as [->|Hin]; [done|].
  apply elem_of_dict_set_inv in Hin as [->|Hin]; [done|].
  apply (dict_set_value "x-amz-date" amz_date (headers call)); [done|done|].
  apply elem_of_dict_set_inv in Hin as [->|Hin]; [done|].
  rewrite Forall_forall in no_other_date. by apply no_other_date.
Qed.
End SignedDate.

(** X19. The request that [make_s3_request] sends is signed for the date
    of the clock, the region of the profile ([us-east-1] when it names none)
    and the service [s3]: when the caller's headers bring no date of their
    own, the [Authorization] value is the Signature Version 4 value whose
    credential scope starts with the first 8 characters of the clock's
    date, and the date among the signed headers is the clock's. *)
Theorem make_s3_request_signs_the_clock_date
    (urlparse : string -> ParseResult) (netloc : string -> string)
    (profile : gmap string string) (amz_date : string) (call : Call)
    (access_key secret_key : string) :
  profile !! "aws_access_key_id" = Some access_key ->
  profile !! "aws_secret_access_key" = Some secret_key ->
  NoDup (map fst (headers call)) ->
  Forall (fun kv => lower kv.1 = "x-amz-date" -> kv.1 = "x-amz-date") (headers call) ->
  let url := request_url profile (bucket call) (key call) (params call) in
  let region := profile_get profile "region" "us-east-1" in
  let date8 := substring 0 8 amz_date in
  let scope := date8 +:+ "/" +:+ region +:+ "/s3/aws4_request" in
  let signing_key :=
    foldl Hmac.digest (encode_utf8 ("AWS4" +:+ secret_key))
      (map encode_utf8 [date8; region; "s3"; "aws4_request"]) in
  exists hs0,
    let string_to_sign :=
      String.concat nl
        [ "AWS4-HMAC-SHA256"; amz_date; scope;
          sha256_hexdigest
            (encode_utf8 (canonical_request urlparse (method call) url hs0 (data call))) ] in
    signed_request urlparse netloc profile amz_date call
    = Some (url,
            dict_set "Authorization"
              ("AWS4-HMAC-SHA256 Credential=" +:+ access_key +:+ "/" +:+ scope
               +:+ ", SignedHeaders=" +:+ signed_headers (normalized_headers hs0)
               +:+ ", Signature="
               +:+ hexlify (Hmac.digest signing_key (encode_utf8 string_to_sign)))
              hs0)
    /\ normalized_headers hs0 !! "x-amz-date" = Some amz_date
    /\ ("x-amz-date", amz_date) ∈ hs0.
Proof.
  intros Ha Hs Hnd Hdate url region date8 scope signing_key.
  pose proof (sent_date netloc profile amz_date call Hnd Hdate) as Hsent.
  eexists. split; [|split; [exact Hsent|]].
  - rewrite signed_request_eq, Ha, Hs. unfold sign_request_v4. rewrite Hsent.
    reflexivity.
  - apply elem_of_dict_set_other; [|done].
    apply elem_of_dict_set_other; [|done]. apply elem_of_dict_set.
Qed.

Lemma example_headers_dict : NoDup (map fst (headers example_call)).
Proof. apply NoDup_singleton. Defined.

Lemma example_headers_no_date :
  Forall (fun kv : string * string => lower kv.1 = "x-amz-date" -> kv.1 = "x-amz-date")
    (headers example_call).
Proof.
  apply Forall_cons_2; [|apply Forall_nil_2]. intros H. vm_compute in H. discriminate H.
Defined.

Lemma make_s3_request_signs_the_clock_date_witness :
  example_profile !! "aws_access_key_id" = Some "AKIDEXAMPLE"
  /\ example_profile !! "aws_secret_access_key" = Some vanilla_secret
  /\ NoDup (map fst (headers example_call))
  /\ Forall (fun kv => lower kv.1 = "x-amz-date" -> kv.1 = "x-amz-date")
       (headers example_call)
  /\ exists hs0 auth,
      signed_request urlparse_http netloc_http example_profile "20240101T000000Z"
        example_call
      = Some (request_url example_profile (bucket example_call) (key example_call)
                (params example_call),
              dict_set "Authorization" auth hs0)
      /\ normalized_headers hs0 !! "x-amz-date" = Some "20240101T000000Z".
Proof.
  assert (example_profile !! "aws_access_key_id" = Some "AKIDEXAMPLE") as H1
    by (vm_compute; reflexivity).
  assert (example_profile !! "aws_secret_access_key" = Some vanilla_secret) as H2
    by (vm_compute; reflexivity).
  split; [exact H1|]. split; [exact H2|]. split; [exact example_headers_dict|].
  split; [exact example_headers_no_date|].
  destruct (make_s3_request_signs_the_clock_date urlparse_http netloc_http
              example_profile "20240101T000000Z" example_call "AKIDEXAMPLE"
              vanilla_secret H1 H2 example_headers_dict example_headers_no_date)
    as (hs0 & Hrun & Hsigned & _).
  exists hs0. eexists. split; [exact Hrun|exact Hsigned].
Defined.

Example signed_part_upload :
  exists signature,
    signed_request urlparse_http netloc_http example_profile "20240101T000000Z"
      example_call
    = Some ("https://s3.example.com/bucket/dir/a%20b.txt?partNumber=1&uploadId=x",
            [("Content-Length", "10"); ("x-amz-date", "20240101T000000Z");
             ("host", "s3.example.com");
             ("x-amz-content-sha256",
              "84d89877f0d4041efb6bf91a16f0248f2fd573e6af05c19f96bedb9f882f7882");
             ("Authorization",
              "AWS4-HMAC-SHA256 Credential=AKIDEXAMPLE/20240101/us-east-1/s3/aws4_request, "
              +:+ "SignedHeaders=content-length;host;x-amz-content-sha256;x-amz-date, "
              +:+ "Signature=" +:+ signature)])
    /\ String.length signature = 64%nat.
Proof. vm_compute. eexists. split; reflexivity. Qed.
